(** * Google Publisher Tag playground: sample code generator

    A shallow embedding of the code-generation functions of
    [src/codegen/api/googletag.ts] and [src/codegen/api/slot.ts], of the
    sample configuration model [src/model/sample-config.ts] and of the
    entry point that reads the configuration from the URL hash.

    JavaScript strings are modelled as [string] (a sequence of 8-bit
    code units), JavaScript numbers as [number] (the IEEE 754 doubles),
    the integers that count and index array elements as [Z], exceptions
    as the error side of [result].  Slot configuration objects are compared by
    identity in the source ([Array.prototype.indexOf]); they are
    modelled as references into a store.

    Three helpers of the code generator are not among the sources and
    are parameters of the functions that call them: [sanitizeJs], the
    table [outOfPageFormatNames] and [pubads.addEventListener].  The
    module [base64url] and the serializer of the configuration are not
    among the sources either; they are modelled from the specification
    in [Base64url] and [param_of_config]. *)

From Stdlib Require Import String Ascii List ZArith Lia Bool.
From Stdlib Require Import Decimal DecimalString DecimalZ.
Import ListNotations.
Local Open Scope string_scope.
Local Open Scope Z_scope.

(* ===================================================================== *)
(** * JavaScript runtime: exceptions, values, string helpers             *)
(* ===================================================================== *)

(** Exceptions the modelled code can raise. *)
Inductive JsError : Type :=
| TypeError            (* property read on [undefined] *)
| SyntaxError          (* [JSON.parse] on malformed text *)
| InvalidCharacterError. (* base64 decoding of a malformed text *)

Inductive result (A : Type) : Type :=
| Ok (a : A)
| Err (e : JsError).
Arguments Ok {A} a.
Arguments Err {A} e.

Definition bind {A B : Type} (r : result A) (k : A -> result B) : result B :=
  match r with
  | Ok a => k a
  | Err e => Err e
  end.

Notation "x <- r ;; k" := (bind r (fun x => k))
  (at level 61, r at next level, right associativity).

(** JavaScript numbers: the IEEE 754 double-precision values, each
    written in one way.  An integer value is [Integer n] (positive zero
    is [Integer 0]); a value that is not an integer is [Fraction m e],
    the odd integer [m] divided by [2^e].  The values of the type that no
    double has (an integer of more than 53 significant bits, say) are
    never produced by the conversions below. *)
Inductive number : Type :=
| Integer (n : Z)
| Fraction (m : Z) (e : positive)
| NegZero
| NaN
| Infinity
| NegInfinity.

Coercion Integer : Z >-> number.

(** JavaScript values as [JSON.parse] returns them and [JSON.stringify]
    reads them: [null], booleans, numbers, strings, arrays and objects.
    An object is the list of its own properties in enumeration order. *)
Unset Elimination Schemes.
Inductive json : Type :=
| JNull
| JBool (b : bool)
| JNum (x : number)
| JStr (s : string)
| JArr (items : list json)
| JObj (fields : list (string * json)).
Set Elimination Schemes.

Definition quote : string := String "034"%char EmptyString.
Definition nl : string := String "010"%char EmptyString.

(** [`${n}`] for an integer [n]: its decimal rendering. *)
Definition number_to_string (n : Z) : string :=
  NilZero.string_of_int (Z.to_int n).

(** [`${v}`] for a string that may be [undefined]. *)
Definition interpolate (v : option string) : string :=
  match v with
  | Some s => s
  | None => "undefined"
  end.

(** Truthiness of a string that may be [undefined]: [undefined] and the
    empty string are falsy. *)
Definition truthy (v : option string) : bool :=
  match v with
  | Some EmptyString => false
  | Some _ => true
  | None => false
  end.

(** White space removed by [String.prototype.trim] (8-bit part). *)
Definition is_whitespace (c : ascii) : bool :=
  match nat_of_ascii c with
  | 9%nat | 10%nat | 11%nat | 12%nat | 13%nat | 32%nat | 160%nat => true
  | _ => false
  end.

Fixpoint trimStart (s : string) : string :=
  match s with
  | EmptyString => EmptyString
  | String c s' => if is_whitespace c then trimStart s' else s
  end.

Fixpoint trimEnd (s : string) : string :=
  match s with
  | EmptyString => EmptyString
  | String c s' =>
      match trimEnd s' with
      | EmptyString => if is_whitespace c then EmptyString
                       else String c EmptyString
      | t => String c t
      end
  end.

Definition trim (s : string) : string := trimEnd (trimStart s).

(* ===================================================================== *)
(** * Data model ([src/model/sample-config.ts])                           *)
(* ===================================================================== *)

(** Identity of a slot configuration object. *)
Definition ref : Type := nat.

(** [value: string|string[]] *)
Inductive TargetingValue : Type :=
| SingleValue (s : string)
| MultiValue (l : list string).

Record SampleTargetingKV : Type := {
  key : string;
  value : TargetingValue
}.

Record SamplePrivacyConfig : Type := {
  ltd : option bool;
  npa : option bool;
  rdp : option bool;
  tfcd : option bool;
  tfua : option bool
}.

Record SamplePageConfig : Type := {
  privacy : option SamplePrivacyConfig;
  sra : option bool;
  page_targeting : option (list SampleTargetingKV)
}.

(** [googletag.SingleSize] of the GPT type declarations:
    [[width, height]], ['fluid'] or [['fluid']]. *)
Inductive SingleSize : Type :=
| SizeArray (width height : number)
| Fluid
| FluidArray.

(** [googletag.GeneralSize]: one size or an array of sizes. *)
Inductive GeneralSize : Type :=
| OneSize (s : SingleSize)
| MultiSize (l : list SingleSize).

(** [format] is a key of [googletag.enums.OutOfPageFormat], a string at
    run time. *)
Record SampleSlotConfig : Type := {
  adUnit : string;
  format : option string;
  size : GeneralSize;
  targeting : option (list SampleTargetingKV)
}.

(** A member of a TypeScript enumeration: a number or a string. *)
Inductive EnumValue : Type :=
| EnumNumber (n : Z)
| EnumString (s : string).

(** [type] is a [TemplateType] and [target] a [ts.ScriptTarget], both
    enumerations declared outside the model. *)
Record SampleTemplateConfig : Type := {
  type : option EnumValue;
  target : option Z
}.

Record SampleConfig : Type := {
  page : option SamplePageConfig;
  slots : list ref;
  template : option SampleTemplateConfig
}.

(** The slot objects the references denote. *)
Definition store : Type := ref -> SampleSlotConfig.

(** What a parameter typed [SampleSlotConfig] can hold at run time: a slot
    object, or [undefined] when it was read out of range of an array. *)
Inductive slotval : Type :=
| undefined
| object (r : ref).

(** Strict equality of an array element with a searched value. *)
Definition strict_eq (x : ref) (v : slotval) : bool :=
  match v with
  | undefined => false
  | object r => Nat.eqb x r
  end.

(** [Array.prototype.indexOf], counting from [i]. *)
Fixpoint indexOf_from (l : list ref) (v : slotval) (i : Z) : Z :=
  match l with
  | [] => -1
  | x :: l' => if strict_eq x v then i else indexOf_from l' v (i + 1)
  end.

Definition indexOf (l : list ref) (v : slotval) : Z := indexOf_from l v 0.

(** [Array.prototype.findIndex], counting from [i]. *)
Fixpoint findIndex_from (p : ref -> bool) (l : list ref) (i : Z) : Z :=
  match l with
  | [] => -1
  | x :: l' => if p x then i else findIndex_from p l' (i + 1)
  end.

Definition findIndex (p : ref -> bool) (l : list ref) : Z :=
  findIndex_from p l 0.

(** [l[i]]: [undefined] out of range. *)
Definition array_get (l : list ref) (i : Z) : slotval :=
  if i <? 0 then undefined
  else match nth_error l (Z.to_nat i) with
       | Some r => object r
       | None => undefined
       end.

(** [l.length] *)
Definition array_length (l : list ref) : Z := Z.of_nat (List.length l).

(** [String(slot.format)] *)
Definition String_of_format (f : option string) : string := interpolate f.

(** [config.page?.sra] as a condition. *)
Definition sra_enabled (config : SampleConfig) : bool :=
  match page config with
  | Some p => match sra p with
              | Some b => b
              | None => false
              end
  | None => false
  end.

(** JavaScript view of a targeting value and of a size, as [sanitizeJs]
    and [JSON.stringify] receive them. *)
Definition json_of_value (v : TargetingValue) : json :=
  match v with
  | SingleValue s => JStr s
  | MultiValue l => JArr (map JStr l)
  end.

Definition json_of_single_size (s : SingleSize) : json :=
  match s with
  | SizeArray w h => JArr [JNum w; JNum h]
  | Fluid => JStr "fluid"
  | FluidArray => JArr [JStr "fluid"]
  end.

Definition json_of_size (s : GeneralSize) : json :=
  match s with
  | OneSize x => json_of_single_size x
  | MultiSize l => JArr (map json_of_single_size l)
  end.

(* ===================================================================== *)
(** * Slot settings ([src/codegen/api/slot.ts])                           *)
(* ===================================================================== *)

Module Slot.
Section Templates.

(** [sanitizeJs] of [src/codegen/sanitize.ts], used as given. *)
Variable sanitizeJs : json -> string.

Definition api_addService : string := "addService(googletag.pubads())".

Definition api_setTargeting (kv : SampleTargetingKV) : string :=
  "setTargeting(" ++ sanitizeJs (JStr (key kv)) ++ ", "
    ++ sanitizeJs (json_of_value (value kv)) ++ ")".

(** [config.targeting?.forEach(kv => slotSettings += ...)] *)
Definition append_targeting (slotSettings : string)
    (targeting : option (list SampleTargetingKV)) : string :=
  match targeting with
  | Some kvs =>
      fold_left (fun acc kv => acc ++ "." ++ api_setTargeting kv) kvs
                slotSettings
  | None => slotSettings
  end.

Definition addInlineSlotSettings (config : SampleSlotConfig)
    (slotDefinition : string) : string :=
  let slotSettings := slotDefinition in
  let slotSettings := append_targeting slotSettings (targeting config) in
  let slotSettings := slotSettings ++ "." ++ api_addService ++ ";" in
  slotSettings.

End Templates.
End Slot.

(* ===================================================================== *)
(** * GPT API calls ([src/codegen/api/googletag.ts])                      *)
(* ===================================================================== *)

Module Googletag.

(** ** Internal template strings *)

Definition api_cmdInit : string :=
  "window.googletag = window.googletag || {cmd: []}".

Definition api_cmdPush (content : string) : string :=
  "googletag.cmd.push(() => {" ++ content ++ "})".

Definition api_declareSlot (id : string) : string :=
  "let " ++ id ++ ": googletag.Slot|null".

Definition api_display (idOrSlot : string) : string :=
  "googletag.display(" ++ idOrSlot ++ ")".

Definition api_enableServices : string := "googletag.enableServices()".

Definition outOfPage_comment (format : string) : string :=
  format ++ " slots return null if the page or device does not support them.".

Definition outOfPage_loaded (format : string) : string :=
  format ++ " is loaded.".

Definition outOfPage_loadedNeedScroll (format : string) : string :=
  outOfPage_loaded format ++ " Scroll page to activate.".

Definition outOfPage_loadedUrl (format : string) : string :=
  "<a href=" ++ quote ++ "https://www.example.com" ++ quote ++ ">"
    ++ outOfPage_loaded format ++ "</a>".

Definition outOfPage_loading (format : string) : string :=
  format ++ " is loading...".

Definition outOfPage_notSupported (format : string) : string :=
  format ++ " is not supported on this page.".

Definition status_container (id : string) : string :=
  "document.getElementById('" ++ id ++ "')".

Definition status_update (id content : string) : string :=
  status_container id ++ "!.innerText = '" ++ content ++ "'".

Definition status_updateHtml (id content : string) : string :=
  status_container id ++ "!.innerHTML = '" ++ content ++ "'".

(** ** Slot identifiers and display *)

Definition getSlotIdentifer (config : SampleConfig) (slotConfig : slotval)
    : string :=
  "slot" ++ number_to_string (indexOf (slots config) slotConfig + 1).

(** [slotConfig.format]: a [TypeError] when [slotConfig] is [undefined]. *)
Definition get_format (st : store) (slotConfig : slotval)
    : result (option string) :=
  match slotConfig with
  | undefined => Err TypeError
  | object r => Ok (format (st r))
  end.

Definition display (st : store) (config : SampleConfig)
    (slotConfig : slotval) : result string :=
  let id := getSlotIdentifer config slotConfig in
  fmt <- get_format st slotConfig ;;
  let idOrSlot := if truthy fmt then id else "'" ++ id ++ "'" in
  Ok (if truthy fmt
      then "if (" ++ idOrSlot ++ ") { " ++ api_display idOrSlot ++ "; }"
      else api_display idOrSlot ++ ";").

(** The index of the slot shown under single request architecture. *)
Definition sra_index (st : store) (config : SampleConfig) : Z :=
  let index := findIndex (fun s => negb (truthy (format (st s))))
                         (slots config) in
  if index =? -1 then array_length (slots config) - 1 else index.

(** [config.slots.forEach(slot => displayAll += display(config, slot))] *)
Definition display_each (st : store) (config : SampleConfig)
    (l : list ref) (displayAll : string) : result string :=
  fold_left
    (fun acc slot =>
       displayAll <- acc ;;
       d <- display st config (object slot) ;;
       Ok (displayAll ++ d))
    l (Ok displayAll).

Definition displayAll (st : store) (config : SampleConfig) : result string :=
  let displayAll := EmptyString in
  if sra_enabled config then
    let index := sra_index st config in
    display st config (array_get (slots config) index)
  else
    display_each st config (slots config) displayAll.

(** ** Public exports *)

Definition cmd_init : string := api_cmdInit ++ ";".

Definition cmd_push (content : string) : string := api_cmdPush content ++ ";".

Definition enableServices : string := api_enableServices ++ ";".

Definition declareSlot (config : SampleConfig) (slotConfig : ref) : string :=
  api_declareSlot (getSlotIdentifer config (object slotConfig)) ++ ";".

Section Templates.

(** [sanitizeJs] of [src/codegen/sanitize.ts], the table
    [outOfPageFormatNames] of [src/model/settings.ts] (a property
    look-up: [None] is [undefined]) and [addEventListener] of
    [src/codegen/api/pubads.ts], used as given. *)
Variable sanitizeJs : json -> string.
Variable outOfPageFormatNames : string -> option string.
Variable pubads_addEventListener : string -> string -> string.

Definition api_defineSlot (slot : SampleSlotConfig) (id : string)
    : string :=
  "googletag.defineSlot(" ++ sanitizeJs (JStr (adUnit slot)) ++ ", "
    ++ sanitizeJs (json_of_size (size slot)) ++ ", '" ++ id ++ "')".

Definition api_defineOutOfPageSlot (slot : SampleSlotConfig) : string :=
  "googletag.defineOutOfPageSlot(" ++ sanitizeJs (JStr (adUnit slot))
    ++ ", googletag.enums.OutOfPageFormat."
    ++ String_of_format (format slot) ++ ")".

(** [outOfPageFormatNames[slot.format!]], as a template prints it. *)
Definition formatName (slot : SampleSlotConfig) : string :=
  interpolate (outOfPageFormatNames (String_of_format (format slot))).

(** [case k:] of a [switch (slot.format)]: strict equality with [k]. *)
Definition format_is (slot : SampleSlotConfig) (k : string) : bool :=
  match format slot with
  | Some f => String.eqb f k
  | None => false
  end.

(** The status update chosen by the [switch] on [slot.format]. *)
Definition statusUpdate_of (slot : SampleSlotConfig) (id formatStr : string)
    : string :=
  if format_is slot "INTERSTITIAL" then
    status_updateHtml id (outOfPage_loadedUrl formatStr)
  else if format_is slot "TOP_ANCHOR" then
    status_update id (outOfPage_loadedNeedScroll formatStr)
  else
    status_update id (outOfPage_loaded formatStr).

Definition getSlotOnloadCallback (st : store) (config : SampleConfig)
    (slot : ref) : string :=
  let id := getSlotIdentifer config (object slot) in
  let formatStr := formatName (st slot) in
  let statusUpdate := statusUpdate_of (st slot) id formatStr in
  nl ++ "    if(" ++ id ++ " === event.slot) {" ++ nl
     ++ "      " ++ statusUpdate ++ ";" ++ nl
     ++ "    }" ++ nl
     ++ "  ".

Definition defineSlot (st : store) (config : SampleConfig)
    (slotConfig : ref) : string :=
  let slotDef :=
    api_defineSlot (st slotConfig)
                   (getSlotIdentifer config (object slotConfig)) ++ "!" in
  Slot.addInlineSlotSettings sanitizeJs (st slotConfig) slotDef.

Definition defineOutOfPageSlot (st : store) (config : SampleConfig)
    (slotConfig : ref) : string :=
  let slotVar := getSlotIdentifer config (object slotConfig) in
  let formatString := formatName (st slotConfig) in
  trim (
    nl ++ "    " ++ slotVar ++ " = "
       ++ api_defineOutOfPageSlot (st slotConfig) ++ ";" ++ nl
       ++ nl
       ++ "    // " ++ outOfPage_comment formatString ++ nl
       ++ "    if(!" ++ slotVar ++ ") {" ++ nl
       ++ "      "
       ++ status_update slotVar (outOfPage_notSupported formatString)
       ++ ";" ++ nl
       ++ "    } else {" ++ nl
       ++ "      "
       ++ Slot.addInlineSlotSettings sanitizeJs (st slotConfig) slotVar
       ++ ";" ++ nl
       ++ nl
       ++ "      "
       ++ status_update slotVar (outOfPage_loading formatString)
       ++ ";" ++ nl
       ++ nl
       ++ "      "
       ++ pubads_addEventListener "slotOnload"
            (getSlotOnloadCallback st config slotConfig) ++ nl
       ++ "    }" ++ nl
       ++ "  ").

End Templates.
End Googletag.

(* ===================================================================== *)
(** * URL-safe base64 ([src/util/base64url.ts])                           *)
(* ===================================================================== *)

Module Base64url.

(** Six bits, most significant first. *)
Inductive sextet : Type :=
| Sextet (b5 b4 b3 b2 b1 b0 : bool).

Definition bit (b : bool) (w : nat) : nat := if b then w else 0%nat.

Definition index_of_sextet (s : sextet) : nat :=
  let (b5, b4, b3, b2, b1, b0) := s in
  (bit b5 32 + bit b4 16 + bit b3 8 + bit b2 4 + bit b1 2 + bit b0 1)%nat.

Definition sextet_of_index (n : nat) : sextet :=
  Sextet (Nat.testbit n 5) (Nat.testbit n 4) (Nat.testbit n 3)
         (Nat.testbit n 2) (Nat.testbit n 1) (Nat.testbit n 0).

(** Modelled from the spec: the module [base64url] is not among the
    sources; the spec names the serializer "base64url + JSON".  The
    alphabet is the URL and filename safe one: [A-Z], [a-z], [0-9], [-]
    and [_]. *)
Definition digit_of_sextet (s : sextet) : ascii :=
  let n := index_of_sextet s in
  if (n <? 26)%nat then ascii_of_nat (65 + n)
  else if (n <? 52)%nat then ascii_of_nat (97 + (n - 26))
  else if (n <? 62)%nat then ascii_of_nat (48 + (n - 52))
  else if (n =? 62)%nat then "-"%char
  else "_"%char.

Definition sextet_of_digit (c : ascii) : option sextet :=
  let n := nat_of_ascii c in
  if ((65 <=? n) && (n <=? 90))%nat then Some (sextet_of_index (n - 65))
  else if ((97 <=? n) && (n <=? 122))%nat
       then Some (sextet_of_index (n - 97 + 26))
  else if ((48 <=? n) && (n <=? 57))%nat
       then Some (sextet_of_index (n - 48 + 52))
  else if (n =? 45)%nat then Some (sextet_of_index 62)
  else if (n =? 95)%nat then Some (sextet_of_index 63)
  else None.

(** Three bytes make four sextets; a last group of one or two bytes makes
    two or three, filled with zero bits. *)
Fixpoint sextets_of_bytes (s : string) : list sextet :=
  match s with
  | EmptyString => []
  | String (Ascii a0 a1 a2 a3 a4 a5 a6 a7) EmptyString =>
      [Sextet a7 a6 a5 a4 a3 a2; Sextet a1 a0 false false false false]
  | String (Ascii a0 a1 a2 a3 a4 a5 a6 a7)
     (String (Ascii b0 b1 b2 b3 b4 b5 b6 b7) EmptyString) =>
      [Sextet a7 a6 a5 a4 a3 a2; Sextet a1 a0 b7 b6 b5 b4;
       Sextet b3 b2 b1 b0 false false]
  | String (Ascii a0 a1 a2 a3 a4 a5 a6 a7)
     (String (Ascii b0 b1 b2 b3 b4 b5 b6 b7)
     (String (Ascii c0 c1 c2 c3 c4 c5 c6 c7) rest)) =>
      Sextet a7 a6 a5 a4 a3 a2 :: Sextet a1 a0 b7 b6 b5 b4
        :: Sextet b3 b2 b1 b0 c7 c6 :: Sextet c5 c4 c3 c2 c1 c0
        :: sextets_of_bytes rest
  end.

Fixpoint digits_of_sextets (l : list sextet) : string :=
  match l with
  | [] => EmptyString
  | x :: l' => String (digit_of_sextet x) (digits_of_sextets l')
  end.

(** Modelled from the spec: [encode] of the module [base64url], which is
    not among the sources: the base64url text of a string of bytes,
    without padding. *)
Definition encode (s : string) : string :=
  digits_of_sextets (sextets_of_bytes s).

Fixpoint sextets_of_digits (s : string) : option (list sextet) :=
  match s with
  | EmptyString => Some []
  | String c s' =>
      match sextet_of_digit c, sextets_of_digits s' with
      | Some x, Some l => Some (x :: l)
      | _, _ => None
      end
  end.

Fixpoint bytes_of_sextets (l : list sextet) : option string :=
  match l with
  | [] => Some EmptyString
  | [_] => None
  | [Sextet a7 a6 a5 a4 a3 a2; Sextet a1 a0 _ _ _ _] =>
      Some (String (Ascii a0 a1 a2 a3 a4 a5 a6 a7) EmptyString)
  | [Sextet a7 a6 a5 a4 a3 a2; Sextet a1 a0 b7 b6 b5 b4;
     Sextet b3 b2 b1 b0 _ _] =>
      Some (String (Ascii a0 a1 a2 a3 a4 a5 a6 a7)
           (String (Ascii b0 b1 b2 b3 b4 b5 b6 b7) EmptyString))
  | Sextet a7 a6 a5 a4 a3 a2 :: Sextet a1 a0 b7 b6 b5 b4
    :: Sextet b3 b2 b1 b0 c7 c6 :: Sextet c5 c4 c3 c2 c1 c0 :: rest =>
      match bytes_of_sextets rest with
      | Some t =>
          Some (String (Ascii a0 a1 a2 a3 a4 a5 a6 a7)
               (String (Ascii b0 b1 b2 b3 b4 b5 b6 b7)
               (String (Ascii c0 c1 c2 c3 c4 c5 c6 c7) t)))
      | None => None
      end
  end.

(** Modelled from the spec: [decode] of the module [base64url], which is
    not among the sources: the bytes a base64url text stands for; a text
    with a character outside the alphabet or of an impossible length is
    rejected. *)
Definition decode (s : string) : result string :=
  match sextets_of_digits s with
  | Some l =>
      match bytes_of_sextets l with
      | Some t => Ok t
      | None => Err InvalidCharacterError
      end
  | None => Err InvalidCharacterError
  end.

End Base64url.

(* ===================================================================== *)
(** * Numbers and their decimal texts                                     *)
(* ===================================================================== *)

Module JSNumber.

Definition eqb (x y : number) : bool :=
  match x, y with
  | Integer n, Integer n' => n =? n'
  | Fraction m e, Fraction m' e' => (m =? m') && Pos.eqb e e'
  | NegZero, NegZero | NaN, NaN | Infinity, Infinity
  | NegInfinity, NegInfinity => true
  | _, _ => false
  end.

Definition is_finite (x : number) : bool :=
  match x with
  | NaN | Infinity | NegInfinity => false
  | _ => true
  end.

Definition is_negative (x : number) : bool :=
  match x with
  | Integer n => n <? 0
  | Fraction m _ => m <? 0
  | NegZero | NegInfinity => true
  | _ => false
  end.

(** The magnitude of a finite number as a ratio of two integers. *)
Definition magnitude (x : number) : Z * Z :=
  match x with
  | Integer n => (Z.abs n, 1)
  | Fraction m e => (Z.abs m, 2 ^ Z.pos e)
  | _ => (0, 1)
  end.

Definition abs (x : number) : number :=
  match x with
  | Integer n => Integer (Z.abs n)
  | Fraction m e => Fraction (Z.abs m) e
  | NegZero => Integer 0
  | NegInfinity => Infinity
  | _ => x
  end.

Fixpoint trailing_zero_bits (p : positive) : nat :=
  match p with
  | xO p' => S (trailing_zero_bits p')
  | _ => O
  end.

(** The values that are doubles: zero, and the integers [m * 2^e] and
    the fractions [m / 2^e] of a significand [m] below [2^53], up to
    [2^1024] and down to [2^-1074]. *)
Definition is_double (x : number) : bool :=
  match x with
  | Integer n =>
      (n =? 0)
      || ((Z.abs n / 2 ^ Z.of_nat (trailing_zero_bits (Z.to_pos (Z.abs n)))
           <? 2 ^ 53)
          && (Z.abs n <? 2 ^ 1024))
  | Fraction m e => Z.odd m && (Z.abs m <? 2 ^ 53) && (Z.pos e <=? 1074)
  | _ => true
  end.

(** The numbers a JSON text denotes: the finite doubles other than
    negative zero. *)
Definition json_number (x : number) : bool :=
  match x with
  | Integer _ | Fraction _ _ => is_double x
  | _ => false
  end.

(** The number [q * 2^e2] with its sign, for [q > 0]. *)
Definition make_number (negative : bool) (q e2 : Z) : number :=
  let signed := fun z : Z => if negative then - z else z in
  if 0 <=? e2 then Integer (signed (q * 2 ^ e2))
  else
    let t := Z.min (Z.of_nat (trailing_zero_bits (Z.to_pos q))) (- e2) in
    let q' := q / 2 ^ t in
    let e' := e2 + t in
    if e' =? 0 then Integer (signed q')
    else Fraction (signed q') (Z.to_pos (- e')).

(** [l] with [2^l <= p/q < 2^(l+1)], for positive [p] and [q]. *)
Definition binary_exponent (p q : Z) : Z :=
  let l0 := Z.log2 p - Z.log2 q in
  let below := if 0 <=? l0 then p <? q * 2 ^ l0 else p * 2 ^ (- l0) <? q in
  if below then l0 - 1 else l0.

(** The integer nearest to [num / den], the even one of two that are
    equally near. *)
Definition nearest (num den : Z) : Z :=
  let m := num / den in
  let r := num mod den in
  if (den <? 2 * r) || ((den =? 2 * r) && Z.odd m) then m + 1 else m.

(** The double nearest to [p / q] for positive [p] and [q]: a
    significand of 53 bits, or fewer below [2^-1022], ties to the even
    significand, infinity from [2^1024] on. *)
Definition round_ratio (negative : bool) (p q : Z) : number :=
  let l := binary_exponent p q in
  let e2 := Z.max (l - 52) (-1074) in
  let m := if e2 <? 0 then nearest (p * 2 ^ (- e2)) q
           else nearest p (q * 2 ^ e2) in
  if m =? 0 then (if negative then NegZero else Integer 0)
  else if 1024 <=? Z.log2 m + e2
       then (if negative then NegInfinity else Infinity)
  else make_number negative m e2.

(** The number of decimal digits of a positive integer. *)
Definition decimal_digits (z : Z) : Z :=
  Z.of_nat (String.length (number_to_string z)).

(** The double nearest to [s * 10^e10], for [s >= 0]: the value of a
    decimal literal.  A literal above [10^310] is infinite and one below
    [10^-330] is zero, whatever its digits. *)
Definition round_decimal (negative : bool) (s e10 : Z) : number :=
  if s =? 0 then (if negative then NegZero else Integer 0)
  else if 310 <? e10 + decimal_digits s
       then (if negative then NegInfinity else Infinity)
  else if e10 + decimal_digits s <? -330
       then (if negative then NegZero else Integer 0)
  else if 0 <=? e10 then round_ratio negative (s * 10 ^ e10) 1
  else round_ratio negative s (10 ^ (- e10)).

(** [n] with [10^(n-1) <= p/q < 10^n], for positive [p] and [q]. *)
Definition decimal_exponent (p q : Z) : Z :=
  if q <=? p then decimal_digits (p / q)
  else
    let j0 := decimal_digits q - decimal_digits p in
    let j := if q <=? p * 10 ^ j0 then j0 else j0 + 1 in
    1 - j.

(** Among the two decimals of [k] digits around [p/q], the one nearest to
    [p/q] that rounds to [x] (the even one on a tie), if there is one. *)
Definition candidate (x : number) (p q n k : Z) : option Z :=
  let t := k - n in
  let num := if 0 <=? t then p * 10 ^ t else p in
  let den := if 0 <=? t then q else q * 10 ^ (- t) in
  let lo := num / den in
  let r := num mod den in
  let hi := lo + 1 in
  let ok_lo := eqb (round_decimal false lo (n - k)) x in
  let ok_hi := eqb (round_decimal false hi (n - k)) x in
  match ok_lo, ok_hi with
  | true, true =>
      if 2 * r <? den then Some lo
      else if den <? 2 * r then Some hi
      else if Z.even lo then Some lo else Some hi
  | true, false => Some lo
  | false, true => Some hi
  | false, false => None
  end.

(** The decimal of fewest digits that rounds to [x], trying [k], [k + 1],
    ... digits: its digits as an integer, and their number.  Seventeen
    digits always suffice for a double. *)
Fixpoint shortest (x : number) (p q n : Z) (fuel : nat) (k : Z) : Z * Z :=
  match fuel with
  | O => (p * 10 ^ (Z.max 0 (k - n)) / (q * 10 ^ (Z.max 0 (n - k))), k)
  | S fuel' =>
      match candidate x p q n k with
      | Some s => (s, k)
      | None => shortest x p q n fuel' (k + 1)
      end
  end.

(** [s] without the zeros at its end. *)
Fixpoint strip_zeros (s : string) : string :=
  match s with
  | EmptyString => EmptyString
  | String c s' =>
      match strip_zeros s' with
      | EmptyString => if Ascii.eqb c "0" then EmptyString
                       else String c EmptyString
      | t => String c t
      end
  end.

Fixpoint zeros (n : nat) : string :=
  match n with
  | O => EmptyString
  | S n' => String "0" (zeros n')
  end.

Definition take (n : nat) (s : string) : string := substring 0 n s.

Definition drop (n : nat) (s : string) : string :=
  substring n (String.length s - n) s.

(** The text of the decimal [0.d * 10^n] as [Number::toString] lays it
    out: plain digits up to 21 integer digits, a leading [0.] down to
    [10^-7], and the exponent form elsewhere. *)
Definition format_decimal (d : string) (n : Z) : string :=
  let k := Z.of_nat (String.length d) in
  if (k <=? n) && (n <=? 21) then d ++ zeros (Z.to_nat (n - k))
  else if (0 <? n) && (n <=? 21)
       then take (Z.to_nat n) d ++ "." ++ drop (Z.to_nat n) d
  else if (-6 <? n) && (n <=? 0) then "0." ++ zeros (Z.to_nat (- n)) ++ d
  else
    let e := n - 1 in
    let exponent :=
      (if e <? 0 then "-" else "+") ++ number_to_string (Z.abs e) in
    if k =? 1 then d ++ "e" ++ exponent
    else take 1 d ++ "." ++ drop 1 d ++ "e" ++ exponent.

(** [Number::toString]: [`${x}`] and [String(x)] for a number. *)
Definition toString (x : number) : string :=
  match x with
  | NaN => "NaN"
  | Infinity => "Infinity"
  | NegInfinity => "-Infinity"
  | NegZero => "0"
  | Integer 0 => "0"
  | _ =>
      let (p, q) := magnitude x in
      let n := decimal_exponent p q in
      let (s, k) := shortest (abs x) p q n 17 1 in
      let digits := number_to_string s in
      let n' := n + (Z.of_nat (String.length digits) - k) in
      (if is_negative x then "-" else EmptyString)
        ++ format_decimal (strip_zeros digits) n'
  end.

(** The text [JSON.stringify] prints for a number: [null] for a number
    that is not finite. *)
Definition json_text (x : number) : string :=
  if is_finite x then toString x else "null".

End JSNumber.

(* ===================================================================== *)
(** * [JSON.stringify] and [JSON.parse]                                   *)
(* ===================================================================== *)

Module JSON.

(** ** [JSON.stringify] of a JSON-compatible value *)

Definition hex_digit (n : nat) : ascii :=
  if (n <? 10)%nat then ascii_of_nat (48 + n) else ascii_of_nat (87 + n).

(** The text of one code unit inside a string literal. *)
Definition escape_char (c : ascii) : string :=
  let n := nat_of_ascii c in
  if (n =? 34)%nat then "\" ++ quote
  else if (n =? 92)%nat then "\\"
  else if (n =? 8)%nat then "\b"
  else if (n =? 12)%nat then "\f"
  else if (n =? 10)%nat then "\n"
  else if (n =? 13)%nat then "\r"
  else if (n =? 9)%nat then "\t"
  else if (n <? 32)%nat then
    "\u00" ++ String (hex_digit (n / 16))
                     (String (hex_digit (n mod 16)) EmptyString)
  else String c EmptyString.

Fixpoint escape (s : string) : string :=
  match s with
  | EmptyString => EmptyString
  | String c s' => escape_char c ++ escape s'
  end.

Definition quote_string (s : string) : string :=
  quote ++ escape s ++ quote.

(** Items separated by commas. *)
Fixpoint commas (l : list string) : string :=
  match l with
  | [] => EmptyString
  | [x] => x
  | x :: l' => x ++ "," ++ commas l'
  end.

Definition member (k v : string) : string := quote_string k ++ ":" ++ v.

Fixpoint stringify (j : json) : string :=
  match j with
  | JNull => "null"
  | JBool true => "true"
  | JBool false => "false"
  | JNum x => JSNumber.json_text x
  | JStr s => quote_string s
  | JArr items => "[" ++ commas (map stringify items) ++ "]"
  | JObj fields =>
      "{" ++ commas (map (fun kv => member (fst kv) (stringify (snd kv)))
                         fields)
          ++ "}"
  end.

(** ** [JSON.parse] *)

Definition is_ws (c : ascii) : bool :=
  match nat_of_ascii c with
  | 9%nat | 10%nat | 13%nat | 32%nat => true
  | _ => false
  end.

Fixpoint skip_ws (s : string) : string :=
  match s with
  | String c s' => if is_ws c then skip_ws s' else s
  | EmptyString => EmptyString
  end.

Definition is_digit (c : ascii) : bool :=
  let n := nat_of_ascii c in ((48 <=? n) && (n <=? 57))%nat.

Definition hex_value (c : ascii) : option nat :=
  let n := nat_of_ascii c in
  if ((48 <=? n) && (n <=? 57))%nat then Some (n - 48)%nat
  else if ((97 <=? n) && (n <=? 102))%nat then Some (n - 87)%nat
  else if ((65 <=? n) && (n <=? 70))%nat then Some (n - 55)%nat
  else None.

(** The code unit written [\uXXXX]; code units above 255 are outside the
    8-bit model of strings. *)
Definition unicode_escape (h3 h2 h1 h0 : ascii) : option ascii :=
  match hex_value h3, hex_value h2, hex_value h1, hex_value h0 with
  | Some 0%nat, Some 0%nat, Some a, Some b =>
      Some (ascii_of_nat (16 * a + b))
  | _, _, _, _ => None
  end.

Definition simple_escape (c : ascii) : option ascii :=
  match nat_of_ascii c with
  | 34%nat => Some "034"%char
  | 92%nat => Some "092"%char
  | 47%nat => Some "047"%char
  | 98%nat => Some "008"%char
  | 102%nat => Some "012"%char
  | 110%nat => Some "010"%char
  | 114%nat => Some "013"%char
  | 116%nat => Some "009"%char
  | _ => None
  end.

(** The rest of a string literal, after its opening quote: the string
    denoted and the text after the closing quote. *)
Fixpoint parse_chars (s : string) : option (string * string) :=
  match s with
  | EmptyString => None
  | String c s' =>
      if Ascii.eqb c "034" then Some (EmptyString, s')
      else if Ascii.eqb c "\" then
        match s' with
        | String "u" (String h3 (String h2 (String h1 (String h0 s'')))) =>
            match unicode_escape h3 h2 h1 h0, parse_chars s'' with
            | Some x, Some (t, rest) => Some (String x t, rest)
            | _, _ => None
            end
        | String e s'' =>
            match simple_escape e, parse_chars s'' with
            | Some x, Some (t, rest) => Some (String x t, rest)
            | _, _ => None
            end
        | EmptyString => None
        end
      else if (nat_of_ascii c <? 32)%nat then None
      else
        match parse_chars s' with
        | Some (t, rest) => Some (String c t, rest)
        | None => None
        end
  end.

(** The longest prefix of digits, and the rest. *)
Fixpoint span_digits (s : string) : string * string :=
  match s with
  | String c s' =>
      if is_digit c
      then let (d, rest) := span_digits s' in (String c d, rest)
      else (EmptyString, s)
  | EmptyString => (EmptyString, EmptyString)
  end.

(** A fraction or an exponent follows. *)
Definition starts_fraction (s : string) : bool :=
  match s with
  | String c _ => Ascii.eqb c "." || Ascii.eqb c "e" || Ascii.eqb c "E"
  | EmptyString => false
  end.

Definition has_leading_zero (digits : string) : bool :=
  match digits with
  | String c (String _ _) => Ascii.eqb c "0"
  | _ => false
  end.

Definition strip_minus (s : string) : bool * string :=
  match s with
  | String c s' => if Ascii.eqb c "-" then (true, s') else (false, s)
  | EmptyString => (false, s)
  end.

(** The fraction of a number literal: a point and digits, or nothing. *)
Definition parse_fraction (s : string) : option (string * string) :=
  match s with
  | String c s' =>
      if Ascii.eqb c "." then
        let (digits, rest) := span_digits s' in
        match digits with
        | EmptyString => None
        | String _ _ => Some (digits, rest)
        end
      else Some (EmptyString, s)
  | EmptyString => Some (EmptyString, s)
  end.

(** The value of a string of digits. *)
Definition digits_value (digits : string) : Z :=
  match NilEmpty.uint_of_string digits with
  | Some d => Z.of_uint d
  | None => 0
  end.

(** A sign, [+] or [-], or nothing. *)
Definition strip_sign (s : string) : bool * string :=
  match s with
  | String c s' =>
      if Ascii.eqb c "-" then (true, s')
      else if Ascii.eqb c "+" then (false, s')
      else (false, s)
  | EmptyString => (false, s)
  end.

(** The exponent of a number literal: [e] or [E], a sign and digits, or
    nothing (exponent zero). *)
Definition parse_exponent (s : string) : option (Z * string) :=
  match s with
  | String c s' =>
      if Ascii.eqb c "e" || Ascii.eqb c "E" then
        let (negative, s'') := strip_sign s' in
        let (digits, rest) := span_digits s'' in
        match digits with
        | EmptyString => None
        | String _ _ =>
            Some (if negative then - digits_value digits
                  else digits_value digits, rest)
        end
      else Some (0, s)
  | EmptyString => Some (0, s)
  end.

(** A number literal: a sign, an integer part without a leading zero, a
    fraction and an exponent; its value is the double nearest to the
    decimal it writes. *)
Definition parse_number (s : string) : option (number * string) :=
  let (negative, s1) := strip_minus s in
  let (int, s2) := span_digits s1 in
  match int with
  | EmptyString => None
  | String _ _ =>
      if has_leading_zero int then None
      else
        match parse_fraction s2 with
        | None => None
        | Some (frac, s3) =>
            match parse_exponent s3 with
            | None => None
            | Some (e, s4) =>
                Some (JSNumber.round_decimal negative
                        (digits_value (int ++ frac))
                        (e - Z.of_nat (String.length frac)),
                      s4)
            end
        end
  end.

(** [s] with the literal [lit] removed from its front. *)
Fixpoint expect (lit s : string) : option string :=
  match lit, s with
  | EmptyString, _ => Some s
  | String a lit', String b s' =>
      if Ascii.eqb a b then expect lit' s' else None
  | String _ _, EmptyString => None
  end.

(** The array index a property name writes: the canonical decimal text of
    an integer below [2^32 - 1]. *)
Definition array_index (k : string) : option Z :=
  match NilEmpty.uint_of_string k with
  | Some d =>
      let n := Z.of_uint d in
      if String.eqb (number_to_string n) k && (n <? 4294967295)
      then Some n else None
  | None => None
  end.

(** [k] is enumerated before [k']: array indices come first, in ascending
    order; other names keep the order in which they were added. *)
Definition enumerated_before (k k' : string) : bool :=
  match array_index k, array_index k' with
  | Some i, Some i' => i <? i'
  | Some _, None => true
  | None, _ => false
  end.

(** Assignment of a property, in enumeration order: a name that is there
    keeps its place and takes the new value; a new array index goes
    before the names enumerated after it; any other new name goes last. *)
Fixpoint obj_set (k : string) (v : json) (fields : list (string * json))
    : list (string * json) :=
  match fields with
  | [] => [(k, v)]
  | (k', v') :: fields' =>
      if String.eqb k' k then (k', v) :: fields'
      else if enumerated_before k k' then (k, v) :: fields
      else (k', v') :: obj_set k v fields'
  end.

Definition obj_of_members (members : list (string * json))
    : list (string * json) :=
  fold_left (fun acc kv => obj_set (fst kv) (snd kv) acc) members [].

(** The next character is [c]: the text after it. *)
Definition accept (c : ascii) (s : string) : option string :=
  match s with
  | String c' s' => if Ascii.eqb c' c then Some s' else None
  | EmptyString => None
  end.

(** Recursive descent; [fuel] bounds the nesting and the number of items
    read, and [parse] below gives enough of it for the whole text. *)
Fixpoint parse_value (fuel : nat) (s : string) : option (json * string) :=
  match fuel with
  | O => None
  | S fuel' =>
      match skip_ws s with
      | EmptyString => None
      | String c s' =>
          if is_digit c || Ascii.eqb c "-" then
            match parse_number (String c s') with
            | Some (n, rest) => Some (JNum n, rest)
            | None => None
            end
          else if Ascii.eqb c "034" then
            match parse_chars s' with
            | Some (t, rest) => Some (JStr t, rest)
            | None => None
            end
          else if Ascii.eqb c "[" then
            match accept "]" (skip_ws s') with
            | Some rest => Some (JArr [], rest)
            | None =>
                match parse_elements fuel' s' with
                | Some (items, rest) => Some (JArr items, rest)
                | None => None
                end
            end
          else if Ascii.eqb c "{" then
            match accept "}" (skip_ws s') with
            | Some rest => Some (JObj [], rest)
            | None =>
                match parse_members fuel' s' with
                | Some (members, rest) =>
                    Some (JObj (obj_of_members members), rest)
                | None => None
                end
            end
          else if Ascii.eqb c "n" then
            option_map (pair JNull) (expect "ull" s')
          else if Ascii.eqb c "t" then
            option_map (pair (JBool true)) (expect "rue" s')
          else if Ascii.eqb c "f" then
            option_map (pair (JBool false)) (expect "alse" s')
          else None
      end
  end

with parse_elements (fuel : nat) (s : string)
    : option (list json * string) :=
  match fuel with
  | O => None
  | S fuel' =>
      match parse_value fuel' s with
      | Some (v, rest) =>
          match accept "," (skip_ws rest) with
          | Some rest' =>
              match parse_elements fuel' rest' with
              | Some (vs, rest'') => Some (v :: vs, rest'')
              | None => None
              end
          | None =>
              match accept "]" (skip_ws rest) with
              | Some rest' => Some ([v], rest')
              | None => None
              end
          end
      | None => None
      end
  end

with parse_members (fuel : nat) (s : string)
    : option (list (string * json) * string) :=
  match fuel with
  | O => None
  | S fuel' =>
      match accept "034" (skip_ws s) with
      | Some s1 =>
          match parse_chars s1 with
          | Some (k, s2) =>
              match accept ":" (skip_ws s2) with
              | Some s3 =>
                  match parse_value fuel' s3 with
                  | Some (v, rest) =>
                      match accept "," (skip_ws rest) with
                      | Some rest' =>
                          match parse_members fuel' rest' with
                          | Some (ms, rest'') => Some ((k, v) :: ms, rest'')
                          | None => None
                          end
                      | None =>
                          match accept "}" (skip_ws rest) with
                          | Some rest' => Some ([(k, v)], rest')
                          | None => None
                          end
                      end
                  | None => None
                  end
              | None => None
              end
          | None => None
          end
      | None => None
      end
  end.

(** [JSON.parse]: one value, white space around it, nothing else. *)
Definition parse (text : string) : result json :=
  match parse_value (S (String.length text)) text with
  | Some (j, rest) =>
      match skip_ws rest with
      | EmptyString => Ok j
      | String _ _ => Err SyntaxError
      end
  | None => Err SyntaxError
  end.

End JSON.

(* ===================================================================== *)
(** * The configuration as a JavaScript value                             *)
(* ===================================================================== *)

(** An optional property: present when the field holds a value. *)
Definition optional {A : Type} (name : string) (f : A -> json)
    (o : option A) : list (string * json) :=
  match o with
  | Some a => [(name, f a)]
  | None => []
  end.

Definition json_of_kv (kv : SampleTargetingKV) : json :=
  JObj [("key", JStr (key kv)); ("value", json_of_value (value kv))].

Definition json_of_targeting (l : list SampleTargetingKV) : json :=
  JArr (map json_of_kv l).

Definition json_of_privacy (p : SamplePrivacyConfig) : json :=
  JObj (optional "ltd" JBool (ltd p) ++ optional "npa" JBool (npa p)
        ++ optional "rdp" JBool (rdp p) ++ optional "tfcd" JBool (tfcd p)
        ++ optional "tfua" JBool (tfua p))%list.

Definition json_of_page (p : SamplePageConfig) : json :=
  JObj (optional "privacy" json_of_privacy (privacy p)
        ++ optional "sra" JBool (sra p)
        ++ optional "targeting" json_of_targeting (page_targeting p))%list.

Definition json_of_slot (s : SampleSlotConfig) : json :=
  JObj ([("adUnit", JStr (adUnit s))]
        ++ optional "format" JStr (format s)
        ++ [("size", json_of_size (size s))]
        ++ optional "targeting" json_of_targeting (targeting s))%list.

Definition json_of_enum (e : EnumValue) : json :=
  match e with
  | EnumNumber n => JNum n
  | EnumString s => JStr s
  end.

Definition json_of_template (t : SampleTemplateConfig) : json :=
  JObj (optional "type" json_of_enum (type t)
        ++ optional "target" (fun n : Z => JNum n) (target t))%list.

(** The object graph of a configuration, read through the store. *)
Definition json_of_config (st : store) (config : SampleConfig) : json :=
  JObj (optional "page" json_of_page (page config)
        ++ [("slots", JArr (map (fun r => json_of_slot (st r))
                                (slots config)))]
        ++ optional "template" json_of_template (template config))%list.

(* ===================================================================== *)
(** * Entry point: the configuration in the URL hash                      *)
(* ===================================================================== *)

Section EntryPoint.

(** [base64url.decode] and [JSON.parse], used as given. *)
Variable base64url_decode : string -> result string.
Variable JSON_parse : string -> result json.

(** [configParam ? JSON.parse(base64url.decode(configParam)) : {slots: []}]
    where [configParam] is what [urlHash.getParameter('config')]
    returned: the parameter's text, or nothing. *)
Definition config_of_param (configParam : option string) : result json :=
  match configParam with
  | Some p =>
      if truthy (Some p) then
        text <- base64url_decode p ;;
        JSON_parse text
      else
        Ok (JObj [("slots", JArr [])])
  | None => Ok (JObj [("slots", JArr [])])
  end.

End EntryPoint.

(** Modelled from the spec: the serializer of the configuration for the
    URL hash is not among the sources; the spec describes it as "base64url
    + JSON": the base64url text of the JSON text of the configuration. *)
Definition param_of_config (config : json) : string :=
  Base64url.encode (JSON.stringify config).

(** The entry point with the decoder and parser modelled above. *)
Definition load_config (configParam : option string) : result json :=
  config_of_param Base64url.decode JSON.parse configParam.

(** The property names of a JavaScript object, as it enumerates them: no
    name comes twice, and none comes after a name that is enumerated
    after it. *)
Fixpoint enumeration (l : list string) : bool :=
  match l with
  | [] => true
  | k :: l' =>
      forallb (fun k' => negb (String.eqb k k')
                         && negb (JSON.enumerated_before k' k)) l'
      && enumeration l'
  end.

(** A number that [JSON.parse] reads back from the text that
    [JSON.stringify] prints for it.  [NaN] and the infinities, printed as
    [null], and negative zero, printed as [0], are not. *)
Definition number_reads_back (x : number) : bool :=
  match JSON.parse_number (JSNumber.json_text x) with
  | Some (y, EmptyString) => JSNumber.eqb y x
  | _ => false
  end.

(** Every number of the value reads back. *)
Fixpoint numbers_read_back (j : json) : bool :=
  match j with
  | JNum x => number_reads_back x
  | JArr items => forallb numbers_read_back items
  | JObj fields => forallb (fun kv => numbers_read_back (snd kv)) fields
  | _ => true
  end.

(** The objects of the value list their properties in enumeration
    order. *)
Fixpoint objects_enumerated (j : json) : bool :=
  match j with
  | JArr items => forallb objects_enumerated items
  | JObj fields =>
      enumeration (map fst fields)
      && forallb (fun kv => objects_enumerated (snd kv)) fields
  | _ => true
  end.

(** Every number of the value is a finite double other than negative
    zero. *)
Fixpoint json_numbers (j : json) : bool :=
  match j with
  | JNum x => JSNumber.json_number x
  | JArr items => forallb json_numbers items
  | JObj fields => forallb (fun kv => json_numbers (snd kv)) fields
  | _ => true
  end.

Definition well_formed (j : json) : bool :=
  objects_enumerated j && json_numbers j.

(** The numbers a configuration holds: the widths and heights of the
    sizes of its slots, and the numeric members of the enumerations of
    its template. *)
Definition size_numbers (s : SingleSize) : list number :=
  match s with
  | SizeArray w h => [w; h]
  | _ => []
  end.

Definition general_size_numbers (s : GeneralSize) : list number :=
  match s with
  | OneSize x => size_numbers x
  | MultiSize l => flat_map size_numbers l
  end.

Definition template_numbers (t : SampleTemplateConfig) : list number :=
  (match type t with
   | Some (EnumNumber n) => [Integer n]
   | _ => []
   end
   ++ match target t with
      | Some n => [Integer n]
      | None => []
      end)%list.

Definition config_numbers (st : store) (config : SampleConfig)
    : list number :=
  (flat_map (fun r => general_size_numbers (size (st r))) (slots config)
   ++ match template config with
      | Some t => template_numbers t
      | None => []
      end)%list.

(* ===================================================================== *)
(** * Specification vocabulary                                            *)
(* ===================================================================== *)

(** [b^e] for an exponent of either sign: [pow_num b e / pow_den b e]. *)
Definition pow_num (b e : Z) : Z := b ^ Z.max 0 e.

Definition pow_den (b e : Z) : Z := b ^ Z.max 0 (- e).

(** [b^e <= p/q < b^(e+1)] *)
Definition in_interval (b p q e : Z) : Prop :=
  q * pow_num b e <= p * pow_den b e
  /\ p * pow_den b (e + 1) < q * pow_num b (e + 1).

(** Concatenation of fragments in list order. *)
Definition join (l : list string) : string :=
  fold_right append EmptyString l.

(** A slot counts as out-of-page when its [format] is truthy. *)
Definition out_of_page (st : store) (r : ref) : bool :=
  truthy (format (st r)).

(** What [sanitizeJs] makes of a targeting entry and of a targeting list. *)
Definition sanitized_kv (sanitizeJs : json -> string) (kv : SampleTargetingKV)
    : string * string :=
  (sanitizeJs (JStr (key kv)), sanitizeJs (json_of_value (value kv))).

Definition sanitized_targeting (sanitizeJs : json -> string)
    (t : option (list SampleTargetingKV)) : option (list (string * string)) :=
  option_map (map (sanitized_kv sanitizeJs)) t.

(** Two slots that [sanitizeJs] cannot tell apart: same sanitized ad unit
    path, size, targeting keys and values, and the same format. *)
Definition same_sanitized (sanitizeJs : json -> string)
    (s s' : SampleSlotConfig) : Prop :=
  sanitizeJs (JStr (adUnit s)) = sanitizeJs (JStr (adUnit s'))
  /\ sanitizeJs (json_of_size (size s))
     = sanitizeJs (json_of_size (size s'))
  /\ sanitized_targeting sanitizeJs (targeting s)
     = sanitized_targeting sanitizeJs (targeting s')
  /\ format s = format s'.

(** Two slot arguments that are equal as inputs: they sit at the same
    position of their configuration's slot list (or in neither list) and
    denote equal slot objects. *)
Definition same_slot (st st' : store) (c c' : SampleConfig)
    (v v' : slotval) : Prop :=
  indexOf (slots c) v = indexOf (slots c') v'
  /\ match v, v' with
     | object r, object r' => st r = st' r'
     | undefined, undefined => True
     | _, _ => False
     end.

(** Two configurations that are equal as inputs: equal page and template
    settings, and slot lists that hold equal slots at equal positions,
    with the same sharing of slot objects. *)
Definition same_config (st st' : store) (c c' : SampleConfig) : Prop :=
  page c = page c'
  /\ template c = template c'
  /\ Forall2 (fun r r' => same_slot st st' c c' (object r) (object r'))
             (slots c) (slots c').

(** What may follow an integer literal: not a digit, and not the start of
    a fraction or of an exponent. *)
Definition ends_number (rest : string) : bool :=
  match rest with
  | EmptyString => true
  | String c _ => negb (JSON.is_digit c) && negb (JSON.starts_fraction rest)
  end.

(** The statement of C1 for one configuration: one slot of the list is
    displayed under single request architecture, and otherwise the
    fragments of all slots, in list order. *)
Definition displayAll_claim (st : store) (config : SampleConfig) : Prop :=
  (sra_enabled config = true ->
     exists r f, In r (slots config)
                 /\ Googletag.display st config (object r) = Ok f
                 /\ Googletag.displayAll st config = Ok f)
  /\
  (sra_enabled config = false ->
     exists frags,
       Forall2 (fun r f => Googletag.display st config (object r) = Ok f)
               (slots config) frags
       /\ Googletag.displayAll st config = Ok (join frags)).

(** Fuel that [JSON.parse_value] needs to read back a value: one unit
    for the value and one more for each item of an array or object. *)
Fixpoint json_size (j : json) : nat :=
  match j with
  | JArr items => S (fold_right (fun x n => S (json_size x + n)) 0%nat items)
  | JObj fields =>
      S (fold_right (fun kv n => S (json_size (snd kv) + n)) 0%nat fields)
  | _ => 1%nat
  end.

(** The statement of C7 for one text of the [config] parameter: when the
    decoded text is not valid JSON, initialization fails with the error
    of [JSON.parse]. *)
Definition propagates_parse_failure (configParam : string) : Prop :=
  forall text e,
    Base64url.decode configParam = Ok text ->
    JSON.parse text = Err e ->
    load_config (Some configParam) = Err e.

(** The statement of C2 for one configuration: the entry point reads the
    configuration back from the parameter made from it. *)
Definition round_trips (st : store) (config : SampleConfig) : Prop :=
  load_config (Some (param_of_config (json_of_config st config)))
  = Ok (json_of_config st config).

(** The parser reads a printed value back, whatever follows it: the
    statement proved by induction on the value. *)
Definition reads_back (j : json) : Prop :=
  forall fuel rest,
    (json_size j <= fuel)%nat ->
    ends_number rest = true ->
    objects_enumerated j = true ->
    numbers_read_back j = true ->
    JSON.parse_value fuel (JSON.stringify j ++ rest) = Some (j, rest).

(* ===================================================================== *)
(** * Sample configurations                                               *)
(* ===================================================================== *)

Definition static_slot : SampleSlotConfig :=
  {| adUnit := "/6355419/Travel/Europe";
     format := None;
     size := OneSize (SizeArray 300 250);
     targeting :=
       Some [ {| key := "color"; value := SingleValue "red" |};
              {| key := "position"; value := MultiValue ["atf"; "top"] |} ] |}.

Definition interstitial_slot : SampleSlotConfig :=
  {| adUnit := "/6355419/Travel/Europe";
     format := Some "INTERSTITIAL";
     size := MultiSize [];
     targeting := None |}.

Definition anchor_slot : SampleSlotConfig :=
  {| adUnit := "/6355419/Travel";
     format := Some "TOP_ANCHOR";
     size := MultiSize [];
     targeting := None |}.

(** Object 0 is the static slot, object 1 the interstitial, every other
    object a top anchor. *)
Definition sample_store : store :=
  fun r =>
    match r with
    | 0%nat => static_slot
    | 1%nat => interstitial_slot
    | _ => anchor_slot
    end.

(** The same objects at other addresses. *)
Definition moved_store : store :=
  fun r =>
    match r with
    | 10%nat => static_slot
    | 11%nat => interstitial_slot
    | _ => anchor_slot
    end.

Definition sra_page : SamplePageConfig :=
  {| privacy := None; sra := Some true; page_targeting := None |}.

Definition sample_config : SampleConfig :=
  {| page := Some sra_page; slots := [1%nat; 0%nat; 2%nat];
     template := None |}.

Definition moved_config : SampleConfig :=
  {| page := Some sra_page; slots := [11%nat; 10%nat; 12%nat];
     template := None |}.

Definition plain_config : SampleConfig :=
  {| page := None; slots := [1%nat; 0%nat; 2%nat]; template := None |}.

Definition out_of_page_config : SampleConfig :=
  {| page := Some sra_page; slots := [1%nat; 2%nat]; template := None |}.

(** Single request architecture with no slot. *)
Definition empty_sra_config : SampleConfig :=
  {| page := Some sra_page; slots := []; template := None |}.

Definition sample_sanitizeJs (v : json) : string :=
  match v with
  | JStr s => "'" ++ s ++ "'"
  | _ => JSON.stringify v
  end.

Definition sample_formatNames (k : string) : option string :=
  if String.eqb k "INTERSTITIAL" then Some "Interstitial"
  else if String.eqb k "TOP_ANCHOR" then Some "Top anchor"
  else None.

Definition sample_addEventListener (type listener : string) : string :=
  "googletag.pubads().addEventListener('" ++ type ++ "', (event) => {"
    ++ listener ++ "});".

(** A slot list that holds object 2 twice. *)
Definition shared_config : SampleConfig :=
  {| page := None; slots := [2%nat; 0%nat; 2%nat]; template := None |}.

(** A slot whose targeting list is present and empty. *)
Definition untargeted_slot : SampleSlotConfig :=
  {| adUnit := "/6355419/Travel";
     format := None;
     size := OneSize Fluid;
     targeting := Some [] |}.

(** No page settings and no slot: the default configuration. *)
Definition empty_config : SampleConfig :=
  {| page := None; slots := []; template := None |}.

(** The sample store with other ad units, sizes and targeting, and the
    same formats. *)
Definition restyled_store : store :=
  fun r =>
    match r with
    | 0%nat =>
        {| adUnit := "/1/home"; format := None;
           size := OneSize Fluid; targeting := None |}
    | _ =>
        {| adUnit := "/1/home"; format := Some "REWARDED";
           size := MultiSize []; targeting := None |}
    end.

(** A slot of width [w] and height 250. *)
Definition sized_slot (w : number) : SampleSlotConfig :=
  {| adUnit := "/6355419/Travel";
     format := None;
     size := OneSize (SizeArray w 250);
     targeting := None |}.

Definition sized_store (w : number) : store := fun _ => sized_slot w.

Definition one_slot_config : SampleConfig :=
  {| page := None; slots := [0%nat]; template := None |}.

(** [{"7": true, "slots": [0.5, 1e+21, 5e-324, 728]}] *)
Definition fractional_value : json :=
  JObj [("7", JBool true);
        ("slots", JArr [JNum (Fraction 1 1); JNum (10 ^ 21);
                        JNum (Fraction 1 1074);
                        JNum 728])].

(* ===================================================================== *)
(** * Vocabulary of the generated display code                            *)
(* ===================================================================== *)

(** The display code of the slot named by the number [n]: by element id
    for a static slot, guarded by the slot variable for an out-of-page
    slot. *)
Definition display_code (oop : bool) (n : Z) : string :=
  if oop
  then "if (slot" ++ number_to_string n ++ ") { googletag.display(slot"
         ++ number_to_string n ++ "); }"
  else "googletag.display('slot" ++ number_to_string n ++ "');".

(** The display code of the slots of [l], named by their positions
    counted from [k + 1]. *)
Fixpoint display_codes (st : store) (l : list ref) (k : nat) : list string :=
  match l with
  | [] => []
  | r :: l' =>
      display_code (out_of_page st r) (Z.of_nat k + 1)
        :: display_codes st l' (S k)
  end.

(** Every character is a decimal digit. *)
Definition all_digits (s : string) : bool :=
  forallb JSON.is_digit (list_ascii_of_string s).


(* ===================================================================== *)
(** * Strings and numbers                                                 *)
(* ===================================================================== *)

Lemma append_assoc (a b c : string) : (a ++ b) ++ c = a ++ (b ++ c).
Proof.
  induction a as [|x a IH]; simpl; [reflexivity|].
  now rewrite IH.
Qed.

Lemma append_empty_r (a : string) : a ++ EmptyString = a.
Proof.
  induction a as [|x a IH]; simpl; [reflexivity|].
  now rewrite IH.
Qed.

Lemma append_inv_head (a b c : string) : a ++ b = a ++ c -> b = c.
Proof.
  induction a as [|x a IH]; simpl; intros H; [exact H|].
  injection H as H. now apply IH.
Qed.

Lemma to_int_proper (n : Z) : Z.to_int n <> Pos Nil /\ Z.to_int n <> Neg Nil.
Proof.
  destruct n as [|p|p]; simpl; split; try discriminate;
    intros [= H]; now apply (DecimalPos.Unsigned.to_uint_nonnil p).
Qed.

Lemma number_to_string_inj (a b : Z) :
  number_to_string a = number_to_string b -> a = b.
Proof.
  unfold number_to_string. intros H.
  apply DecimalZ.to_int_inj.
  destruct (to_int_proper a) as [Ha1 Ha2].
  destruct (to_int_proper b) as [Hb1 Hb2].
  pose proof (NilZero.isi _ Ha1 Ha2) as Ia.
  pose proof (NilZero.isi _ Hb1 Hb2) as Ib.
  rewrite H in Ia. rewrite Ia in Ib. now injection Ib.
Qed.

(* ===================================================================== *)
(** * Array searches                                                      *)
(* ===================================================================== *)

Lemma indexOf_from_undefined (l : list ref) (i : Z) :
  indexOf_from l undefined i = -1.
Proof.
  revert i. induction l as [|x l IH]; intros i; simpl; [reflexivity|].
  apply IH.
Qed.

Lemma indexOf_from_absent (l : list ref) (r : ref) (i : Z) :
  ~ In r l -> indexOf_from l (object r) i = -1.
Proof.
  revert i. induction l as [|x l IH]; intros i Hin; simpl; [reflexivity|].
  destruct (Nat.eqb_spec x r) as [->|Hne].
  - exfalso. apply Hin. now left.
  - apply IH. intros H. apply Hin. now right.
Qed.

Lemma indexOf_from_nth (l : list ref) (r : ref) (n : nat) (i : Z) :
  NoDup l -> nth_error l n = Some r ->
  indexOf_from l (object r) i = i + Z.of_nat n.
Proof.
  revert n i. induction l as [|x l IH]; intros n i Hnd Hn.
  - destruct n; discriminate.
  - inversion Hnd as [|? ? Hx Hl]; subst. simpl.
    destruct n as [|n]; simpl in Hn.
    + injection Hn as ->. rewrite Nat.eqb_refl. lia.
    + destruct (Nat.eqb_spec x r) as [->|Hne].
      * exfalso. apply Hx. eapply nth_error_In; eauto.
      * rewrite (IH n (i + 1) Hl Hn). lia.
Qed.

Lemma indexOf_from_range (l : list ref) (v : slotval) (i : Z) :
  indexOf_from l v i = -1 \/
  i <= indexOf_from l v i < i + array_length l.
Proof.
  revert i. induction l as [|x l IH]; intros i; simpl; [now left|].
  unfold array_length. simpl List.length.
  destruct (strict_eq x v).
  - right. lia.
  - destruct (IH (i + 1)) as [H|H]; [now left|right].
    unfold array_length in H. lia.
Qed.

(** [findIndex] returns the first position whose element satisfies the
    predicate. *)
Lemma findIndex_from_first (p : ref -> bool) (l1 l2 : list ref) (r : ref)
    (i : Z) :
  (forall x, In x l1 -> p x = false) -> p r = true ->
  findIndex_from p (l1 ++ r :: l2) i = i + Z.of_nat (List.length l1).
Proof.
  revert i. induction l1 as [|x l1 IH]; intros i Hl1 Hr; simpl.
  - rewrite Hr. lia.
  - rewrite (Hl1 x (or_introl eq_refl)).
    rewrite IH; [lia | | exact Hr].
    intros y Hy. apply Hl1. now right.
Qed.

Lemma findIndex_from_none (p : ref -> bool) (l : list ref) (i : Z) :
  (forall x, In x l -> p x = false) -> findIndex_from p l i = -1.
Proof.
  revert i. induction l as [|x l IH]; intros i Hl; simpl; [reflexivity|].
  rewrite (Hl x (or_introl eq_refl)). apply IH.
  intros y Hy. apply Hl. now right.
Qed.

Lemma findIndex_from_range (p : ref -> bool) (l : list ref) (i : Z) :
  findIndex_from p l i = -1 \/
  i <= findIndex_from p l i < i + array_length l.
Proof.
  revert i. induction l as [|x l IH]; intros i; simpl; [now left|].
  unfold array_length. simpl List.length.
  destruct (p x).
  - right. lia.
  - destruct (IH (i + 1)) as [H|H]; [now left|right].
    unfold array_length in H. lia.
Qed.

Lemma array_get_nth (l : list ref) (n : nat) :
  array_get l (Z.of_nat n) =
  match nth_error l n with Some r => object r | None => undefined end.
Proof.
  unfold array_get.
  destruct (Z.ltb_spec (Z.of_nat n) 0) as [H|H]; [lia|].
  now rewrite Nat2Z.id.
Qed.

Lemma array_get_middle (l1 l2 : list ref) (r : ref) :
  array_get (l1 ++ r :: l2) (Z.of_nat (List.length l1)) = object r.
Proof.
  rewrite array_get_nth, nth_error_app2 by lia.
  now rewrite Nat.sub_diag.
Qed.

Lemma array_get_in_range (l : list ref) (i : Z) :
  0 <= i < array_length l -> exists r, array_get l i = object r /\ In r l.
Proof.
  unfold array_length. intros Hi.
  rewrite <- (Z2Nat.id i) by lia. rewrite array_get_nth.
  destruct (nth_error l (Z.to_nat i)) as [r|] eqn:E.
  - exists r. split; [reflexivity|]. eapply nth_error_In; eauto.
  - apply nth_error_None in E. lia.
Qed.

(* ===================================================================== *)
(** * Slot identifiers                                                    *)
(* ===================================================================== *)

Import Googletag.

Lemma getSlotIdentifer_inj (config : SampleConfig) (v w : slotval) :
  getSlotIdentifer config v = getSlotIdentifer config w ->
  indexOf (slots config) v = indexOf (slots config) w.
Proof.
  unfold getSlotIdentifer. intros H.
  apply append_inv_head, number_to_string_inj in H. lia.
Qed.

(** C8.  In a configuration whose slot list holds pairwise distinct slot
    objects, the slot at zero-based position [i] is named ["slot"]
    followed by [i + 1], so two different positions receive two different
    identifiers; a slot object that is not in the list is named
    ["slot0"], whatever the list. *)
Theorem getSlotIdentifer_by_position (config : SampleConfig) :
  (NoDup (slots config) ->
     (forall (i : nat) (r : ref),
        nth_error (slots config) i = Some r ->
        getSlotIdentifer config (object r)
        = "slot" ++ number_to_string (Z.of_nat i + 1))
     /\
     (forall (i j : nat) (ri rj : ref),
        nth_error (slots config) i = Some ri ->
        nth_error (slots config) j = Some rj ->
        i <> j ->
        getSlotIdentifer config (object ri)
        <> getSlotIdentifer config (object rj)))
  /\
  (forall r : ref,
     ~ In r (slots config) -> getSlotIdentifer config (object r) = "slot0").
Proof.
  split.
  - intros Hnd.
    assert (Hpos : forall i r, nth_error (slots config) i = Some r ->
                   indexOf (slots config) (object r) = Z.of_nat i).
    { intros i r Hi. unfold indexOf.
      rewrite (indexOf_from_nth _ _ _ 0 Hnd Hi). lia. }
    split.
    + intros i r Hi. unfold getSlotIdentifer. now rewrite (Hpos i r Hi).
    + intros i j ri rj Hi Hj Hij Heq.
      apply getSlotIdentifer_inj in Heq.
      rewrite (Hpos i ri Hi), (Hpos j rj Hj) in Heq. lia.
  - intros r Hr. unfold getSlotIdentifer, indexOf.
    now rewrite indexOf_from_absent.
Qed.

(* ===================================================================== *)
(** * Display of one slot and of all slots                                *)
(* ===================================================================== *)

Lemma display_object (st : store) (config : SampleConfig) (r : ref) :
  exists f, display st config (object r) = Ok f.
Proof. unfold display. simpl. eauto. Qed.

Lemma display_undefined (st : store) (config : SampleConfig) :
  display st config undefined = Err TypeError.
Proof. reflexivity. Qed.

Lemma display_each_cons (st : store) (config : SampleConfig) (r : ref)
    (l : list ref) (acc : string) :
  display_each st config (r :: l) acc =
  (d <- display st config (object r) ;; display_each st config l (acc ++ d)).
Proof.
  unfold display_each. cbn [fold_left bind].
  destruct (display_object st config r) as [f Hf]. now rewrite Hf.
Qed.

Lemma display_each_app (st : store) (config : SampleConfig) (l : list ref)
    (frags : list string) (acc : string) :
  Forall2 (fun r f => display st config (object r) = Ok f) l frags ->
  display_each st config l acc = Ok (acc ++ join frags).
Proof.
  intros H. revert acc.
  induction H as [|r f l frags Hr _ IH]; intros acc.
  - simpl. now rewrite append_empty_r.
  - rewrite display_each_cons, Hr. simpl bind. rewrite IH. simpl join.
    now rewrite append_assoc.
Qed.

Lemma display_fragments (st : store) (config : SampleConfig) (l : list ref) :
  exists frags,
    Forall2 (fun r f => display st config (object r) = Ok f) l frags.
Proof.
  induction l as [|r l [frags IH]].
  - exists []. constructor.
  - destruct (display_object st config r) as [f Hf].
    exists (f :: frags). now constructor.
Qed.

(** A slot is not out-of-page when it has no format, or an empty one
    (which the type of [format] excludes). *)
Lemma out_of_page_false (st : store) (r : ref) :
  out_of_page st r = false
  <-> format (st r) = None \/ format (st r) = Some EmptyString.
Proof.
  unfold out_of_page, truthy.
  destruct (format (st r)) as [[|c k]|]; split; intros H;
    try discriminate; auto; destruct H; discriminate.
Qed.

Lemma sra_index_first (st : store) (config : SampleConfig)
    (l1 l2 : list ref) (r : ref) :
  slots config = (l1 ++ r :: l2)%list ->
  (forall x, In x l1 -> out_of_page st x = true) ->
  out_of_page st r = false ->
  sra_index st config = Z.of_nat (List.length l1).
Proof.
  intros Hs Hl1 Hr. unfold sra_index, findIndex. rewrite Hs.
  rewrite findIndex_from_first.
  - destruct (Z.eqb_spec (0 + Z.of_nat (List.length l1)) (-1)); lia.
  - intros x Hx. unfold out_of_page in Hl1. now rewrite Hl1.
  - unfold out_of_page in Hr. now rewrite Hr.
Qed.

Lemma sra_index_last (st : store) (config : SampleConfig) :
  (forall x, In x (slots config) -> out_of_page st x = true) ->
  sra_index st config = array_length (slots config) - 1.
Proof.
  intros Hall. unfold sra_index, findIndex.
  rewrite findIndex_from_none; [reflexivity|].
  intros x Hx. unfold out_of_page in Hall. now rewrite Hall.
Qed.

Lemma sra_index_bounds (st : store) (config : SampleConfig) :
  slots config <> [] ->
  0 <= sra_index st config < array_length (slots config).
Proof.
  intros Hne. unfold sra_index, findIndex.
  assert (Hlen : 0 < array_length (slots config)).
  { unfold array_length. destruct (slots config); [congruence|].
    simpl List.length. lia. }
  match goal with |- context [findIndex_from ?p ?l 0] =>
    destruct (findIndex_from_range p l 0) as [H|H]; rewrite ?H
  end.
  - simpl. lia.
  - match goal with |- context [?a =? -1] =>
      destruct (Z.eqb_spec a (-1)); lia
    end.
Qed.

(** C10.  When the slot list is not empty, the index computed in the
    single-request branch lies within the list, the element read there is
    a slot object and [displayAll] returns normally.  The empty list is
    the only one for which the index, -1 turned into [length - 1], lies
    outside: the index is then -1, the element read is [undefined] and
    [display] raises a [TypeError]. *)
Theorem sra_index_in_bounds (st : store) (config : SampleConfig) :
  (slots config <> [] ->
     0 <= sra_index st config < array_length (slots config)
     /\ (exists r, array_get (slots config) (sra_index st config) = object r
                   /\ In r (slots config))
     /\ (sra_enabled config = true ->
         exists code, displayAll st config = Ok code))
  /\
  (~ (0 <= sra_index st config < array_length (slots config))
     <-> slots config = [])
  /\
  (slots config = [] ->
     sra_index st config = -1
     /\ array_get (slots config) (sra_index st config) = undefined
     /\ (sra_enabled config = true ->
         displayAll st config = Err TypeError)).
Proof.
  split; [|split].
  - intros Hne. pose proof (sra_index_bounds st config Hne) as Hb.
    split; [exact Hb|].
    destruct (array_get_in_range _ _ Hb) as [r [Hr Hin]].
    split; [now exists r|].
    intros Hsra. unfold displayAll. rewrite Hsra, Hr.
    apply display_object.
  - split.
    + intros Hout. destruct (slots config) as [|x l] eqn:E; [reflexivity|].
      exfalso. apply Hout. rewrite <- E. apply sra_index_bounds.
      rewrite E. discriminate.
    + intros E. unfold sra_index. rewrite E. simpl. lia.
  - intros E. unfold displayAll, sra_index. rewrite E. simpl.
    repeat split. intros ->. reflexivity.
Qed.

(** C9.  With single request architecture on, [displayAll] is the display
    code of the first slot of the list that is not out-of-page; when every
    slot of a non-empty list is out-of-page, it is the display code of the
    last one. *)
Theorem displayAll_sra_prefers_static (st : store) (config : SampleConfig) :
  sra_enabled config = true ->
  (forall (l1 l2 : list ref) (r : ref),
     slots config = (l1 ++ r :: l2)%list ->
     (forall x, In x l1 -> out_of_page st x = true) ->
     out_of_page st r = false ->
     displayAll st config = display st config (object r))
  /\
  (forall (l : list ref) (r : ref),
     slots config = (l ++ [r])%list ->
     (forall x, In x (slots config) -> out_of_page st x = true) ->
     displayAll st config = display st config (object r)).
Proof.
  intros Hsra. split.
  - intros l1 l2 r Hs Hl1 Hr. unfold displayAll. rewrite Hsra.
    rewrite (sra_index_first st config l1 l2 r Hs Hl1 Hr).
    now rewrite Hs, array_get_middle.
  - intros l r Hs Hall. unfold displayAll. rewrite Hsra.
    rewrite (sra_index_last st config Hall).
    rewrite Hs. unfold array_length. rewrite length_app. simpl List.length.
    replace (Z.of_nat (List.length l + 1) - 1) with (Z.of_nat (List.length l)) by lia.
    now rewrite array_get_middle.
Qed.

(** C1, amended.  Under single request architecture and with a non-empty
    slot list, [displayAll] is the display code of exactly one slot of the
    list; with the flag absent or false it is the concatenation, in list
    order, of the display fragments of all slots. *)
Theorem displayAll_one_or_all (st : store) (config : SampleConfig) :
  (sra_enabled config = true -> slots config <> [] ->
     exists r f, In r (slots config)
                 /\ display st config (object r) = Ok f
                 /\ displayAll st config = Ok f)
  /\
  (sra_enabled config = false ->
     exists frags,
       Forall2 (fun r f => display st config (object r) = Ok f)
               (slots config) frags
       /\ displayAll st config = Ok (join frags)).
Proof.
  split.
  - intros Hsra Hne.
    destruct (array_get_in_range _ _ (sra_index_bounds st config Hne))
      as [r [Hr Hin]].
    destruct (display_object st config r) as [f Hf].
    exists r, f. repeat split; try assumption.
    unfold displayAll. now rewrite Hsra, Hr.
  - intros Hsra. destruct (display_fragments st config (slots config))
      as [frags Hfr].
    exists frags. split; [exact Hfr|].
    unfold displayAll. rewrite Hsra.
    now rewrite (display_each_app _ _ _ _ _ Hfr).
Qed.

(* ===================================================================== *)
(** * Inline slot settings                                                *)
(* ===================================================================== *)

Section SlotSettings.

Variable sanitizeJs : json -> string.

Lemma fold_setTargeting (kvs : list SampleTargetingKV) (acc : string) :
  fold_left (fun a kv => a ++ "." ++ Slot.api_setTargeting sanitizeJs kv)
            kvs acc
  = acc ++ join (map (fun kv => "." ++ Slot.api_setTargeting sanitizeJs kv)
                     kvs).
Proof.
  revert acc. induction kvs as [|kv kvs IH]; intros acc; simpl.
  - now rewrite append_empty_r.
  - rewrite IH. now rewrite append_assoc.
Qed.

(** C6.  [addInlineSlotSettings] returns the definition, then one chained
    [.setTargeting(key, value)] call per entry of the slot's targeting
    list, in list order, then [.addService(googletag.pubads());]; without
    a targeting list only the [addService] call follows the definition.
    [defineSlot] applies it to the [googletag.defineSlot(...)!] call. *)
Theorem addInlineSlotSettings_chain (config : SampleSlotConfig)
    (slotDefinition : string) :
  Slot.addInlineSlotSettings sanitizeJs config slotDefinition
  = slotDefinition
      ++ join (map (fun kv =>
                      ".setTargeting(" ++ sanitizeJs (JStr (key kv)) ++ ", "
                        ++ sanitizeJs (json_of_value (value kv)) ++ ")")
                   (match targeting config with
                    | Some kvs => kvs
                    | None => []
                    end))
      ++ ".addService(googletag.pubads());"
  /\
  (targeting config = None ->
   Slot.addInlineSlotSettings sanitizeJs config slotDefinition
   = slotDefinition ++ ".addService(googletag.pubads());")
  /\
  (forall st cfg r,
     defineSlot sanitizeJs st cfg r
     = Slot.addInlineSlotSettings sanitizeJs (st r)
         ("googletag.defineSlot(" ++ sanitizeJs (JStr (adUnit (st r)))
            ++ ", " ++ sanitizeJs (json_of_size (size (st r))) ++ ", '"
            ++ getSlotIdentifer cfg (object r) ++ "')!")).
Proof.
  unfold Slot.addInlineSlotSettings, Slot.append_targeting.
  split; [|split].
  - destruct (targeting config) as [kvs|].
    + rewrite fold_setTargeting, append_assoc. reflexivity.
    + reflexivity.
  - intros ->. reflexivity.
  - intros st cfg r. unfold defineSlot, api_defineSlot.
    unfold Slot.addInlineSlotSettings, Slot.append_targeting.
    now rewrite !append_assoc.
Qed.

End SlotSettings.

(* ===================================================================== *)
(** * The slotOnload callback                                             *)
(* ===================================================================== *)

(** C4.  The callback generated for a slot compares the event's slot with
    the slot variable and runs one status update, chosen by the slot's
    format: for [INTERSTITIAL] it sets [innerHTML] to a hyperlink whose
    text is the format name followed by [ is loaded.]; for [TOP_ANCHOR] it
    sets [innerText] to that text followed by [ Scroll page to activate.];
    for any other format it sets [innerText] to that text alone. *)
Theorem getSlotOnloadCallback_status
    (outOfPageFormatNames : string -> option string)
    (st : store) (config : SampleConfig) (slot : ref) :
  let id := getSlotIdentifer config (object slot) in
  let name := formatName outOfPageFormatNames (st slot) in
  exists statusUpdate,
    getSlotOnloadCallback outOfPageFormatNames st config slot
    = nl ++ "    if(" ++ id ++ " === event.slot) {" ++ nl
         ++ "      " ++ statusUpdate ++ ";" ++ nl
         ++ "    }" ++ nl
         ++ "  "
    /\
    (format (st slot) = Some "INTERSTITIAL" ->
     statusUpdate
     = "document.getElementById('" ++ id ++ "')!.innerHTML = '"
         ++ "<a href=" ++ quote ++ "https://www.example.com" ++ quote ++ ">"
         ++ name ++ " is loaded." ++ "</a>" ++ "'")
    /\
    (format (st slot) = Some "TOP_ANCHOR" ->
     statusUpdate
     = "document.getElementById('" ++ id ++ "')!.innerText = '"
         ++ name ++ " is loaded." ++ " Scroll page to activate." ++ "'")
    /\
    (format (st slot) <> Some "INTERSTITIAL" ->
     format (st slot) <> Some "TOP_ANCHOR" ->
     statusUpdate
     = "document.getElementById('" ++ id ++ "')!.innerText = '"
         ++ name ++ " is loaded." ++ "'").
Proof.
  intros id name.
  exists (statusUpdate_of (st slot) id name).
  split; [reflexivity|].
  unfold statusUpdate_of, format_is.
  split; [|split].
  - intros ->. simpl.
    unfold status_updateHtml, status_container, outOfPage_loadedUrl,
      outOfPage_loaded.
    now rewrite !append_assoc.
  - intros ->. simpl.
    unfold status_update, status_container, outOfPage_loadedNeedScroll,
      outOfPage_loaded.
    now rewrite !append_assoc.
  - intros H1 H2.
    assert (E1 : match format (st slot) with
                 | Some f => String.eqb f "INTERSTITIAL"
                 | None => false
                 end = false).
    { destruct (format (st slot)) as [f|]; [|reflexivity].
      apply String.eqb_neq. congruence. }
    assert (E2 : match format (st slot) with
                 | Some f => String.eqb f "TOP_ANCHOR"
                 | None => false
                 end = false).
    { destruct (format (st slot)) as [f|]; [|reflexivity].
      apply String.eqb_neq. congruence. }
    rewrite E1, E2.
    unfold status_update, status_container, outOfPage_loaded.
    now rewrite !append_assoc.
Qed.

(* ===================================================================== *)
(** * Inputs reach the generated code through [sanitizeJs] only           *)
(* ===================================================================== *)

Section Sanitized.

Variable sanitizeJs : json -> string.
Variable outOfPageFormatNames : string -> option string.
Variable pubads_addEventListener : string -> string -> string.

Lemma append_targeting_sanitized (t t' : option (list SampleTargetingKV))
    (acc : string) :
  sanitized_targeting sanitizeJs t = sanitized_targeting sanitizeJs t' ->
  Slot.append_targeting sanitizeJs acc t
  = Slot.append_targeting sanitizeJs acc t'.
Proof.
  assert (Hmap : forall kvs,
             map (fun kv => "." ++ Slot.api_setTargeting sanitizeJs kv) kvs
             = map (fun p => ".setTargeting(" ++ fst p ++ ", " ++ snd p ++ ")")
                   (map (sanitized_kv sanitizeJs) kvs)).
  { intros kvs. rewrite map_map. apply map_ext. intros kv. reflexivity. }
  unfold sanitized_targeting, Slot.append_targeting.
  destruct t as [kvs|], t' as [kvs'|]; cbn [option_map]; intros H;
    try discriminate; [|reflexivity].
  injection H as H.
  now rewrite !fold_setTargeting, !Hmap, H.
Qed.

Lemma addInlineSlotSettings_sanitized (s s' : SampleSlotConfig)
    (d : string) :
  same_sanitized sanitizeJs s s' ->
  Slot.addInlineSlotSettings sanitizeJs s d
  = Slot.addInlineSlotSettings sanitizeJs s' d.
Proof.
  intros (_ & _ & Ht & _). unfold Slot.addInlineSlotSettings.
  now rewrite (append_targeting_sanitized _ _ _ Ht).
Qed.

Lemma getSlotOnloadCallback_ext (st st' : store) (c c' : SampleConfig)
    (r r' : ref) :
  getSlotIdentifer c (object r) = getSlotIdentifer c' (object r') ->
  format (st r) = format (st' r') ->
  getSlotOnloadCallback outOfPageFormatNames st c r
  = getSlotOnloadCallback outOfPageFormatNames st' c' r'.
Proof.
  intros Hid Hf.
  unfold getSlotOnloadCallback, statusUpdate_of, format_is, formatName.
  now rewrite Hid, Hf.
Qed.

Lemma defineSlot_ext (st st' : store) (c c' : SampleConfig) (r r' : ref) :
  getSlotIdentifer c (object r) = getSlotIdentifer c' (object r') ->
  same_sanitized sanitizeJs (st r) (st' r') ->
  defineSlot sanitizeJs st c r = defineSlot sanitizeJs st' c' r'.
Proof.
  intros Hid Hs. unfold defineSlot, api_defineSlot.
  rewrite (addInlineSlotSettings_sanitized _ _ _ Hs).
  destruct Hs as (Ha & Hz & _ & _). now rewrite Hid, Ha, Hz.
Qed.

Lemma defineOutOfPageSlot_ext (st st' : store) (c c' : SampleConfig)
    (r r' : ref) :
  getSlotIdentifer c (object r) = getSlotIdentifer c' (object r') ->
  same_sanitized sanitizeJs (st r) (st' r') ->
  defineOutOfPageSlot sanitizeJs outOfPageFormatNames
    pubads_addEventListener st c r
  = defineOutOfPageSlot sanitizeJs outOfPageFormatNames
      pubads_addEventListener st' c' r'.
Proof.
  intros Hid Hs. unfold defineOutOfPageSlot.
  rewrite (addInlineSlotSettings_sanitized _ _ _ Hs).
  destruct Hs as (Ha & _ & _ & Hf).
  rewrite (getSlotOnloadCallback_ext st st' c c' r r' Hid Hf).
  unfold api_defineOutOfPageSlot, formatName.
  now rewrite Hid, Ha, Hf.
Qed.

(** C5.  The ad unit path, the size and every targeting key and value of
    a slot are handed to [sanitizeJs], and what it returns is what the
    templates concatenate: the generated code of two slots that differ
    only in values [sanitizeJs] maps to the same text is the same.  The
    code generator applies nothing else to these inputs and has no error
    path of its own. *)
Theorem inputs_pass_through_sanitizeJs :
  (forall slot id,
     api_defineSlot sanitizeJs slot id
     = "googletag.defineSlot(" ++ sanitizeJs (JStr (adUnit slot)) ++ ", "
         ++ sanitizeJs (json_of_size (size slot)) ++ ", '" ++ id ++ "')")
  /\
  (forall slot,
     api_defineOutOfPageSlot sanitizeJs slot
     = "googletag.defineOutOfPageSlot(" ++ sanitizeJs (JStr (adUnit slot))
         ++ ", googletag.enums.OutOfPageFormat."
         ++ String_of_format (format slot) ++ ")")
  /\
  (forall kv,
     Slot.api_setTargeting sanitizeJs kv
     = "setTargeting(" ++ fst (sanitized_kv sanitizeJs kv) ++ ", "
         ++ snd (sanitized_kv sanitizeJs kv) ++ ")")
  /\
  (forall (st st' : store) (config : SampleConfig) (r : ref),
     same_sanitized sanitizeJs (st r) (st' r) ->
     defineSlot sanitizeJs st config r = defineSlot sanitizeJs st' config r
     /\ defineOutOfPageSlot sanitizeJs outOfPageFormatNames
          pubads_addEventListener st config r
        = defineOutOfPageSlot sanitizeJs outOfPageFormatNames
            pubads_addEventListener st' config r
     /\ forall d,
          Slot.addInlineSlotSettings sanitizeJs (st r) d
          = Slot.addInlineSlotSettings sanitizeJs (st' r) d).
Proof.
  repeat split; try reflexivity.
  - now apply defineSlot_ext.
  - now apply defineOutOfPageSlot_ext.
  - intros d. now apply addInlineSlotSettings_sanitized.
Qed.

End Sanitized.

(* ===================================================================== *)
(** * Determinism                                                         *)
(* ===================================================================== *)

Section Determinism.

Variable sanitizeJs : json -> string.
Variable outOfPageFormatNames : string -> option string.
Variable pubads_addEventListener : string -> string -> string.

Variables st st' : store.
Variables c c' : SampleConfig.

Lemma same_slot_identifier (v v' : slotval) :
  same_slot st st' c c' v v' ->
  getSlotIdentifer c v = getSlotIdentifer c' v'.
Proof. intros [Hi _]. unfold getSlotIdentifer. now rewrite Hi. Qed.

Lemma same_slot_display (v v' : slotval) :
  same_slot st st' c c' v v' -> display st c v = display st' c' v'.
Proof.
  intros H. pose proof (same_slot_identifier v v' H) as Hid.
  destruct H as [_ H]. unfold display. rewrite Hid.
  destruct v as [|r], v' as [|r']; try contradiction; [reflexivity|].
  simpl. now rewrite H.
Qed.

Lemma same_slot_sanitized (r r' : ref) :
  st r = st' r' -> same_sanitized sanitizeJs (st r) (st' r').
Proof. intros ->. now repeat split. Qed.

Section Lists.

Variable R : ref -> ref -> Prop.
Hypothesis R_display :
  forall r r', R r r' -> display st c (object r) = display st' c' (object r').
Hypothesis R_format : forall r r', R r r' -> format (st r) = format (st' r').

Lemma related_findIndex (l l' : list ref) (i : Z) :
  Forall2 R l l' ->
  findIndex_from (fun s => negb (truthy (format (st s)))) l i
  = findIndex_from (fun s => negb (truthy (format (st' s)))) l' i.
Proof.
  intros H. revert i. induction H as [|r r' l l' Hr _ IH]; intros i; simpl.
  - reflexivity.
  - rewrite (R_format _ _ Hr). now rewrite IH.
Qed.

Lemma related_length (l l' : list ref) :
  Forall2 R l l' -> array_length l = array_length l'.
Proof.
  intros H. unfold array_length. f_equal.
  induction H; simpl; congruence.
Qed.

Lemma related_nth (l l' : list ref) (n : nat) :
  Forall2 R l l' ->
  match nth_error l n, nth_error l' n with
  | Some r, Some r' => R r r'
  | None, None => True
  | _, _ => False
  end.
Proof.
  intros H. revert n. induction H as [|r r' l l' Hr _ IH]; intros [|n]; simpl;
    try exact I; try exact Hr.
  apply IH.
Qed.

Lemma related_array_get (l l' : list ref) (i : Z) :
  Forall2 R l l' ->
  display st c (array_get l i) = display st' c' (array_get l' i).
Proof.
  intros H. unfold array_get.
  destruct (i <? 0); [reflexivity|].
  pose proof (related_nth l l' (Z.to_nat i) H) as Hn.
  destruct (nth_error l (Z.to_nat i)), (nth_error l' (Z.to_nat i));
    try contradiction; [now apply R_display | reflexivity].
Qed.

Lemma related_display_each (l l' : list ref) (acc : string) :
  Forall2 R l l' ->
  display_each st c l acc = display_each st' c' l' acc.
Proof.
  intros H. revert acc. induction H as [|r r' l l' Hr _ IH]; intros acc.
  - reflexivity.
  - rewrite !display_each_cons, (R_display _ _ Hr).
    destruct (display st' c' (object r')); simpl; [apply IH | reflexivity].
Qed.

End Lists.

Lemma same_config_displayAll :
  same_config st st' c c' -> displayAll st c = displayAll st' c'.
Proof.
  intros (Hp & _ & Hs). unfold displayAll, sra_enabled. rewrite Hp.
  set (R := fun r r' => same_slot st st' c c' (object r) (object r')) in Hs.
  assert (RD : forall r r', R r r' ->
               display st c (object r) = display st' c' (object r')).
  { intros r r' H. now apply same_slot_display. }
  assert (RF : forall r r', R r r' -> format (st r) = format (st' r')).
  { intros r r' [_ H]. simpl in H. now rewrite H. }
  match goal with |- (if ?b then _ else _) = _ => destruct b end.
  - unfold sra_index, findIndex.
    rewrite (related_findIndex R RF _ _ 0 Hs), (related_length R _ _ Hs).
    now apply (related_array_get R RD).
  - now apply (related_display_each R RD).
Qed.

(** C3.  Each code-generation operation is a function of its inputs
    alone: on configurations that are equal as inputs and slot arguments
    that are equal as inputs (same position in the slot list, equal slot
    object), whatever else the two stores hold, [declareSlot],
    [defineSlot], [defineOutOfPageSlot], [display], [displayAll] and
    [addInlineSlotSettings] return equal results, and [enableServices] is
    a constant. *)
Theorem codegen_deterministic (r r' : ref) (slotDefinition : string) :
  same_config st st' c c' ->
  same_slot st st' c c' (object r) (object r') ->
  declareSlot c r = declareSlot c' r'
  /\ defineSlot sanitizeJs st c r = defineSlot sanitizeJs st' c' r'
  /\ defineOutOfPageSlot sanitizeJs outOfPageFormatNames
       pubads_addEventListener st c r
     = defineOutOfPageSlot sanitizeJs outOfPageFormatNames
         pubads_addEventListener st' c' r'
  /\ display st c (object r) = display st' c' (object r')
  /\ displayAll st c = displayAll st' c'
  /\ Slot.addInlineSlotSettings sanitizeJs (st r) slotDefinition
     = Slot.addInlineSlotSettings sanitizeJs (st' r') slotDefinition
  /\ enableServices = "googletag.enableServices();".
Proof.
  intros Hc Hs.
  pose proof (same_slot_identifier _ _ Hs) as Hid.
  assert (Hr : st r = st' r') by (destruct Hs as [_ H]; exact H).
  pose proof (same_slot_sanitized r r' Hr) as Hsan.
  repeat split.
  - unfold declareSlot. now rewrite Hid.
  - now apply defineSlot_ext.
  - now apply defineOutOfPageSlot_ext.
  - now apply same_slot_display.
  - now apply same_config_displayAll.
  - now rewrite Hr.
Qed.

End Determinism.

(* ===================================================================== *)
(** * base64url: decoding undoes encoding                                 *)
(* ===================================================================== *)

Lemma sextet_of_digit_of_sextet (x : Base64url.sextet) :
  Base64url.sextet_of_digit (Base64url.digit_of_sextet x) = Some x.
Proof. destruct x as [[] [] [] [] [] []]; reflexivity. Qed.

Lemma sextets_of_digits_of_sextets (l : list Base64url.sextet) :
  Base64url.sextets_of_digits (Base64url.digits_of_sextets l) = Some l.
Proof.
  induction l as [|x l IH]; simpl; [reflexivity|].
  now rewrite sextet_of_digit_of_sextet, IH.
Qed.

(** Groups of three bytes: the statement for a string and for the same
    string behind one or two more bytes. *)
Lemma bytes_of_sextets_of_bytes_step (s : string) :
  Base64url.bytes_of_sextets (Base64url.sextets_of_bytes s) = Some s
  /\ (forall a,
        Base64url.bytes_of_sextets (Base64url.sextets_of_bytes (String a s))
        = Some (String a s))
  /\ (forall a b,
        Base64url.bytes_of_sextets
          (Base64url.sextets_of_bytes (String a (String b s)))
        = Some (String a (String b s))).
Proof.
  induction s as [|c s (IH0 & IH1 & IH2)].
  - repeat split.
    + intros [a0 a1 a2 a3 a4 a5 a6 a7]. reflexivity.
    + intros [a0 a1 a2 a3 a4 a5 a6 a7] [b0 b1 b2 b3 b4 b5 b6 b7].
      reflexivity.
  - split; [apply IH1|]. split; [intros a; apply IH2|].
    intros [a0 a1 a2 a3 a4 a5 a6 a7] [b0 b1 b2 b3 b4 b5 b6 b7].
    destruct c as [c0 c1 c2 c3 c4 c5 c6 c7].
    cbn [Base64url.sextets_of_bytes Base64url.bytes_of_sextets].
    now rewrite IH0.
Qed.

Lemma base64url_decode_encode (s : string) :
  Base64url.decode (Base64url.encode s) = Ok s.
Proof.
  unfold Base64url.decode, Base64url.encode.
  rewrite sextets_of_digits_of_sextets.
  now rewrite (proj1 (bytes_of_sextets_of_bytes_step s)).
Qed.

Lemma base64url_encode_nonempty (s : string) :
  s <> EmptyString -> Base64url.encode s <> EmptyString.
Proof.
  unfold Base64url.encode.
  destruct s as [|[a0 a1 a2 a3 a4 a5 a6 a7] s]; [congruence|intros _].
  destruct s as [|[b0 b1 b2 b3 b4 b5 b6 b7] s]; [discriminate|].
  destruct s as [|[c0 c1 c2 c3 c4 c5 c6 c7] s]; discriminate.
Qed.

(* ===================================================================== *)
(** * JSON: string literals                                               *)
(* ===================================================================== *)

Lemma parse_chars_escape_char (c : ascii) (tail : string) :
  JSON.parse_chars (JSON.escape_char c ++ tail)
  = match JSON.parse_chars tail with
    | Some (t, rest) => Some (String c t, rest)
    | None => None
    end.
Proof. destruct c as [[] [] [] [] [] [] [] []]; reflexivity. Qed.

Lemma parse_chars_escape (s rest : string) :
  JSON.parse_chars (JSON.escape s ++ quote ++ rest) = Some (s, rest).
Proof.
  induction s as [|c s IH]; [reflexivity|].
  cbn [JSON.escape]. rewrite append_assoc, parse_chars_escape_char.
  now rewrite IH.
Qed.

Lemma String_length_append (a b : string) :
  String.length (a ++ b) = (String.length a + String.length b)%nat.
Proof. induction a as [|c a IH]; simpl; [reflexivity|now rewrite IH]. Qed.

(* ===================================================================== *)
(** * JSON: number literals                                               *)
(* ===================================================================== *)

Lemma span_digits_stop (rest : string) :
  ends_number rest = true -> JSON.span_digits rest = (EmptyString, rest).
Proof.
  destruct rest as [|c rest]; [reflexivity|]. simpl.
  destruct (JSON.is_digit c); [discriminate|reflexivity].
Qed.

Lemma string_of_uint_head (d : uint) :
  d <> Nil ->
  exists c s, NilEmpty.string_of_uint d = String c s
              /\ JSON.is_digit c = true /\ Ascii.eqb c "-" = false.
Proof.
  destruct d; [congruence|..]; intros _; simpl; eexists; eexists;
    (split; [reflexivity|split; reflexivity]).
Qed.

Lemma string_of_to_uint (p : positive) :
  NilZero.string_of_uint (Pos.to_uint p)
  = NilEmpty.string_of_uint (Pos.to_uint p).
Proof.
  pose proof (DecimalPos.Unsigned.to_uint_nonnil p) as H.
  now destruct (Pos.to_uint p).
Qed.

Lemma number_to_string_head (n : Z) :
  exists c s, number_to_string n = String c s
              /\ (JSON.is_digit c || Ascii.eqb c "-" = true)%bool
              /\ JSON.is_ws c = false.
Proof.
  unfold number_to_string.
  destruct n as [|p|p]; cbn [Z.to_int NilZero.string_of_int].
  - eexists; eexists. repeat split.
  - rewrite string_of_to_uint.
    destruct (string_of_uint_head (Pos.to_uint p)
                (DecimalPos.Unsigned.to_uint_nonnil p))
      as (c & s & -> & Hd & _).
    exists c, s. rewrite Hd. repeat split.
    revert Hd. destruct c as [[] [] [] [] [] [] [] []]; simpl;
      intros; try discriminate; reflexivity.
  - eexists; eexists. repeat split.
Qed.

Lemma uint_all_digits (d : uint) :
  all_digits (NilEmpty.string_of_uint d) = true.
Proof. induction d; simpl; [reflexivity|exact IHd..]. Qed.

Lemma number_to_string_digits (n : Z) :
  0 <= n -> all_digits (number_to_string n) = true.
Proof.
  intros Hn. unfold number_to_string.
  destruct n as [|p|p]; [reflexivity| |lia].
  cbn [Z.to_int NilZero.string_of_int]. rewrite string_of_to_uint.
  apply uint_all_digits.
Qed.

Lemma JSNumber_eqb_eq (x y : number) : JSNumber.eqb x y = true -> x = y.
Proof.
  destruct x, y; simpl; intros H; try discriminate; try reflexivity.
  - apply Z.eqb_eq in H. now subst.
  - apply andb_prop in H as [Hm He].
    apply Z.eqb_eq in Hm. apply Pos.eqb_eq in He. now subst.
Qed.

Lemma span_digits_frame (s rest : string) :
  ends_number rest = true ->
  forall d r, JSON.span_digits s = (d, r) ->
  JSON.span_digits (s ++ rest) = (d, r ++ rest).
Proof.
  intros Hrest. induction s as [|c s IH]; intros d r H.
  - cbn in H. injection H as <- <-. now apply span_digits_stop.
  - cbn [append JSON.span_digits] in *.
    destruct (JSON.is_digit c).
    + destruct (JSON.span_digits s) as [d' r'].
      injection H as <- <-. now rewrite (IH d' r' eq_refl).
    + injection H as <- <-. reflexivity.
Qed.

Lemma ends_number_head (c : ascii) (rest : string) :
  ends_number (String c rest) = true ->
  Ascii.eqb c "." = false
  /\ (Ascii.eqb c "e" || Ascii.eqb c "E")%bool = false.
Proof.
  unfold ends_number, JSON.starts_fraction. intros H.
  apply andb_prop in H as [_ H]. apply negb_true_iff in H.
  destruct (Ascii.eqb c "."); [discriminate|]. split; [reflexivity|exact H].
Qed.

Lemma parse_fraction_frame (s rest : string) :
  ends_number rest = true ->
  forall d r, JSON.parse_fraction s = Some (d, r) ->
  JSON.parse_fraction (s ++ rest) = Some (d, r ++ rest).
Proof.
  intros Hrest d r H. destruct s as [|c s].
  - cbn in H. injection H as <- <-. cbn [append].
    destruct rest as [|c rest]; [reflexivity|].
    cbn [JSON.parse_fraction].
    now rewrite (proj1 (ends_number_head c rest Hrest)).
  - cbn [append JSON.parse_fraction] in *.
    destruct (Ascii.eqb c ".").
    + destruct (JSON.span_digits s) as [d' r'] eqn:E.
      rewrite (span_digits_frame s rest Hrest d' r' E).
      destruct d'; [discriminate|]. now injection H as <- <-.
    + now injection H as <- <-.
Qed.

Lemma parse_exponent_frame (s rest : string) :
  ends_number rest = true ->
  forall e r, JSON.parse_exponent s = Some (e, r) ->
  JSON.parse_exponent (s ++ rest) = Some (e, r ++ rest).
Proof.
  intros Hrest e r H. destruct s as [|c s].
  - cbn in H. injection H as <- <-. cbn [append].
    destruct rest as [|c rest]; [reflexivity|].
    cbn [JSON.parse_exponent].
    now rewrite (proj2 (ends_number_head c rest Hrest)).
  - cbn [append JSON.parse_exponent] in *.
    destruct (Ascii.eqb c "e" || Ascii.eqb c "E")%bool.
    + destruct s as [|c' s]; [discriminate|].
      cbn [append JSON.strip_sign] in *.
      destruct (Ascii.eqb c' "-").
      * destruct (JSON.span_digits s) as [d' r'] eqn:E.
        rewrite (span_digits_frame s rest Hrest d' r' E).
        destruct d'; [discriminate|]. now injection H as <- <-.
      * destruct (Ascii.eqb c' "+").
        -- destruct (JSON.span_digits s) as [d' r'] eqn:E.
           rewrite (span_digits_frame s rest Hrest d' r' E).
           destruct d'; [discriminate|]. now injection H as <- <-.
        -- destruct (JSON.span_digits (String c' s)) as [d' r'] eqn:E.
           change (String c' (s ++ rest)) with (String c' s ++ rest).
           rewrite (span_digits_frame _ rest Hrest d' r' E).
           destruct d'; [discriminate|]. now injection H as <- <-.
    + now injection H as <- <-.
Qed.

(** What follows a number literal does not change its value, unless it
    continues the literal. *)
Lemma parse_number_frame (s rest : string) :
  ends_number rest = true ->
  forall x r, JSON.parse_number s = Some (x, r) ->
  JSON.parse_number (s ++ rest) = Some (x, r ++ rest).
Proof.
  intros Hrest x r H. unfold JSON.parse_number in *.
  destruct s as [|c s]; [discriminate|].
  assert (Hstrip : forall b s1, JSON.strip_minus (String c s) = (b, s1) ->
                   JSON.strip_minus (String c s ++ rest) = (b, s1 ++ rest)).
  { cbn [append JSON.strip_minus]. destruct (Ascii.eqb c "-");
      intros b s1 [= <- <-]; reflexivity. }
  destruct (JSON.strip_minus (String c s)) as [negative s1] eqn:E1.
  rewrite (Hstrip _ _ eq_refl).
  destruct (JSON.span_digits s1) as [int s2] eqn:E2.
  rewrite (span_digits_frame s1 rest Hrest int s2 E2).
  destruct int as [|i int]; [discriminate|].
  destruct (JSON.has_leading_zero (String i int)); [discriminate|].
  destruct (JSON.parse_fraction s2) as [[frac s3]|] eqn:E3; [|discriminate].
  rewrite (parse_fraction_frame s2 rest Hrest frac s3 E3).
  destruct (JSON.parse_exponent s3) as [[e s4]|] eqn:E4; [|discriminate].
  rewrite (parse_exponent_frame s3 rest Hrest e s4 E4).
  now injection H as <- <-.
Qed.

Lemma span_digits_head (c : ascii) (s d r : string) (i : ascii) :
  JSON.span_digits (String c s) = (String i d, r) -> JSON.is_digit c = true.
Proof.
  cbn [JSON.span_digits]. destruct (JSON.is_digit c); [reflexivity|].
  discriminate.
Qed.

(** A number literal starts with a digit or a minus sign. *)
Lemma parse_number_head (s : string) (x : number) (r : string) :
  JSON.parse_number s = Some (x, r) ->
  exists c s', s = String c s'
               /\ (JSON.is_digit c || Ascii.eqb c "-")%bool = true.
Proof.
  intros H. unfold JSON.parse_number in H.
  destruct s as [|c s]; [discriminate|].
  exists c, s. split; [reflexivity|].
  cbn [JSON.strip_minus] in H.
  destruct (Ascii.eqb c "-"); [now rewrite orb_true_r|].
  destruct (JSON.span_digits (String c s)) as [int s2] eqn:E.
  destruct int as [|i int]; [discriminate|].
  now rewrite (span_digits_head c s int s2 i E).
Qed.

Lemma number_head_not_ws (c : ascii) :
  (JSON.is_digit c || Ascii.eqb c "-")%bool = true -> JSON.is_ws c = false.
Proof.
  destruct c as [[] [] [] [] [] [] [] []]; simpl; intros; try discriminate;
    reflexivity.
Qed.

(** The text of a number that reads back, followed by any text that does
    not continue a number, parses to the number. *)
Lemma parse_number_text (x : number) (rest : string) :
  number_reads_back x = true ->
  ends_number rest = true ->
  JSON.parse_number (JSNumber.json_text x ++ rest) = Some (x, rest).
Proof.
  unfold number_reads_back. intros H Hrest.
  destruct (JSON.parse_number (JSNumber.json_text x)) as [[y r]|] eqn:E;
    [|discriminate].
  destruct r; [|discriminate].
  apply JSNumber_eqb_eq in H. subst y.
  exact (parse_number_frame _ rest Hrest x EmptyString E).
Qed.

Lemma number_text_head (x : number) :
  number_reads_back x = true ->
  exists c s, JSNumber.json_text x = String c s
              /\ (JSON.is_digit c || Ascii.eqb c "-")%bool = true.
Proof.
  unfold number_reads_back. intros H.
  destruct (JSON.parse_number (JSNumber.json_text x)) as [[y r]|] eqn:E;
    [|discriminate].
  exact (parse_number_head _ y r E).
Qed.

(** A number that reads back is finite. *)
Lemma number_reads_back_finite (x : number) :
  number_reads_back x = true -> JSNumber.is_finite x = true.
Proof. destruct x; try reflexivity; intros H; discriminate H. Qed.

(* ===================================================================== *)
(** * Powers with exponents of either sign                                *)
(* ===================================================================== *)

Ltac simp_max :=
  repeat match goal with
         | |- context [Z.max 0 ?t] =>
             first [rewrite (Z.max_r 0 t) by lia
                   |rewrite (Z.max_l 0 t) by lia]
         end.

Lemma pow_num_pos (b e : Z) : 0 < b -> 0 < pow_num b e.
Proof. intros Hb. unfold pow_num. apply Z.pow_pos_nonneg; lia. Qed.

Lemma pow_den_pos (b e : Z) : 0 < b -> 0 < pow_den b e.
Proof. intros Hb. unfold pow_den. apply Z.pow_pos_nonneg; lia. Qed.

Lemma pow_num_nonneg (b e : Z) : 0 <= e -> pow_num b e = b ^ e.
Proof. intros He. unfold pow_num. now simp_max. Qed.

Lemma pow_den_nonneg (b e : Z) : 0 <= e -> pow_den b e = 1.
Proof. intros He. unfold pow_den. now simp_max. Qed.

Lemma pow_num_nonpos (b e : Z) : e <= 0 -> pow_num b e = 1.
Proof. intros He. unfold pow_num. now simp_max. Qed.

Lemma pow_den_nonpos (b e : Z) : e <= 0 -> pow_den b e = b ^ (- e).
Proof. intros He. unfold pow_den. now simp_max. Qed.

Lemma pow_num_opp (b e : Z) : pow_num b (- e) = pow_den b e.
Proof. reflexivity. Qed.

Lemma pow_den_opp (b e : Z) : pow_den b (- e) = pow_num b e.
Proof. unfold pow_den, pow_num. now rewrite Z.opp_involutive. Qed.

(** [b^(e+a) = b^a * b^e] *)
Lemma pow_shift (b e a : Z) :
  0 < b -> 0 <= a ->
  pow_num b (e + a) * pow_den b e
  = b ^ a * (pow_num b e * pow_den b (e + a)).
Proof.
  intros Hb Ha. unfold pow_num, pow_den.
  destruct (Z.le_gt_cases 0 e) as [He|He].
  - simp_max. rewrite Z.pow_0_r, !Z.mul_1_r, <- Z.pow_add_r by lia.
    f_equal. lia.
  - destruct (Z.le_gt_cases (e + a) 0) as [Hea|Hea].
    + simp_max. rewrite Z.pow_0_r, !Z.mul_1_l, <- Z.pow_add_r by lia.
      f_equal. lia.
    + simp_max. rewrite Z.pow_0_r, !Z.mul_1_r, <- Z.pow_add_r by lia.
      f_equal. lia.
Qed.

(** [b^e <= b^e'] for [e <= e'] *)
Lemma pow_mono (b e e' : Z) :
  0 < b -> e <= e' ->
  pow_num b e * pow_den b e' <= pow_num b e' * pow_den b e.
Proof.
  intros Hb He.
  replace e' with (e + (e' - e)) by lia.
  rewrite (pow_shift b e (e' - e)) by lia.
  pose proof (pow_num_pos b e Hb). pose proof (pow_den_pos b (e + (e' - e)) Hb).
  assert (1 <= b ^ (e' - e)) by (apply Z.lt_pred_le, Z.pow_pos_nonneg; lia).
  nia.
Qed.

(** A ratio lies in one interval only. *)
Lemma in_interval_unique (b p q e e' : Z) :
  0 < b -> 0 < p -> 0 < q ->
  in_interval b p q e -> in_interval b p q e' -> e = e'.
Proof.
  intros Hb Hp Hq.
  assert (H : forall e e', in_interval b p q e -> in_interval b p q e' ->
                           ~ e < e').
  { clear e e'. intros e e' [_ Hu] [Hl _] Hlt.
    pose proof (pow_mono b (e + 1) e' Hb ltac:(lia)) as Hm.
    pose proof (pow_num_pos b (e + 1) Hb). pose proof (pow_den_pos b (e + 1) Hb).
    pose proof (pow_num_pos b e' Hb). pose proof (pow_den_pos b e' Hb).
    assert (p * pow_den b (e + 1) * pow_den b e'
            < q * pow_num b (e + 1) * pow_den b e') by nia.
    assert (q * (pow_num b (e + 1) * pow_den b e')
            <= q * (pow_num b e' * pow_den b (e + 1))) by nia.
    assert (q * pow_num b e' * pow_den b (e + 1)
            <= p * pow_den b e' * pow_den b (e + 1)) by nia.
    nia. }
  intros H1 H2.
  pose proof (H e e' H1 H2). pose proof (H e' e H2 H1). lia.
Qed.

(** The interval of a ratio does not depend on the way it is written. *)
Lemma in_interval_scale (b p q c e : Z) :
  0 < c -> in_interval b (p * c) (q * c) e <-> in_interval b p q e.
Proof.
  intros Hc. unfold in_interval. split; intros [H1 H2]; split; nia.
Qed.

(* ===================================================================== *)
(** * The binary exponent of a ratio                                      *)
(* ===================================================================== *)

Lemma binary_exponent_spec (p q : Z) :
  0 < p -> 0 < q -> in_interval 2 p q (JSNumber.binary_exponent p q).
Proof.
  intros Hp Hq.
  destruct (Z.log2_spec p Hp) as [Hpl Hpu].
  destruct (Z.log2_spec q Hq) as [Hql Hqu].
  pose proof (Z.log2_nonneg p) as Ha. pose proof (Z.log2_nonneg q) as Hb.
  rewrite <- Z.add_1_r in Hpu, Hqu.
  unfold JSNumber.binary_exponent.
  set (a := Z.log2 p) in *. set (b := Z.log2 q) in *.
  unfold in_interval, pow_num, pow_den.
  destruct (Z.leb_spec 0 (a - b)) as [Hl0|Hl0].
  - destruct (Z.ltb_spec p (q * 2 ^ (a - b))) as [Hbelow|Hbelow].
    + split.
      * destruct (Z.eq_dec (a - b) 0) as [E|E].
        -- simp_max. replace (- (a - b - 1)) with 1 by lia.
           replace b with a in * by lia.
           rewrite Z.pow_0_r, Z.pow_1_r. rewrite Z.pow_add_r in Hqu by lia.
           lia.
        -- simp_max. rewrite Z.pow_0_r.
           assert (2 ^ (b + 1) * 2 ^ (a - b - 1) = 2 ^ a)
             by (rewrite <- Z.pow_add_r by lia; f_equal; lia).
           assert (0 < 2 ^ (a - b - 1)) by (apply Z.pow_pos_nonneg; lia).
           nia.
      * replace (a - b - 1 + 1) with (a - b) by lia. simp_max.
        rewrite Z.pow_0_r. lia.
    + split.
      * simp_max. rewrite Z.pow_0_r. lia.
      * simp_max. rewrite Z.pow_0_r.
        assert (2 ^ b * 2 ^ (a - b + 1) = 2 ^ (a + 1))
          by (rewrite <- Z.pow_add_r by lia; f_equal; lia).
        assert (0 < 2 ^ (a - b + 1)) by (apply Z.pow_pos_nonneg; lia).
        nia.
  - destruct (Z.ltb_spec (p * 2 ^ (- (a - b))) q) as [Hbelow|Hbelow].
    + split.
      * simp_max. rewrite Z.pow_0_r.
        assert (2 ^ a * 2 ^ (- (a - b - 1)) = 2 ^ (b + 1))
          by (rewrite <- Z.pow_add_r by lia; f_equal; lia).
        assert (0 < 2 ^ (- (a - b - 1))) by (apply Z.pow_pos_nonneg; lia).
        nia.
      * replace (a - b - 1 + 1) with (a - b) by lia. simp_max.
        rewrite Z.pow_0_r. lia.
    + split.
      * simp_max. rewrite Z.pow_0_r. lia.
      * simp_max. rewrite Z.pow_0_r.
        assert (2 ^ (a + 1) * 2 ^ (- (a - b + 1)) = 2 ^ b)
          by (rewrite <- Z.pow_add_r by lia; f_equal; lia).
        assert (0 < 2 ^ (- (a - b + 1))) by (apply Z.pow_pos_nonneg; lia).
        nia.
Qed.

Lemma binary_exponent_unique (p q l : Z) :
  0 < p -> 0 < q -> in_interval 2 p q l -> JSNumber.binary_exponent p q = l.
Proof.
  intros Hp Hq H.
  apply (in_interval_unique 2 p q); try lia; [|exact H].
  now apply binary_exponent_spec.
Qed.

Lemma binary_exponent_scale (p q c : Z) :
  0 < p -> 0 < q -> 0 < c ->
  JSNumber.binary_exponent (p * c) (q * c) = JSNumber.binary_exponent p q.
Proof.
  intros Hp Hq Hc. apply binary_exponent_unique; try nia.
  apply in_interval_scale; [exact Hc|]. now apply binary_exponent_spec.
Qed.
(** A ratio below [b^e] has a smaller exponent, and one from [b^e] on has
    exponent [e] at least. *)
Lemma in_interval_lt (b p q l e : Z) :
  0 < b -> 0 < p -> 0 < q ->
  in_interval b p q l -> p * pow_den b e < q * pow_num b e -> l < e.
Proof.
  intros Hb Hp Hq [Hl _] He.
  destruct (Z.lt_ge_cases l e) as [|Hge]; [assumption|exfalso].
  pose proof (pow_mono b e l Hb ltac:(lia)) as Hm.
  pose proof (pow_num_pos b e Hb). pose proof (pow_den_pos b e Hb).
  pose proof (pow_num_pos b l Hb). pose proof (pow_den_pos b l Hb).
  assert (p * pow_den b e * pow_den b l < q * pow_num b e * pow_den b l)
    by nia.
  assert (q * (pow_num b e * pow_den b l) <= q * (pow_num b l * pow_den b e))
    by nia.
  assert (q * pow_num b l * pow_den b e <= p * pow_den b l * pow_den b e)
    by nia.
  nia.
Qed.

Lemma in_interval_ge (b p q l e : Z) :
  0 < b -> 0 < p -> 0 < q ->
  in_interval b p q l -> q * pow_num b e <= p * pow_den b e -> e <= l.
Proof.
  intros Hb Hp Hq [_ Hu] He.
  destruct (Z.le_gt_cases e l) as [|Hlt]; [assumption|exfalso].
  pose proof (pow_mono b (l + 1) e Hb ltac:(lia)) as Hm.
  pose proof (pow_num_pos b e Hb). pose proof (pow_den_pos b e Hb).
  pose proof (pow_num_pos b (l + 1) Hb). pose proof (pow_den_pos b (l + 1) Hb).
  assert (p * pow_den b (l + 1) * pow_den b e
          < q * pow_num b (l + 1) * pow_den b e) by nia.
  assert (q * (pow_num b (l + 1) * pow_den b e)
          <= q * (pow_num b e * pow_den b (l + 1))) by nia.
  assert (q * pow_num b e * pow_den b (l + 1)
          <= p * pow_den b e * pow_den b (l + 1)) by nia.
  nia.
Qed.

(** Comparisons of [p/q] with [b^(e+a)] are comparisons of
    [(p/q) / b^e] with [b^a]. *)
Lemma ratio_lt_shift (b p q e a : Z) :
  0 < b -> 0 <= a ->
  p * pow_den b e < b ^ a * (q * pow_num b e) <->
  p * pow_den b (e + a) < q * pow_num b (e + a).
Proof.
  intros Hb Ha. pose proof (pow_shift b e a Hb Ha) as Hs.
  pose proof (pow_num_pos b e Hb). pose proof (pow_den_pos b e Hb).
  pose proof (pow_num_pos b (e + a) Hb).
  pose proof (pow_den_pos b (e + a) Hb).
  assert (0 < b ^ a) by (apply Z.pow_pos_nonneg; lia).
  split; intros Hlt.
  - assert (p * pow_den b e * pow_den b (e + a)
            < q * (b ^ a * (pow_num b e * pow_den b (e + a)))) by nia.
    rewrite <- Hs in *. nia.
  - assert (p * pow_den b (e + a) * pow_den b e
            < q * (pow_num b (e + a) * pow_den b e)) by nia.
    rewrite Hs in *. nia.
Qed.

Lemma ratio_le_shift (b p q e a : Z) :
  0 < b -> 0 <= a ->
  b ^ a * (q * pow_num b e) <= p * pow_den b e <->
  q * pow_num b (e + a) <= p * pow_den b (e + a).
Proof.
  intros Hb Ha. pose proof (ratio_lt_shift b p q e a Hb Ha). lia.
Qed.

(* ===================================================================== *)
(** * Rounding to the nearest integer                                     *)
(* ===================================================================== *)

Lemma nearest_spec (num den M : Z) :
  0 < den ->
  (2 * M - 1) * den < 2 * num < (2 * M + 1) * den ->
  JSNumber.nearest num den = M.
Proof.
  intros Hden [Hl Hu]. unfold JSNumber.nearest.
  pose proof (Z.div_mod num den ltac:(lia)) as Hdm.
  pose proof (Z.mod_pos_bound num den Hden) as Hr.
  set (m := num / den) in *. set (r := num mod den) in *.
  assert (Hm : m = M - 1 \/ m = M) by nia.
  destruct Hm as [Hm|Hm].
  - assert (den < 2 * r) by nia.
    destruct (Z.ltb_spec den (2 * r)); [cbn [orb]; lia|lia].
  - assert (2 * r < den) by nia.
    destruct (Z.ltb_spec den (2 * r)); [lia|].
    destruct (Z.eqb_spec den (2 * r)); [lia|]. cbn [orb andb]. exact Hm.
Qed.

Lemma nearest_exact (M den : Z) :
  0 < den -> JSNumber.nearest (M * den) den = M.
Proof. intros Hden. apply nearest_spec; [exact Hden|nia]. Qed.

Lemma nearest_scale (num den c : Z) :
  0 < den -> 0 < c ->
  JSNumber.nearest (num * c) (den * c) = JSNumber.nearest num den.
Proof.
  intros Hden Hc. unfold JSNumber.nearest.
  rewrite Z.div_mul_cancel_r by lia.
  rewrite Z.mul_mod_distr_r by lia.
  set (r := num mod den).
  replace (den * c <? 2 * (r * c)) with (den <? 2 * r)
    by (destruct (Z.ltb_spec den (2 * r)), (Z.ltb_spec (den * c) (2 * (r * c)));
        try reflexivity; nia).
  replace (den * c =? 2 * (r * c)) with (den =? 2 * r)
    by (destruct (Z.eqb_spec den (2 * r)), (Z.eqb_spec (den * c) (2 * (r * c)));
        try reflexivity; nia).
  reflexivity.
Qed.

(* ===================================================================== *)
(** * Rounding a ratio to a double                                        *)
(* ===================================================================== *)

(** [round_ratio] with the two cases of the scaling written as one. *)
Lemma round_ratio_unfold (negative : bool) (p q : Z) :
  JSNumber.round_ratio negative p q
  = let e2 := Z.max (JSNumber.binary_exponent p q - 52) (-1074) in
    let m := JSNumber.nearest (p * pow_den 2 e2) (q * pow_num 2 e2) in
    if m =? 0 then (if negative then NegZero else Integer 0)
    else if 1024 <=? Z.log2 m + e2
         then (if negative then NegInfinity else Infinity)
    else JSNumber.make_number negative m e2.
Proof.
  unfold JSNumber.round_ratio. cbv zeta.
  set (e2 := Z.max (JSNumber.binary_exponent p q - 52) (-1074)).
  destruct (Z.ltb_spec e2 0) as [He|He].
  - rewrite pow_den_nonpos, pow_num_nonpos by lia. now rewrite Z.mul_1_r.
  - rewrite pow_den_nonneg, pow_num_nonneg by lia. now rewrite Z.mul_1_r.
Qed.

(** The double nearest to a ratio does not depend on the way the ratio is
    written. *)
Lemma round_ratio_scale (negative : bool) (p q c : Z) :
  0 < p -> 0 < q -> 0 < c ->
  JSNumber.round_ratio negative (p * c) (q * c)
  = JSNumber.round_ratio negative p q.
Proof.
  intros Hp Hq Hc. rewrite !round_ratio_unfold. cbv zeta.
  rewrite binary_exponent_scale by assumption.
  set (e2 := Z.max (JSNumber.binary_exponent p q - 52) (-1074)).
  replace (p * c * pow_den 2 e2) with (p * pow_den 2 e2 * c) by ring.
  replace (q * c * pow_num 2 e2) with (q * pow_num 2 e2 * c) by ring.
  rewrite nearest_scale; [reflexivity| |exact Hc].
  pose proof (pow_num_pos 2 e2 ltac:(lia)). nia.
Qed.

(** Trailing zero bits. *)
Lemma trailing_zero_bits_double (v : Z) :
  0 < v ->
  JSNumber.trailing_zero_bits (Z.to_pos (2 * v))
  = S (JSNumber.trailing_zero_bits (Z.to_pos v)).
Proof. destruct v as [|v|v]; try lia. intros _. reflexivity. Qed.

Lemma trailing_zero_bits_pow2 (v j : Z) :
  0 < v -> 0 <= j ->
  Z.of_nat (JSNumber.trailing_zero_bits (Z.to_pos (v * 2 ^ j)))
  = Z.of_nat (JSNumber.trailing_zero_bits (Z.to_pos v)) + j.
Proof.
  intros Hv Hj. revert j Hj. apply natlike_ind.
  - rewrite Z.pow_0_r, Z.mul_1_r. lia.
  - intros j Hj IH. rewrite Z.pow_succ_r by lia.
    replace (v * (2 * 2 ^ j)) with (2 * (v * 2 ^ j)) by ring.
    assert (0 < 2 ^ j) by (apply Z.pow_pos_nonneg; lia).
    rewrite trailing_zero_bits_double by nia. lia.
Qed.

Lemma trailing_zero_bits_odd (v : Z) :
  0 < v -> Z.odd v = true ->
  JSNumber.trailing_zero_bits (Z.to_pos v) = O.
Proof. destruct v as [|[v|v|]|v]; try lia; intros _ H; try reflexivity; discriminate. Qed.

(** A positive integer is its odd part times a power of two. *)
Lemma trailing_zero_bits_spec (v : Z) :
  0 < v ->
  let t := Z.of_nat (JSNumber.trailing_zero_bits (Z.to_pos v)) in
  v = v / 2 ^ t * 2 ^ t /\ Z.odd (v / 2 ^ t) = true.
Proof.
  destruct v as [|v|v]; try lia. intros _. cbn [Z.to_pos].
  induction v as [v IH|v IH|].
  - cbn [JSNumber.trailing_zero_bits Z.of_nat]. rewrite Z.pow_0_r, Z.div_1_r.
    split; [lia|reflexivity].
  - cbn [JSNumber.trailing_zero_bits]. rewrite Nat2Z.inj_succ.
    set (t := Z.of_nat (JSNumber.trailing_zero_bits v)) in *.
    assert (Ht : 0 <= t) by (unfold t; lia).
    cbv zeta in IH. destruct IH as [IH1 IH2].
    rewrite Z.pow_succ_r by lia.
    assert (0 < 2 ^ t) by (apply Z.pow_pos_nonneg; lia).
    replace (Z.pos v~0) with (Z.pos v * 2) by lia.
    replace (2 * 2 ^ t) with (2 ^ t * 2) by ring.
    rewrite Z.div_mul_cancel_r by lia.
    split; [|exact IH2]. lia.
  - cbn [JSNumber.trailing_zero_bits Z.of_nat]. rewrite Z.pow_0_r, Z.div_1_r.
    split; [lia|reflexivity].
Qed.

(** [(2 m) * 2^(e-1)] and [m * 2^e] are written the same way. *)
Lemma make_number_double (negative : bool) (m e : Z) :
  0 < m ->
  JSNumber.make_number negative (2 * m) (e - 1)
  = JSNumber.make_number negative m e.
Proof.
  intros Hm. unfold JSNumber.make_number.
  rewrite trailing_zero_bits_double by exact Hm. rewrite Nat2Z.inj_succ.
  set (t := Z.of_nat (JSNumber.trailing_zero_bits (Z.to_pos m))).
  assert (Ht : 0 <= t) by (unfold t; lia).
  destruct (Z.leb_spec 0 (e - 1)) as [He|He].
  - destruct (Z.leb_spec 0 e); [|lia].
    replace (2 * m * 2 ^ (e - 1)) with (m * 2 ^ e); [reflexivity|].
    replace e with (Z.succ (e - 1)) at 1 by lia.
    rewrite Z.pow_succ_r by lia. ring.
  - destruct (Z.leb_spec 0 e) as [He'|He'].
    + assert (e = 0) by lia. subst e.
      replace (Z.min (Z.succ t) (- (0 - 1))) with 1 by lia.
      rewrite Z.pow_1_r, Z.pow_0_r.
      replace (2 * m / 2) with m by (rewrite Z.mul_comm, Z.div_mul; lia).
      replace (0 - 1 + 1 =? 0) with true by reflexivity.
      now rewrite Z.mul_1_r.
    + replace (Z.min (Z.succ t) (- (e - 1))) with (Z.succ (Z.min t (- e)))
        by lia.
      set (u := Z.min t (- e)). assert (0 <= u) by lia.
      rewrite Z.pow_succ_r by lia.
      assert (0 < 2 ^ u) by (apply Z.pow_pos_nonneg; lia).
      rewrite Z.div_mul_cancel_l by lia.
      replace (e - 1 + Z.succ u) with (e + u) by lia.
      reflexivity.
Qed.

(** A ratio near enough to the double [M * 2^E] rounds to it: nearer
    than half the distance to the next double and, below the least
    significand of 53 bits, nearer than a quarter of it. *)
Lemma round_ratio_near (negative : bool) (p q M E : Z) :
  0 < p -> 0 < q ->
  0 < M < 2 ^ 53 -> -1074 <= E <= 971 ->
  (2 ^ 52 <= M \/ E = -1074) ->
  (2 * M - 1) * (q * pow_num 2 E) < 2 * (p * pow_den 2 E)
    < (2 * M + 1) * (q * pow_num 2 E) ->
  (M = 2 ^ 52 -> -1074 < E ->
     (4 * M - 1) * (q * pow_num 2 E) < 4 * (p * pow_den 2 E)) ->
  JSNumber.round_ratio negative p q = JSNumber.make_number negative M E.
Proof.
  intros Hp Hq HM HE Hnormal Hnear Hquarter.
  rewrite round_ratio_unfold. cbv zeta.
  pose proof (binary_exponent_spec p q Hp Hq) as Hl.
  set (l := JSNumber.binary_exponent p q) in *.
  pose proof (pow_num_pos 2 E ltac:(lia)) as HupE.
  pose proof (pow_den_pos 2 E ltac:(lia)) as HdnE.
  set (A := p * pow_den 2 E) in *. set (B := q * pow_num 2 E) in *.
  assert (HB : 0 < B) by (unfold B; nia).
  assert (HlogM : Z.log2 M + E < 1024).
  { assert (Z.log2 M < 53) by (apply Z.log2_lt_pow2; lia). lia. }
  assert (Hsame : Z.max (l - 52) (-1074) = E ->
    (let e2 := Z.max (l - 52) (-1074) in
     let m := JSNumber.nearest (p * pow_den 2 e2) (q * pow_num 2 e2) in
     if m =? 0 then (if negative then NegZero else Integer 0)
     else if 1024 <=? Z.log2 m + e2
          then (if negative then NegInfinity else Infinity)
          else JSNumber.make_number negative m e2)
    = JSNumber.make_number negative M E).
  { intros ->. cbv zeta. fold A B.
    rewrite (nearest_spec A B M HB Hnear).
    destruct (Z.eqb_spec M 0); [lia|].
    destruct (Z.leb_spec 1024 (Z.log2 M + E)); [lia|reflexivity]. }
  destruct (Z.le_gt_cases (2 ^ 52 * B) A) as [Hbig|Hsmall].
  - (* the ratio is in the binade of [M * 2^E] *)
    apply Hsame.
    assert (l = E + 52); [|lia].
    symmetry. apply (in_interval_unique 2 p q); try lia; [|exact Hl].
    split.
    + apply ratio_le_shift; [lia|lia|]. exact Hbig.
    + replace (E + 52 + 1) with (E + 53) by lia.
      apply ratio_lt_shift; [lia|lia|]. fold A B. nia.
  - assert (Hlt : l < E + 52).
    { apply (in_interval_lt 2 p q l (E + 52)); try lia; [exact Hl|].
      apply ratio_lt_shift; [lia|lia|]. exact Hsmall. }
    destruct (Z.eq_dec E (-1074)) as [HE'|HE'].
    + apply Hsame. lia.
    + (* just below the binade: the ratio rounds up to [2^53 * 2^(E-1)] *)
      assert (HM' : M = 2 ^ 52) by nia.
      specialize (Hquarter HM' ltac:(lia)).
      assert (Hl' : l = E + 51).
      { symmetry. apply (in_interval_unique 2 p q); try lia; [|exact Hl].
        split.
        - apply ratio_le_shift; [lia|lia|]. fold A B. nia.
        - replace (E + 51 + 1) with (E + 52) by lia.
          apply ratio_lt_shift; [lia|lia|]. exact Hsmall. }
      replace (Z.max (l - 52) (-1074)) with (E - 1) by lia.
      pose proof (pow_shift 2 (E - 1) 1 ltac:(lia) ltac:(lia)) as Hs.
      replace (E - 1 + 1) with E in Hs by lia. rewrite Z.pow_1_r in Hs.
      pose proof (pow_num_pos 2 (E - 1) ltac:(lia)).
      pose proof (pow_den_pos 2 (E - 1) ltac:(lia)).
      set (A' := p * pow_den 2 (E - 1)). set (B' := q * pow_num 2 (E - 1)).
      assert (HAB : A' * B = 2 * (A * B')) by (unfold A', B, A, B'; nia).
      assert (HB' : 0 < B') by (unfold B'; nia).
      assert (Hn : JSNumber.nearest A' B' = 2 ^ 53).
      { apply nearest_spec; [exact HB'|]. subst M. split.
        - assert ((2 * 2 ^ 53 - 1) * B' * B < 2 * A' * B) by nia. nia.
        - assert (2 * A' * B < (2 * 2 ^ 53 + 1) * B' * B) by nia. nia. }
      rewrite Hn.
      replace (2 ^ 53 =? 0) with false by reflexivity.
      replace (Z.log2 (2 ^ 53)) with 53 by reflexivity.
      destruct (Z.leb_spec 1024 (53 + (E - 1))); [lia|].
      subst M. change (2 ^ 53) with (2 * 2 ^ 52).
      apply make_number_double. lia.
Qed.
(* ===================================================================== *)
(** * The doubles                                                         *)
(* ===================================================================== *)

Lemma make_number_integer (negative : bool) (v j : Z) :
  0 < v -> 0 <= j ->
  JSNumber.make_number negative (v * 2 ^ j) (- j)
  = Integer (if negative then - v else v).
Proof.
  intros Hv Hj. unfold JSNumber.make_number.
  destruct (Z.leb_spec 0 (- j)) as [H0|H0].
  - assert (j = 0) by lia. subst j. cbn [Z.opp].
    now rewrite Z.pow_0_r, !Z.mul_1_r.
  - rewrite trailing_zero_bits_pow2 by lia.
    replace (Z.min _ (- - j)) with j by lia.
    assert (0 < 2 ^ j) by (apply Z.pow_pos_nonneg; lia).
    rewrite Z.div_mul by lia.
    replace (- j + j =? 0) with true by (symmetry; apply Z.eqb_eq; lia).
    reflexivity.
Qed.

Lemma make_number_fraction (negative : bool) (v j : Z) (e : positive) :
  0 < v -> Z.odd v = true -> 0 <= j ->
  JSNumber.make_number negative (v * 2 ^ j) (- (j + Z.pos e))
  = Fraction (if negative then - v else v) e.
Proof.
  intros Hv Hodd Hj. unfold JSNumber.make_number.
  destruct (Z.leb_spec 0 (- (j + Z.pos e))) as [H0|H0]; [lia|].
  rewrite trailing_zero_bits_pow2 by lia.
  rewrite trailing_zero_bits_odd by assumption. cbn [Z.of_nat Z.add].
  replace (Z.min j (- - (j + Z.pos e))) with j by lia.
  assert (0 < 2 ^ j) by (apply Z.pow_pos_nonneg; lia).
  rewrite Z.div_mul by lia.
  destruct (Z.eqb_spec (- (j + Z.pos e) + j) 0) as [E0|E0]; [lia|].
  f_equal. replace (- (- (j + Z.pos e) + j)) with (Z.pos e) by lia.
  reflexivity.
Qed.

(** A double other than zero is [M * 2^E] for a significand [M] of 53
    bits, or of fewer bits at the least exponent. *)
Lemma double_normal_form (x : number) :
  JSNumber.json_number x = true -> x <> Integer 0 ->
  let p := fst (JSNumber.magnitude x) in
  let q := snd (JSNumber.magnitude x) in
  0 < p /\ 0 < q /\
  exists M E,
    0 < M < 2 ^ 53 /\ -1074 <= E <= 971
    /\ (2 ^ 52 <= M \/ E = -1074)
    /\ p * pow_den 2 E = M * (q * pow_num 2 E)
    /\ JSNumber.make_number (JSNumber.is_negative x) M E = x
    /\ JSNumber.make_number false M E = JSNumber.abs x.
Proof.
  destruct x as [n|m e| | | |]; try discriminate; intros Hd Hnz; cbv zeta;
    cbn [JSNumber.magnitude fst snd JSNumber.is_negative JSNumber.abs];
    cbn [JSNumber.json_number JSNumber.is_double] in Hd.
  - (* an integer *)
    assert (Hn : n <> 0) by congruence.
    destruct (Z.eqb_spec n 0) as [|_]; [contradiction|]. cbn [orb] in Hd.
    apply andb_prop in Hd as [Hodd Hmax].
    apply Z.ltb_lt in Hodd. apply Z.ltb_lt in Hmax.
    set (p := Z.abs n) in *. assert (Hp : 0 < p) by (unfold p; lia).
    assert (Hsigned : (if n <? 0 then - p else p) = n)
      by (unfold p; destruct (Z.ltb_spec n 0); lia).
    split; [exact Hp|]. split; [lia|].
    destruct (Z.log2_spec p Hp) as [Hl Hu]. rewrite <- Z.add_1_r in Hu.
    pose proof (Z.log2_nonneg p) as Hl0.
    set (l := Z.log2 p) in *.
    destruct (Z.le_gt_cases l 52) as [Hsmall|Hbig].
    + exists (p * 2 ^ (52 - l)), (l - 52).
      assert (Hpow : 2 ^ l * 2 ^ (52 - l) = 2 ^ 52)
        by (rewrite <- Z.pow_add_r by lia; f_equal; lia).
      assert (Hpow' : 2 ^ (l + 1) * 2 ^ (52 - l) = 2 ^ 53)
        by (rewrite <- Z.pow_add_r by lia; f_equal; lia).
      assert (0 < 2 ^ (52 - l)) by (apply Z.pow_pos_nonneg; lia).
      refine (conj _ (conj _ (conj _ (conj _ (conj _ _))))).
      * nia.
      * lia.
      * left. nia.
      * rewrite pow_den_nonpos, pow_num_nonpos by lia.
        replace (- (l - 52)) with (52 - l) by lia. ring.
      * replace (l - 52) with (- (52 - l)) by lia.
        rewrite make_number_integer by lia. now rewrite Hsigned.
      * replace (l - 52) with (- (52 - l)) by lia.
        now rewrite make_number_integer by lia.
    + destruct (trailing_zero_bits_spec p Hp) as [Hfactor Hoddpart].
      set (t := Z.of_nat (JSNumber.trailing_zero_bits (Z.to_pos p))) in *.
      assert (Ht : 0 <= t) by (unfold t; lia).
      set (o := p / 2 ^ t) in *.
      assert (Ho : 0 < o).
      { assert (0 < 2 ^ t) by (apply Z.pow_pos_nonneg; lia). nia. }
      assert (Hlo : l = t + Z.log2 o).
      { unfold l. rewrite Hfactor. apply Z.log2_mul_pow2; lia. }
      assert (Z.log2 o < 53) by (apply Z.log2_lt_pow2; lia).
      set (E := l - 52).
      exists (o * 2 ^ (t - E)), E.
      assert (HpE : p = o * 2 ^ (t - E) * 2 ^ E).
      { rewrite <- Z.mul_assoc, <- Z.pow_add_r by lia.
        replace (t - E + E) with t by lia. exact Hfactor. }
      assert (0 < 2 ^ (t - E)) by (apply Z.pow_pos_nonneg; lia).
      assert (0 < 2 ^ E) by (apply Z.pow_pos_nonneg; lia).
      assert (Hpow : 2 ^ 52 * 2 ^ E = 2 ^ l)
        by (rewrite <- Z.pow_add_r by lia; f_equal; lia).
      assert (Hpow' : 2 ^ 53 * 2 ^ E = 2 ^ (l + 1))
        by (rewrite <- Z.pow_add_r by lia; f_equal; lia).
      assert (l < 1024) by (apply Z.log2_lt_pow2; lia).
      refine (conj _ (conj _ (conj _ (conj _ (conj _ _))))).
      * nia.
      * unfold E. lia.
      * left. nia.
      * rewrite pow_den_nonneg, pow_num_nonneg by lia. lia.
      * unfold JSNumber.make_number.
        destruct (Z.leb_spec 0 E); [|lia].
        rewrite <- HpE. now rewrite Hsigned.
      * unfold JSNumber.make_number.
        destruct (Z.leb_spec 0 E); [|lia].
        now rewrite <- HpE.
  - (* a fraction *)
    apply andb_prop in Hd as [Hd He]. apply andb_prop in Hd as [Hodd Hm].
    apply Z.ltb_lt in Hm. apply Z.leb_le in He.
    set (p := Z.abs m) in *.
    assert (Hp : 0 < p) by (unfold p; destruct m; [discriminate|lia|lia]).
    assert (Hoddp : Z.odd p = true)
      by (unfold p; destruct m; [discriminate|exact Hodd|exact Hodd]).
    assert (Hsigned : (if m <? 0 then - p else p) = m)
      by (unfold p; destruct (Z.ltb_spec m 0); lia).
    assert (Hq : 0 < 2 ^ Z.pos e) by (apply Z.pow_pos_nonneg; lia).
    split; [exact Hp|]. split; [exact Hq|].
    destruct (Z.log2_spec p Hp) as [Hl Hu]. rewrite <- Z.add_1_r in Hu.
    pose proof (Z.log2_nonneg p) as Hl0.
    assert (Hl53 : Z.log2 p < 53) by (apply Z.log2_lt_pow2; lia).
    set (l := Z.log2 p) in *.
    set (j := Z.min (52 - l) (1074 - Z.pos e)).
    assert (Hj : 0 <= j) by lia.
    exists (p * 2 ^ j), (- (j + Z.pos e)).
    assert (0 < 2 ^ j) by (apply Z.pow_pos_nonneg; lia).
    assert (Hpow : 2 ^ (l + 1) * 2 ^ j <= 2 ^ 53).
    { rewrite <- Z.pow_add_r by lia. apply Z.pow_le_mono_r; lia. }
    refine (conj _ (conj _ (conj _ (conj _ (conj _ _))))).
    + nia.
    + lia.
    + destruct (Z.le_gt_cases (52 - l) (1074 - Z.pos e)) as [Hc|Hc].
      * left. replace j with (52 - l) by lia.
        assert (2 ^ l * 2 ^ (52 - l) = 2 ^ 52)
          by (rewrite <- Z.pow_add_r by lia; f_equal; lia).
        assert (0 < 2 ^ (52 - l)) by (apply Z.pow_pos_nonneg; lia).
        nia.
      * right. lia.
    + rewrite pow_den_nonpos, pow_num_nonpos by lia.
      rewrite Z.opp_involutive, Z.pow_add_r by lia. ring.
    + rewrite make_number_fraction by assumption. now rewrite Hsigned.
    + now rewrite make_number_fraction by assumption.
Qed.
(* ===================================================================== *)
(** * Strings of decimal digits                                           *)
(* ===================================================================== *)

Lemma to_uint_normal (p : positive) : unorm (Pos.to_uint p) = Pos.to_uint p.
Proof.
  rewrite <- (DecimalPos.Unsigned.to_of (Pos.to_uint p)).
  now rewrite DecimalPos.Unsigned.of_to.
Qed.

Lemma nzhead_not_D0 (d d' : uint) : nzhead d <> D0 d'.
Proof. induction d; simpl; try discriminate. exact IHd. Qed.

Lemma to_uint_no_leading_zero (p : positive) (d : uint) :
  Pos.to_uint p <> D0 d.
Proof.
  intros E. pose proof (to_uint_normal p) as N. rewrite E in N.
  rewrite DecimalFacts.unorm_D0 in N. unfold unorm in N.
  destruct (nzhead d) eqn:Hd; try discriminate.
  - assert (d = Nil) by (change (D0 Nil = D0 d) in N; congruence). subst d.
    now apply (DecimalPos.Unsigned.to_uint_nonzero p).
  - now apply (nzhead_not_D0 d u).
Qed.

Lemma all_digits_cons (c : ascii) (s : string) :
  all_digits (String c s) = (JSON.is_digit c && all_digits s)%bool.
Proof. reflexivity. Qed.

Lemma all_digits_app (a b : string) :
  all_digits (a ++ b) = (all_digits a && all_digits b)%bool.
Proof.
  induction a as [|c a IH]; [reflexivity|].
  cbn [append]. rewrite !all_digits_cons, IH. now rewrite andb_assoc.
Qed.

(** The value of a digit followed by digits. *)
Lemma of_uint_cons (d : uint) :
  let w := 10 ^ Z.of_nat (nb_digits d) in
  Z.of_uint (D0 d) = Z.of_uint d
  /\ Z.of_uint (D1 d) = 1 * w + Z.of_uint d
  /\ Z.of_uint (D2 d) = 2 * w + Z.of_uint d
  /\ Z.of_uint (D3 d) = 3 * w + Z.of_uint d
  /\ Z.of_uint (D4 d) = 4 * w + Z.of_uint d
  /\ Z.of_uint (D5 d) = 5 * w + Z.of_uint d
  /\ Z.of_uint (D6 d) = 6 * w + Z.of_uint d
  /\ Z.of_uint (D7 d) = 7 * w + Z.of_uint d
  /\ Z.of_uint (D8 d) = 8 * w + Z.of_uint d
  /\ Z.of_uint (D9 d) = 9 * w + Z.of_uint d.
Proof.
  cbv zeta.
  assert (Hsize : Z.of_N (DecimalPos.Unsigned.usize d)
                  = Z.of_nat (nb_digits d)).
  { induction d; cbn [DecimalPos.Unsigned.usize nb_digits]; lia. }
  assert (H : forall d', Z.of_N (DecimalPos.Unsigned.of_lu (revapp d d'))
                         = Z.of_uint d
                           + Z.of_N (DecimalPos.Unsigned.of_lu d')
                             * 10 ^ Z.of_nat (nb_digits d)).
  { intros d'. rewrite DecimalPos.Unsigned.of_lu_revapp.
    rewrite N2Z.inj_add, N2Z.inj_mul, N2Z.inj_pow, Hsize.
    unfold Z.of_uint. now rewrite DecimalPos.Unsigned.of_uint_alt. }
  repeat split;
    try (unfold Z.of_uint at 1; rewrite DecimalPos.Unsigned.of_uint_alt;
         unfold rev; cbn [revapp]; rewrite H;
         cbn [DecimalPos.Unsigned.of_lu]; lia).
Qed.

(** A string of digits is the text of a decimal of as many digits. *)
Lemma uint_of_digits (s : string) :
  all_digits s = true ->
  exists d, NilEmpty.uint_of_string s = Some d
            /\ nb_digits d = String.length s.
Proof.
  induction s as [|c s IH]; intros H.
  - exists Nil. split; reflexivity.
  - rewrite all_digits_cons in H. apply andb_prop in H as [Hc Hs].
    destruct (IH Hs) as (d & Hd & Hn).
    cbn [NilEmpty.uint_of_string String.length]. rewrite Hd.
    revert Hc. destruct c as [[] [] [] [] [] [] [] []];
      try discriminate; intros _; cbn [uint_of_char];
      eexists; (split; [reflexivity|cbn [nb_digits]; now rewrite Hn]).
Qed.

Lemma digits_value_empty : JSON.digits_value EmptyString = 0.
Proof. reflexivity. Qed.

Lemma digits_value_cons (c : ascii) (s : string) :
  all_digits (String c s) = true ->
  JSON.digits_value (String c s)
  = (Z.of_nat (nat_of_ascii c) - 48) * 10 ^ Z.of_nat (String.length s)
    + JSON.digits_value s.
Proof.
  intros H. rewrite all_digits_cons in H. apply andb_prop in H as [Hc Hs].
  destruct (uint_of_digits s Hs) as (d & Hd & Hn).
  unfold JSON.digits_value. cbn [NilEmpty.uint_of_string]. rewrite Hd.
  rewrite <- Hn.
  destruct (of_uint_cons d) as (H0 & H1 & H2 & H3 & H4 & H5 & H6 & H7 & H8 & H9).
  revert Hc. destruct c as [[] [] [] [] [] [] [] []];
    try discriminate; intros _; cbn [uint_of_char];
    change (Z.of_nat (nat_of_ascii _) - 48) with 0 +
    change (Z.of_nat (nat_of_ascii _) - 48) with 1 +
    change (Z.of_nat (nat_of_ascii _) - 48) with 2 +
    change (Z.of_nat (nat_of_ascii _) - 48) with 3 +
    change (Z.of_nat (nat_of_ascii _) - 48) with 4 +
    change (Z.of_nat (nat_of_ascii _) - 48) with 5 +
    change (Z.of_nat (nat_of_ascii _) - 48) with 6 +
    change (Z.of_nat (nat_of_ascii _) - 48) with 7 +
    change (Z.of_nat (nat_of_ascii _) - 48) with 8 +
    change (Z.of_nat (nat_of_ascii _) - 48) with 9; lia.
Qed.

Lemma digit_range (c : ascii) :
  JSON.is_digit c = true -> 0 <= Z.of_nat (nat_of_ascii c) - 48 <= 9.
Proof.
  unfold JSON.is_digit. intros H. apply andb_prop in H as [H1 H2].
  apply Nat.leb_le in H1. apply Nat.leb_le in H2. lia.
Qed.

Lemma digit_nonzero (c : ascii) :
  JSON.is_digit c = true -> Ascii.eqb c "0" = false ->
  1 <= Z.of_nat (nat_of_ascii c) - 48.
Proof.
  destruct c as [[] [] [] [] [] [] [] []]; try discriminate; intros _ H;
    try discriminate; cbn; lia.
Qed.

Lemma digits_value_bounds (s : string) :
  all_digits s = true ->
  0 <= JSON.digits_value s < 10 ^ Z.of_nat (String.length s).
Proof.
  induction s as [|c s IH]; intros H; [cbn; lia|].
  rewrite (digits_value_cons c s H).
  rewrite all_digits_cons in H. apply andb_prop in H as [Hc Hs].
  specialize (IH Hs). pose proof (digit_range c Hc).
  cbn [String.length]. rewrite Nat2Z.inj_succ, Z.pow_succ_r by lia.
  nia.
Qed.

Lemma digits_value_app (a b : string) :
  all_digits a = true -> all_digits b = true ->
  JSON.digits_value (a ++ b)
  = JSON.digits_value a * 10 ^ Z.of_nat (String.length b)
    + JSON.digits_value b.
Proof.
  intros Ha Hb. induction a as [|c a IH]; [cbn [append]; cbn; lia|].
  cbn [append].
  rewrite digits_value_cons
    by (rewrite all_digits_cons, all_digits_app;
        rewrite all_digits_cons in Ha; apply andb_prop in Ha as [-> ->];
        now rewrite Hb).
  rewrite (digits_value_cons c a Ha).
  rewrite all_digits_cons in Ha. apply andb_prop in Ha as [Hc Ha].
  rewrite (IH Ha), String_length_append, Nat2Z.inj_add, Z.pow_add_r by lia.
  ring.
Qed.

(** A string of digits that does not start with [0] has a value of as
    many digits. *)
Lemma digits_value_lower (c : ascii) (s : string) :
  all_digits (String c s) = true -> Ascii.eqb c "0" = false ->
  10 ^ Z.of_nat (String.length s) <= JSON.digits_value (String c s).
Proof.
  intros H Hc. rewrite (digits_value_cons c s H).
  rewrite all_digits_cons in H. apply andb_prop in H as [Hd Hs].
  pose proof (digit_nonzero c Hd Hc). pose proof (digits_value_bounds s Hs).
  nia.
Qed.

Lemma zeros_length (n : nat) : String.length (JSNumber.zeros n) = n.
Proof. induction n; cbn [JSNumber.zeros String.length]; congruence. Qed.

Lemma zeros_digits (n : nat) : all_digits (JSNumber.zeros n) = true.
Proof. induction n; [reflexivity|exact IHn]. Qed.

Lemma zeros_value (n : nat) : JSON.digits_value (JSNumber.zeros n) = 0.
Proof.
  induction n as [|n IH]; [reflexivity|].
  cbn [JSNumber.zeros].
  rewrite digits_value_cons by (apply (zeros_digits (S n))).
  rewrite IH. cbn. lia.
Qed.

(** The text of a positive integer: digits, the first of them not [0],
    whose value is the integer. *)
Lemma number_to_string_positive (v : Z) :
  0 < v ->
  all_digits (number_to_string v) = true
  /\ JSON.digits_value (number_to_string v) = v
  /\ exists c s, number_to_string v = String c s
                 /\ Ascii.eqb c "0" = false.
Proof.
  intros Hv. split; [apply number_to_string_digits; lia|].
  destruct v as [|p|p]; try lia.
  unfold number_to_string. cbn [Z.to_int NilZero.string_of_int].
  rewrite string_of_to_uint. split.
  - unfold JSON.digits_value. rewrite NilEmpty.usu.
    unfold Z.of_uint. now rewrite DecimalPos.Unsigned.of_to.
  - pose proof (to_uint_no_leading_zero p) as H0.
    pose proof (DecimalPos.Unsigned.to_uint_nonnil p) as Hnil.
    destruct (Pos.to_uint p) as [|d|d|d|d|d|d|d|d|d|d];
      [congruence|exfalso; now apply (H0 d)|..];
      cbn [NilEmpty.string_of_uint]; eexists; eexists;
      (split; [reflexivity|reflexivity]).
Qed.

(** The number of digits of a positive integer. *)
Lemma decimal_digits_spec (v : Z) :
  0 < v ->
  1 <= JSNumber.decimal_digits v
  /\ 10 ^ (JSNumber.decimal_digits v - 1) <= v
       < 10 ^ JSNumber.decimal_digits v.
Proof.
  intros Hv. unfold JSNumber.decimal_digits.
  destruct (number_to_string_positive v Hv) as (Hd & Hval & c & s & E & Hc).
  rewrite E in *. cbn [String.length]. rewrite Nat2Z.inj_succ.
  replace (Z.succ (Z.of_nat (String.length s)) - 1)
    with (Z.of_nat (String.length s)) by lia.
  pose proof (digits_value_lower c s Hd Hc) as Hl.
  pose proof (digits_value_bounds (String c s) Hd) as Hu.
  cbn [String.length] in Hu. rewrite Nat2Z.inj_succ in Hu.
  rewrite Hval in *. lia.
Qed.

Lemma decimal_digits_unique (v d : Z) :
  10 ^ (d - 1) <= v < 10 ^ d -> 0 < v -> JSNumber.decimal_digits v = d.
Proof.
  intros [Hl Hu] Hv.
  destruct (decimal_digits_spec v Hv) as (H1 & Hl' & Hu').
  set (d' := JSNumber.decimal_digits v) in *.
  assert (Hd : 1 <= d).
  { destruct (Z.lt_ge_cases d 1) as [Hd|Hd]; [|exact Hd].
    destruct (Z.eq_dec d 0) as [->|]; [cbn in Hu; lia|].
    rewrite Z.pow_neg_r in Hu by lia. lia. }
  destruct (Z.lt_trichotomy d d') as [Hlt|[Heq|Hgt]]; [|exact (eq_sym Heq)|].
  - assert (10 ^ d <= 10 ^ (d' - 1)) by (apply Z.pow_le_mono_r; lia). lia.
  - assert (10 ^ d' <= 10 ^ (d - 1)) by (apply Z.pow_le_mono_r; lia). lia.
Qed.

Lemma decimal_digits_scale (v z : Z) :
  0 < v -> 0 <= z ->
  JSNumber.decimal_digits (v * 10 ^ z) = JSNumber.decimal_digits v + z.
Proof.
  intros Hv Hz. destruct (decimal_digits_spec v Hv) as (H1 & Hl & Hu).
  assert (0 < 10 ^ z) by (apply Z.pow_pos_nonneg; lia).
  apply decimal_digits_unique; [|nia].
  replace (JSNumber.decimal_digits v + z - 1)
    with (JSNumber.decimal_digits v - 1 + z) by lia.
  rewrite !Z.pow_add_r by lia. nia.
Qed.

(** The text without its last zeros, and the zeros. *)
Lemma strip_zeros_cons (c : ascii) (s : string) :
  Ascii.eqb c "0" = false ->
  JSNumber.strip_zeros (String c s) = String c (JSNumber.strip_zeros s).
Proof.
  intros Hc. cbn [JSNumber.strip_zeros].
  destruct (JSNumber.strip_zeros s); [now rewrite Hc|reflexivity].
Qed.

Lemma strip_zeros_spec (s : string) :
  exists z, s = JSNumber.strip_zeros s ++ JSNumber.zeros z.
Proof.
  induction s as [|c s (z & IH)]; [now exists O|].
  cbn [JSNumber.strip_zeros].
  destruct (JSNumber.strip_zeros s) as [|c' t] eqn:E.
  - destruct (Ascii.eqb_spec c "0") as [->|Hc].
    + exists (S z). cbn [append JSNumber.zeros]. now rewrite IH at 1.
    + exists z. cbn [append] in *. now rewrite IH at 1.
  - exists z. cbn [append] in *. now rewrite IH at 1.
Qed.

Lemma strip_zeros_digits (s : string) :
  all_digits s = true -> all_digits (JSNumber.strip_zeros s) = true.
Proof.
  intros H. destruct (strip_zeros_spec s) as (z & E).
  rewrite E, all_digits_app in H. now apply andb_prop in H as [? _].
Qed.
(* ===================================================================== *)
(** * The value of a decimal literal                                      *)
(* ===================================================================== *)

(** [round_decimal] with the two cases of the scaling written as one. *)
Lemma round_decimal_unfold (negative : bool) (s e : Z) :
  0 < s ->
  JSNumber.round_decimal negative s e
  = if 310 <? e + JSNumber.decimal_digits s
    then (if negative then NegInfinity else Infinity)
    else if e + JSNumber.decimal_digits s <? -330
         then (if negative then NegZero else Integer 0)
    else JSNumber.round_ratio negative (s * pow_num 10 e) (pow_den 10 e).
Proof.
  intros Hs. unfold JSNumber.round_decimal.
  destruct (Z.eqb_spec s 0); [lia|].
  destruct (Z.leb_spec 0 e).
  - now rewrite pow_num_nonneg, pow_den_nonneg by lia.
  - now rewrite pow_num_nonpos, pow_den_nonpos, Z.mul_1_r by lia.
Qed.

(** Zeros at the end of the digits count as exponent. *)
Lemma round_decimal_scale (negative : bool) (v z e : Z) :
  0 < v -> 0 <= z ->
  JSNumber.round_decimal negative (v * 10 ^ z) e
  = JSNumber.round_decimal negative v (e + z).
Proof.
  intros Hv Hz.
  assert (H10 : 0 < 10 ^ z) by (apply Z.pow_pos_nonneg; lia).
  rewrite !round_decimal_unfold by nia.
  rewrite decimal_digits_scale by assumption.
  replace (e + (JSNumber.decimal_digits v + z))
    with (e + z + JSNumber.decimal_digits v) by lia.
  destruct (310 <? e + z + JSNumber.decimal_digits v); [reflexivity|].
  destruct (e + z + JSNumber.decimal_digits v <? -330); [reflexivity|].
  pose proof (pow_shift 10 e z ltac:(lia) Hz) as Hs.
  pose proof (pow_num_pos 10 e ltac:(lia)).
  pose proof (pow_den_pos 10 e ltac:(lia)).
  pose proof (pow_num_pos 10 (e + z) ltac:(lia)).
  pose proof (pow_den_pos 10 (e + z) ltac:(lia)).
  rewrite <- (round_ratio_scale negative (v * 10 ^ z * pow_num 10 e)
                (pow_den 10 e) (pow_den 10 (e + z))) by nia.
  rewrite <- (round_ratio_scale negative (v * pow_num 10 (e + z))
                (pow_den 10 (e + z)) (pow_den 10 e)) by nia.
  f_equal; [|ring].
  replace (v * pow_num 10 (e + z) * pow_den 10 e)
    with (v * (pow_num 10 (e + z) * pow_den 10 e)) by ring.
  rewrite Hs. ring.
Qed.

(** The sign of a literal is the sign of its value. *)
Lemma make_number_sign (m e : Z) (x : number) :
  JSNumber.json_number x = true -> JSNumber.is_negative x = true ->
  JSNumber.make_number false m e = JSNumber.abs x ->
  JSNumber.make_number true m e = x.
Proof.
  unfold JSNumber.make_number. intros Hx Hneg.
  destruct x as [n|n k| | | |]; try discriminate;
    cbn [JSNumber.is_negative JSNumber.abs] in *; apply Z.ltb_lt in Hneg;
    destruct (0 <=? e); try discriminate;
    try (destruct (_ =? 0); try discriminate);
    intros [= H]; subst; f_equal; lia.
Qed.

Lemma round_ratio_sign (p q : Z) (x : number) :
  JSNumber.json_number x = true -> JSNumber.is_negative x = true ->
  JSNumber.round_ratio false p q = JSNumber.abs x ->
  JSNumber.round_ratio true p q = x.
Proof.
  intros Hx Hneg. unfold JSNumber.round_ratio. cbv zeta.
  destruct (_ =? 0).
  - destruct x as [n| | | | |]; try discriminate.
    cbn [JSNumber.is_negative JSNumber.abs] in *. apply Z.ltb_lt in Hneg.
    intros [= H]. lia.
  - destruct (1024 <=? _).
    + destruct x; discriminate.
    + now apply make_number_sign.
Qed.

Lemma round_decimal_sign (s e : Z) (x : number) :
  JSNumber.json_number x = true -> JSNumber.is_negative x = true ->
  JSNumber.round_decimal false s e = JSNumber.abs x ->
  JSNumber.round_decimal true s e = x.
Proof.
  intros Hx Hneg. unfold JSNumber.round_decimal.
  assert (Hzero : Integer 0 = JSNumber.abs x -> NegZero = x).
  { destruct x as [n| | | | |]; try discriminate.
    cbn [JSNumber.is_negative JSNumber.abs] in *. apply Z.ltb_lt in Hneg.
    intros [= H]. lia. }
  destruct (s =? 0); [exact Hzero|].
  destruct (310 <? _); [destruct x; discriminate|].
  destruct (_ <? -330); [exact Hzero|].
  destruct (0 <=? e); now apply round_ratio_sign.
Qed.

(* ===================================================================== *)
(** * The decimal exponent of a ratio                                     *)
(* ===================================================================== *)

Lemma decimal_exponent_spec (p q : Z) :
  0 < p -> 0 < q ->
  let n := JSNumber.decimal_exponent p q in
  q * pow_num 10 (n - 1) <= p * pow_den 10 (n - 1)
  /\ p * pow_den 10 n < q * pow_num 10 n.
Proof.
  intros Hp Hq. cbv zeta. unfold JSNumber.decimal_exponent.
  destruct (Z.leb_spec q p) as [Hle|Hlt].
  - pose proof (Z.div_mod p q ltac:(lia)) as Hdm.
    pose proof (Z.mod_pos_bound p q Hq) as Hr.
    assert (Hf : 0 < p / q) by (apply Z.div_str_pos; lia).
    destruct (decimal_digits_spec (p / q) Hf) as (H1 & Hl & Hu).
    set (n := JSNumber.decimal_digits (p / q)) in *.
    rewrite !pow_num_nonneg, !pow_den_nonneg by lia.
    split; nia.
  - destruct (decimal_digits_spec p Hp) as (Hp1 & Hpl & Hpu).
    destruct (decimal_digits_spec q Hq) as (Hq1 & Hql & Hqu).
    set (dp := JSNumber.decimal_digits p) in *.
    set (dq := JSNumber.decimal_digits q) in *.
    assert (Hd : dp <= dq).
    { destruct (Z.le_gt_cases dp dq) as [|Hgt]; [assumption|].
      assert (10 ^ dq <= 10 ^ (dp - 1)) by (apply Z.pow_le_mono_r; lia).
      lia. }
    assert (Hlow : p * 10 ^ (dq - dp) < 10 * q).
    { assert (10 ^ dp * 10 ^ (dq - dp) = 10 * 10 ^ (dq - 1)).
      { rewrite <- Z.pow_add_r by lia. rewrite <- Z.pow_succ_r by lia.
        f_equal. lia. }
      assert (0 < 10 ^ (dq - dp)) by (apply Z.pow_pos_nonneg; lia).
      nia. }
    assert (Hhigh : q < p * 10 ^ (dq - dp + 1)).
    { assert (10 ^ (dp - 1) * 10 ^ (dq - dp + 1) = 10 ^ dq).
      { rewrite <- Z.pow_add_r by lia. f_equal. lia. }
      assert (0 < 10 ^ (dq - dp + 1)) by (apply Z.pow_pos_nonneg; lia).
      nia. }
    assert (Hsucc : 10 ^ (dq - dp + 1) = 10 * 10 ^ (dq - dp)).
    { rewrite <- Z.pow_succ_r by lia. f_equal. }
    set (j0 := dq - dp) in *.
    assert (Hj : exists j, (if q <=? p * 10 ^ j0 then j0 else j0 + 1) = j
                           /\ 1 <= j /\ q <= p * 10 ^ j
                           /\ p * 10 ^ j < 10 * q).
    { destruct (Z.leb_spec q (p * 10 ^ j0)) as [Ht|Ht].
      - exists j0. repeat split; try assumption.
        destruct (Z.eq_dec j0 0) as [E0|]; [|lia].
        rewrite E0, Z.pow_0_r in Ht. lia.
      - exists (j0 + 1). repeat split; try lia. }
    destruct Hj as (j & -> & Hj1 & Hjl & Hju).
    replace (1 - j - 1) with (- j) by lia.
    rewrite !pow_num_nonpos, !pow_den_nonpos by lia.
    rewrite Z.opp_involutive.
    replace (- (1 - j)) with (j - 1) by lia.
    assert (10 ^ j = 10 * 10 ^ (j - 1)).
    { rewrite <- Z.pow_succ_r by lia. f_equal. lia. }
    split; nia.
Qed.
(* ===================================================================== *)
(** * The shortest digits that round to a double                          *)
(* ===================================================================== *)

Lemma JSNumber_eqb_refl (x : number) : JSNumber.eqb x x = true.
Proof.
  destruct x; cbn [JSNumber.eqb]; try reflexivity.
  - apply Z.eqb_refl.
  - now rewrite Z.eqb_refl, Pos.eqb_refl.
Qed.

(** [candidate] with the two cases of the scaling written as one. *)
Lemma candidate_unfold (x : number) (p q n k : Z) :
  JSNumber.candidate x p q n k
  = let num := p * pow_num 10 (k - n) in
    let den := q * pow_den 10 (k - n) in
    let lo := num / den in
    let r := num mod den in
    let hi := lo + 1 in
    match JSNumber.eqb (JSNumber.round_decimal false lo (n - k)) x,
          JSNumber.eqb (JSNumber.round_decimal false hi (n - k)) x with
    | true, true =>
        if 2 * r <? den then Some lo
        else if den <? 2 * r then Some hi
        else if Z.even lo then Some lo else Some hi
    | true, false => Some lo
    | false, true => Some hi
    | false, false => None
    end.
Proof.
  unfold JSNumber.candidate. cbv zeta.
  destruct (Z.leb_spec 0 (k - n)).
  - now rewrite pow_num_nonneg, pow_den_nonneg, Z.mul_1_r by lia.
  - now rewrite pow_num_nonpos, pow_den_nonpos, Z.mul_1_r by lia.
Qed.

(** The digits [candidate] finds round to the number. *)
Lemma candidate_sound (x : number) (p q n k s : Z) :
  0 < p -> 0 < q ->
  JSNumber.candidate x p q n k = Some s ->
  JSNumber.round_decimal false s (n - k) = x /\ 0 <= s.
Proof.
  intros Hp Hq. rewrite candidate_unfold. cbv zeta.
  pose proof (pow_num_pos 10 (k - n) ltac:(lia)).
  pose proof (pow_den_pos 10 (k - n) ltac:(lia)).
  set (num := p * pow_num 10 (k - n)). set (den := q * pow_den 10 (k - n)).
  assert (Hlo : 0 <= num / den) by (apply Z.div_pos; unfold num, den; nia).
  destruct (JSNumber.eqb (JSNumber.round_decimal false (num / den) (n - k)) x)
    eqn:Elo;
    destruct (JSNumber.eqb
                (JSNumber.round_decimal false (num / den + 1) (n - k)) x)
      eqn:Ehi;
    try discriminate;
    try apply JSNumber_eqb_eq in Elo; try apply JSNumber_eqb_eq in Ehi.
  - destruct (2 * (num mod den) <? den); [intros [= <-]; split; [assumption|lia]|].
    destruct (den <? 2 * (num mod den));
      [intros [= <-]; split; [assumption|lia]|].
    destruct (Z.even (num / den)); intros [= <-]; (split; [assumption|lia]).
  - intros [= <-]. split; [assumption|lia].
  - intros [= <-]. split; [assumption|lia].
Qed.

(** The search returns digits that [candidate] found, when there are
    such digits within its range. *)
Lemma shortest_found (x : number) (p q n : Z) (fuel : nat) :
  forall k j,
    (j < fuel)%nat ->
    JSNumber.candidate x p q n (k + Z.of_nat j) <> None ->
    exists s k',
      JSNumber.shortest x p q n fuel k = (s, k')
      /\ JSNumber.candidate x p q n k' = Some s.
Proof.
  induction fuel as [|fuel IH]; intros k j Hj Hc; [lia|].
  cbn [JSNumber.shortest].
  destruct (JSNumber.candidate x p q n k) as [s|] eqn:E.
  - now exists s, k.
  - destruct j as [|j].
    + exfalso. apply Hc. now rewrite Z.add_0_r.
    + apply (IH (k + 1) j); [lia|].
      replace (k + 1 + Z.of_nat j) with (k + Z.of_nat (S j)) by lia.
      exact Hc.
Qed.

(** A decimal within half a unit of its seventeenth digit of a double
    rounds to the double. *)
Lemma decimal_near_rounds (p q M E c t : Z) :
  0 < p -> 0 < q -> 0 < c ->
  0 < M < 2 ^ 53 -> -1074 <= E <= 971 ->
  (2 ^ 52 <= M \/ E = -1074) ->
  p * pow_den 2 E = M * (q * pow_num 2 E) ->
  10 ^ 16 * (q * pow_den 10 t) <= p * pow_num 10 t ->
  2 * Z.abs (c * (q * pow_den 10 t) - p * pow_num 10 t) <= q * pow_den 10 t ->
  JSNumber.round_ratio false (c * pow_den 10 t) (pow_num 10 t)
  = JSNumber.make_number false M E.
Proof.
  intros Hp Hq Hc HM HE Hnormal Hexact H16 Hclose.
  pose proof (pow_num_pos 10 t ltac:(lia)) as HTp.
  pose proof (pow_den_pos 10 t ltac:(lia)) as HTm.
  pose proof (pow_num_pos 2 E ltac:(lia)) as HU.
  pose proof (pow_den_pos 2 E ltac:(lia)) as HD.
  set (Tp := pow_num 10 t) in *. set (Tm := pow_den 10 t) in *.
  set (U := pow_num 2 E) in *. set (D := pow_den 2 E) in *.
  set (a := Tm * D). set (b := Tp * U).
  assert (Ha : 0 < a) by (unfold a; nia).
  assert (Hb : 0 < b) by (unfold b; nia).
  assert (S1 : 10 ^ 16 * (q * a) <= M * (q * b)).
  { replace (M * (q * b)) with (M * (q * U) * Tp) by (unfold b; ring).
    rewrite <- Hexact.
    replace (10 ^ 16 * (q * a)) with (10 ^ 16 * (q * Tm) * D)
      by (unfold a; ring).
    replace (p * D * Tp) with (p * Tp * D) by ring.
    apply Z.mul_le_mono_nonneg_r; lia. }
  assert (Hqa : 0 < q * a) by nia. assert (Hqb : 0 < q * b) by nia.
  set (delta := c * (q * Tm) - p * Tp) in *.
  assert (Heq : c * Tm * D * q = delta * D + M * (q * b)).
  { unfold delta.
    replace ((c * (q * Tm) - p * Tp) * D)
      with (c * Tm * D * q - p * D * Tp) by ring.
    rewrite Hexact. unfold b. ring. }
  assert (Hdelta : 2 * Z.abs (delta * D) <= q * a).
  { rewrite Z.abs_mul, (Z.abs_eq D) by lia.
    replace (q * a) with (q * Tm * D) by (unfold a; ring).
    replace (2 * (Z.abs delta * D)) with (2 * Z.abs delta * D) by ring.
    apply Z.mul_le_mono_nonneg_r; lia. }
  assert (Hab : q * a < q * b).
  { assert (HK : 2 ^ 53 < 10 ^ 16) by reflexivity.
    remember (2 ^ 53) as K53 eqn:EK53. remember (10 ^ 16) as K16 eqn:EK16.
    assert (M * (q * b) < K16 * (q * b))
      by (apply Z.mul_lt_mono_pos_r; lia).
    assert (K16 * (q * a) < K16 * (q * b)) by lia.
    apply (Z.mul_lt_mono_pos_l K16); lia. }
  assert (Hab' : M = 2 ^ 52 -> 2 * (q * a) < q * b).
  { intros HM'.
    assert (HK : 2 * 2 ^ 52 < 10 ^ 16) by reflexivity.
    remember (2 ^ 52) as K52 eqn:EK52. remember (10 ^ 16) as K16 eqn:EK16.
    subst M.
    assert (2 * (K16 * (q * a)) <= 2 * K52 * (q * b)) by lia.
    assert (2 * K52 * (q * b) < K16 * (q * b))
      by (apply Z.mul_lt_mono_pos_r; lia).
    apply (Z.mul_lt_mono_pos_l K16); lia. }
  apply (round_ratio_near false (c * Tm) Tp M E).
  - nia.
  - exact HTp.
  - exact HM.
  - exact HE.
  - exact Hnormal.
  - fold U D b.
    assert (Hgoal : (2 * M - 1) * (q * b) < 2 * (c * Tm * D * q)
                    < (2 * M + 1) * (q * b)) by (rewrite Heq; lia).
    split.
    + apply (Z.mul_lt_mono_pos_r q); [lia|].
      replace ((2 * M - 1) * b * q) with ((2 * M - 1) * (q * b)) by ring.
      replace (2 * (c * Tm * D) * q) with (2 * (c * Tm * D * q)) by ring.
      lia.
    + apply (Z.mul_lt_mono_pos_r q); [lia|].
      replace ((2 * M + 1) * b * q) with ((2 * M + 1) * (q * b)) by ring.
      replace (2 * (c * Tm * D) * q) with (2 * (c * Tm * D * q)) by ring.
      lia.
  - intros HM' HE'. fold U D b. specialize (Hab' HM').
    apply (Z.mul_lt_mono_pos_r q); [lia|].
    replace ((4 * M - 1) * b * q) with ((4 * M - 1) * (q * b)) by ring.
    replace (4 * (c * Tm * D) * q) with (4 * (c * Tm * D * q)) by ring.
    rewrite Heq. lia.
Qed.

(** The decimal exponent of a double is between [-323] and [309]. *)
Lemma decimal_exponent_range (p q M E n : Z) :
  0 < p -> 0 < q ->
  0 < M < 2 ^ 53 -> -1074 <= E <= 971 ->
  p * pow_den 2 E = M * (q * pow_num 2 E) ->
  q * pow_num 10 (n - 1) <= p * pow_den 10 (n - 1) ->
  p * pow_den 10 n < q * pow_num 10 n ->
  -323 <= n <= 309.
Proof.
  intros Hp Hq HM HE Hexact Hlow Hhigh.
  assert (Hmax : p < 2 ^ 1024 * q).
  { destruct (Z.le_gt_cases 0 E) as [H0|H0].
    - rewrite pow_den_nonneg, pow_num_nonneg in Hexact by lia.
      assert (2 ^ E <= 2 ^ 971) by (apply Z.pow_le_mono_r; lia).
      assert (0 < 2 ^ E) by (apply Z.pow_pos_nonneg; lia).
      assert (HK : 2 ^ 53 * 2 ^ 971 = 2 ^ 1024) by reflexivity.
      remember (2 ^ 53) as K53. remember (2 ^ 971) as K971.
      remember (2 ^ 1024) as K1024.
      assert (M * (q * 2 ^ E) < K53 * (q * 2 ^ E))
        by (apply Z.mul_lt_mono_pos_r; nia).
      assert (K53 * (q * 2 ^ E) <= K53 * (q * K971)) by nia.
      nia.
    - rewrite pow_den_nonpos, pow_num_nonpos in Hexact by lia.
      assert (0 < 2 ^ (- E)) by (apply Z.pow_pos_nonneg; lia).
      assert (HK : 2 ^ 53 < 2 ^ 1024) by reflexivity.
      remember (2 ^ 53) as K53. remember (2 ^ 1024) as K1024.
      nia. }
  assert (Hmin : q <= p * 2 ^ 1074).
  { destruct (Z.le_gt_cases 0 E) as [H0|H0].
    - rewrite pow_den_nonneg, pow_num_nonneg in Hexact by lia.
      assert (0 < 2 ^ E) by (apply Z.pow_pos_nonneg; lia).
      assert (HK : 0 < 2 ^ 1074) by reflexivity.
      remember (2 ^ 1074) as K1074.
      assert (q <= q * 2 ^ E) by nia.
      assert (1 * (q * 2 ^ E) <= M * (q * 2 ^ E))
        by (apply Z.mul_le_mono_nonneg_r; nia).
      assert (p * 1 <= p * K1074) by (apply Z.mul_le_mono_nonneg_l; lia).
      lia.
    - rewrite pow_den_nonpos, pow_num_nonpos in Hexact by lia.
      assert (2 ^ (- E) <= 2 ^ 1074) by (apply Z.pow_le_mono_r; lia).
      assert (0 < 2 ^ (- E)) by (apply Z.pow_pos_nonneg; lia).
      remember (2 ^ 1074) as K1074.
      assert (1 * (q * 1) <= M * (q * 1))
        by (apply Z.mul_le_mono_nonneg_r; lia).
      assert (p * 2 ^ (- E) <= p * K1074)
        by (apply Z.mul_le_mono_nonneg_l; lia).
      lia. }
  split.
  - destruct (Z.le_gt_cases (-323) n) as [|Hs]; [assumption|exfalso].
    rewrite pow_den_nonpos, pow_num_nonpos in Hhigh by lia.
    assert (10 ^ 324 <= 10 ^ (- n)) by (apply Z.pow_le_mono_r; lia).
    assert (HK : 2 ^ 1074 < 10 ^ 324) by reflexivity.
    remember (2 ^ 1074) as K1074. remember (10 ^ 324) as K324.
    nia.
  - destruct (Z.le_gt_cases n 309) as [|Hb]; [assumption|exfalso].
    rewrite pow_den_nonneg, pow_num_nonneg in Hlow by lia.
    assert (10 ^ 309 <= 10 ^ (n - 1)) by (apply Z.pow_le_mono_r; lia).
    assert (HK : 2 ^ 1024 < 10 ^ 309) by reflexivity.
    remember (2 ^ 1024) as K1024. remember (10 ^ 309) as K309.
    nia.
Qed.

(** Seventeen digits are enough: among the two decimals of seventeen
    digits around a double, the nearer one rounds to it. *)
Lemma candidate_seventeen (x : number) (p q M E n : Z) :
  0 < p -> 0 < q ->
  0 < M < 2 ^ 53 -> -1074 <= E <= 971 ->
  (2 ^ 52 <= M \/ E = -1074) ->
  p * pow_den 2 E = M * (q * pow_num 2 E) ->
  JSNumber.make_number false M E = x ->
  q * pow_num 10 (n - 1) <= p * pow_den 10 (n - 1) ->
  p * pow_den 10 n < q * pow_num 10 n ->
  JSNumber.candidate x p q n 17 <> None.
Proof.
  intros Hp Hq HM HE Hnormal Hexact Hx Hlow Hhigh.
  pose proof (decimal_exponent_range p q M E n Hp Hq HM HE Hexact Hlow Hhigh)
    as Hn.
  rewrite candidate_unfold. cbv zeta.
  set (t := 17 - n).
  replace (n - 17) with (- t) by (unfold t; lia).
  pose proof (pow_num_pos 10 t ltac:(lia)) as HTp.
  pose proof (pow_den_pos 10 t ltac:(lia)) as HTm.
  set (num := p * pow_num 10 t). set (den := q * pow_den 10 t).
  assert (Hden : 0 < den) by (unfold den; nia).
  (* sixteen digits before the last one *)
  assert (H16 : 10 ^ 16 * den <= num).
  { unfold num, den. rewrite <- pow_num_opp, <- (pow_den_opp 10 t).
    apply ratio_le_shift; [lia|lia|].
    replace (- t + 16) with (n - 1) by (unfold t; lia). exact Hlow. }
  assert (H17 : num < 10 ^ 17 * den).
  { unfold num, den. rewrite <- pow_num_opp, <- (pow_den_opp 10 t).
    apply ratio_lt_shift; [lia|lia|].
    replace (- t + 17) with n by (unfold t; lia). exact Hhigh. }
  pose proof (Z.div_mod num den ltac:(lia)) as Hdm.
  pose proof (Z.mod_pos_bound num den Hden) as Hr.
  set (lo := num / den) in *. set (r := num mod den) in *.
  assert (Hlo : 10 ^ 16 <= lo < 10 ^ 17).
  { remember (10 ^ 16) as K16. remember (10 ^ 17) as K17. nia. }
  assert (Hround : forall c,
             (c = lo \/ c = lo + 1) ->
             2 * Z.abs (c * den - num) <= den ->
             JSNumber.round_decimal false c (- t) = x).
  { intros c Hc Hclose.
    assert (Hc0 : 0 < c) by (assert (0 < 10 ^ 16) by reflexivity; lia).
    assert (Hdigits : 17 <= JSNumber.decimal_digits c <= 18).
    { destruct (Z.lt_ge_cases c (10 ^ 17)) as [Hlt|Hge].
      - rewrite (decimal_digits_unique c 17); [lia| |lia].
        change (17 - 1) with 16. lia.
      - rewrite (decimal_digits_unique c 18); [lia| |lia].
        change (18 - 1) with 17.
        assert (10 ^ 17 < 10 ^ 18) by reflexivity. lia. }
    rewrite round_decimal_unfold by exact Hc0.
    destruct (Z.ltb_spec 310 (- t + JSNumber.decimal_digits c));
      [unfold t in *; lia|].
    destruct (Z.ltb_spec (- t + JSNumber.decimal_digits c) (-330));
      [unfold t in *; lia|].
    rewrite pow_num_opp, pow_den_opp. rewrite <- Hx.
    apply (decimal_near_rounds p q M E c t); assumption. }
  assert (Hone : JSNumber.eqb (JSNumber.round_decimal false lo (- t)) x = true
                 \/ JSNumber.eqb
                      (JSNumber.round_decimal false (lo + 1) (- t)) x = true).
  { destruct (Z.le_gt_cases (2 * r) den) as [Hhalf|Hhalf].
    - left. rewrite (Hround lo); [apply JSNumber_eqb_refl|now left|].
      replace (lo * den - num) with (- r) by lia.
      rewrite Z.abs_opp, Z.abs_eq; lia.
    - right. rewrite (Hround (lo + 1)); [apply JSNumber_eqb_refl|now right|].
      replace ((lo + 1) * den - num) with (den - r) by lia.
      rewrite Z.abs_eq; lia. }
  destruct (JSNumber.eqb (JSNumber.round_decimal false lo (- t)) x),
           (JSNumber.eqb (JSNumber.round_decimal false (lo + 1) (- t)) x).
  - destruct (2 * r <? den); [discriminate|].
    destruct (den <? 2 * r); [discriminate|].
    destruct (Z.even lo); discriminate.
  - discriminate.
  - discriminate.
  - destruct Hone; discriminate.
Qed.
(* ===================================================================== *)
(** * Reading the text of a number                                        *)
(* ===================================================================== *)

Lemma span_digits_all (a rest : string) :
  all_digits a = true ->
  JSON.span_digits rest = (EmptyString, rest) ->
  JSON.span_digits (a ++ rest) = (a, rest).
Proof.
  intros Ha Hrest. induction a as [|c a IH]; [exact Hrest|].
  rewrite all_digits_cons in Ha. apply andb_prop in Ha as [Hc Ha].
  cbn [append JSON.span_digits]. rewrite Hc, (IH Ha). reflexivity.
Qed.

Lemma span_digits_whole (a : string) :
  all_digits a = true -> JSON.span_digits a = (a, EmptyString).
Proof.
  intros Ha. rewrite <- (append_empty_r a) at 1.
  now apply span_digits_all.
Qed.

Lemma take_cons (n : nat) (c : ascii) (s : string) :
  JSNumber.take (S n) (String c s) = String c (JSNumber.take n s).
Proof. reflexivity. Qed.

Lemma drop_zero (s : string) : JSNumber.drop 0 s = s.
Proof.
  unfold JSNumber.drop. rewrite Nat.sub_0_r.
  induction s as [|c s IH]; [reflexivity|].
  cbn [String.length substring]. now rewrite IH.
Qed.

Lemma drop_cons (n : nat) (c : ascii) (s : string) :
  JSNumber.drop (S n) (String c s) = JSNumber.drop n s.
Proof. reflexivity. Qed.

Lemma take_zero (s : string) : JSNumber.take 0 s = EmptyString.
Proof. destruct s; reflexivity. Qed.

Lemma take_drop (n : nat) (s : string) :
  (n <= String.length s)%nat -> JSNumber.take n s ++ JSNumber.drop n s = s.
Proof.
  revert s. induction n as [|n IH]; intros s Hn.
  - now rewrite take_zero, drop_zero.
  - destruct s as [|c s]; [cbn in Hn; lia|].
    rewrite take_cons, drop_cons. cbn [append]. rewrite IH; [reflexivity|].
    cbn in Hn. lia.
Qed.

Lemma take_length (n : nat) (s : string) :
  (n <= String.length s)%nat -> String.length (JSNumber.take n s) = n.
Proof.
  revert s. induction n as [|n IH]; intros s Hn.
  - now rewrite take_zero.
  - destruct s as [|c s]; [cbn in Hn; lia|].
    rewrite take_cons. cbn [String.length]. rewrite IH; [reflexivity|].
    cbn in Hn. lia.
Qed.

Lemma drop_length (n : nat) (s : string) :
  (n <= String.length s)%nat ->
  String.length (JSNumber.drop n s) = (String.length s - n)%nat.
Proof.
  intros Hn. pose proof (take_drop n s Hn) as H.
  apply (f_equal String.length) in H.
  rewrite String_length_append, take_length in H by exact Hn. lia.
Qed.

(** The text of an integer that is not negative reads as the integer. *)
Lemma number_to_string_natural (v : Z) :
  0 <= v ->
  all_digits (number_to_string v) = true
  /\ JSON.digits_value (number_to_string v) = v
  /\ exists c s, number_to_string v = String c s.
Proof.
  intros Hv. destruct (Z.eq_dec v 0) as [->|Hnz].
  - repeat split. now exists "0"%char, EmptyString.
  - destruct (number_to_string_positive v ltac:(lia))
      as (Hd & Hval & c & s & E & _).
    repeat split; try assumption. now exists c, s.
Qed.

(** The parts of a number literal. *)
Lemma parse_number_parts (negative : bool) (b : ascii)
    (body int s2 frac s3 s4 : string) (e : Z) (i : ascii) (int' : string) :
  Ascii.eqb b "-" = false ->
  JSON.span_digits (String b body) = (int, s2) ->
  int = String i int' ->
  JSON.has_leading_zero int = false ->
  JSON.parse_fraction s2 = Some (frac, s3) ->
  JSON.parse_exponent s3 = Some (e, s4) ->
  JSON.parse_number ((if negative then "-" else EmptyString) ++ String b body)
  = Some (JSNumber.round_decimal negative (JSON.digits_value (int ++ frac))
            (e - Z.of_nat (String.length frac)), s4).
Proof.
  intros Hb Hint Hi Hzero Hfrac Hexp. unfold JSON.parse_number.
  assert (Hstrip : JSON.strip_minus
                     ((if negative then "-" else EmptyString) ++ String b body)
                   = (negative, String b body)).
  { destruct negative; cbn [append JSON.strip_minus]; [reflexivity|].
    now rewrite Hb. }
  rewrite Hstrip, Hint. subst int. rewrite Hzero, Hfrac, Hexp. reflexivity.
Qed.

Lemma has_leading_zero_head (c : ascii) (s : string) :
  Ascii.eqb c "0" = false -> JSON.has_leading_zero (String c s) = false.
Proof. intros Hc. cbn [JSON.has_leading_zero]. now destruct s. Qed.

Lemma digit_not_minus (c : ascii) :
  JSON.is_digit c = true -> Ascii.eqb c "-" = false.
Proof.
  destruct c as [[] [] [] [] [] [] [] []]; try discriminate; reflexivity.
Qed.

(** The exponent part that [Number::toString] writes. *)
Lemma parse_exponent_text (e : Z) :
  JSON.parse_exponent
    ("e" ++ (if e <? 0 then "-" else "+") ++ number_to_string (Z.abs e))
  = Some (e, EmptyString).
Proof.
  destruct (number_to_string_natural (Z.abs e) ltac:(lia))
    as (Hd & Hval & c & s & E).
  cbn [append JSON.parse_exponent].
  change (Ascii.eqb "e" "e" || Ascii.eqb "e" "E")%bool with true.
  cbv iota.
  destruct (Z.ltb_spec e 0) as [He|He]; cbn [append JSON.strip_sign];
    [change (Ascii.eqb "-" "-") with true
    |change (Ascii.eqb "+" "-") with false;
     change (Ascii.eqb "+" "+") with true]; cbv iota;
    rewrite (span_digits_whole _ Hd); rewrite E at 1; rewrite Hval;
    do 2 f_equal; lia.
Qed.

Lemma parse_fraction_none (c : ascii) (s : string) :
  Ascii.eqb c "." = false ->
  JSON.parse_fraction (String c s) = Some (EmptyString, String c s).
Proof. intros Hc. cbn [JSON.parse_fraction]. now rewrite Hc. Qed.

Lemma parse_fraction_digits (frac rest : string) (c : ascii) (frac' : string) :
  frac = String c frac' ->
  all_digits frac = true ->
  JSON.span_digits rest = (EmptyString, rest) ->
  JSON.parse_fraction ("." ++ frac ++ rest) = Some (frac, rest).
Proof.
  intros E Hd Hrest. cbn [append JSON.parse_fraction].
  change (Ascii.eqb "." ".") with true. cbv iota.
  rewrite (span_digits_all frac rest Hd Hrest). now subst frac.
Qed.

Lemma parse_fraction_whole (frac : string) (c : ascii) (frac' : string) :
  frac = String c frac' ->
  all_digits frac = true ->
  JSON.parse_fraction ("." ++ frac) = Some (frac, EmptyString).
Proof.
  intros E Hd. cbn [append JSON.parse_fraction].
  change (Ascii.eqb "." ".") with true. cbv iota.
  rewrite (span_digits_whole frac Hd). now subst frac.
Qed.

(** The four layouts of [Number::toString]. *)
Lemma parse_layout_integer (negative : bool) (c : ascii) (d' : string)
    (z : nat) :
  all_digits (String c d') = true -> Ascii.eqb c "0" = false ->
  JSON.parse_number
    ((if negative then "-" else EmptyString)
       ++ String c d' ++ JSNumber.zeros z)
  = Some (JSNumber.round_decimal negative (JSON.digits_value (String c d'))
            (Z.of_nat z), EmptyString).
Proof.
  intros Hd Hc.
  pose proof Hd as Hd0. rewrite all_digits_cons in Hd0.
  apply andb_prop in Hd0 as [Hcd Hd'].
  pose proof (digits_value_lower c d' Hd Hc) as Hvalue.
  assert (Hpos : 0 < JSON.digits_value (String c d')).
  { assert (0 < 10 ^ Z.of_nat (String.length d'))
      by (apply Z.pow_pos_nonneg; lia). lia. }
  assert (Hall : all_digits (String c d' ++ JSNumber.zeros z) = true)
    by now rewrite all_digits_app, Hd, zeros_digits.
  cbn [append] in *.
  rewrite (parse_number_parts negative c (d' ++ JSNumber.zeros z)
             (String c (d' ++ JSNumber.zeros z)) EmptyString
             EmptyString EmptyString EmptyString 0
             c (d' ++ JSNumber.zeros z));
    try reflexivity.
  - rewrite append_empty_r.
    change (String c (d' ++ JSNumber.zeros z))
      with (String c d' ++ JSNumber.zeros z).
    rewrite digits_value_app, zeros_value, zeros_length, Z.add_0_r
      by (assumption || apply zeros_digits).
    rewrite round_decimal_scale by lia.
    reflexivity.
  - now apply digit_not_minus.
  - now apply span_digits_whole.
  - now apply has_leading_zero_head.
Qed.

Lemma parse_layout_point (negative : bool) (c : ascii) (d' : string)
    (m : nat) :
  all_digits (String c d') = true -> Ascii.eqb c "0" = false ->
  (0 < m < String.length (String c d'))%nat ->
  JSON.parse_number
    ((if negative then "-" else EmptyString)
       ++ JSNumber.take m (String c d') ++ "."
       ++ JSNumber.drop m (String c d'))
  = Some (JSNumber.round_decimal negative (JSON.digits_value (String c d'))
            (Z.of_nat m - Z.of_nat (String.length (String c d'))),
          EmptyString).
Proof.
  intros Hd Hc Hm. set (d := String c d') in *.
  pose proof Hd as Hd0. unfold d in Hd0. rewrite all_digits_cons in Hd0.
  apply andb_prop in Hd0 as [Hcd Hd'].
  destruct m as [|m']; [lia|].
  assert (Hle : (S m' <= String.length d)%nat) by lia.
  assert (Htake : JSNumber.take (S m') d = String c (JSNumber.take m' d'))
    by apply take_cons.
  pose proof (take_drop (S m') d Hle) as Htd.
  pose proof (drop_length (S m') d Hle) as Hdl.
  assert (Hsplit : all_digits (JSNumber.take (S m') d) = true
                   /\ all_digits (JSNumber.drop (S m') d) = true).
  { rewrite <- Htd, all_digits_app in Hd. now apply andb_prop in Hd. }
  destruct Hsplit as [Hdt Hdd].
  destruct (JSNumber.drop (S m') d) as [|f frac'] eqn:Edrop;
    [cbn [String.length] in Hdl; lia|].
  rewrite Htake in *. cbn [append].
  rewrite (parse_number_parts negative c _
             (String c (JSNumber.take m' d'))
             ("." ++ String f frac') (String f frac')
             EmptyString EmptyString
             0 c (JSNumber.take m' d'));
    try reflexivity.
  - rewrite Htd. do 3 f_equal. rewrite Hdl. lia.
  - now apply digit_not_minus.
  - change (String c (JSNumber.take m' d' ++ String "." (String f frac')))
      with (String c (JSNumber.take m' d') ++ "." ++ String f frac').
    apply span_digits_all; [exact Hdt|reflexivity].
  - now apply has_leading_zero_head.
  - now apply (parse_fraction_whole _ f frac').
Qed.

Lemma parse_layout_fraction (negative : bool) (c : ascii) (d' : string)
    (z : nat) :
  all_digits (String c d') = true ->
  JSON.parse_number
    ((if negative then "-" else EmptyString)
       ++ "0." ++ JSNumber.zeros z ++ String c d')
  = Some (JSNumber.round_decimal negative (JSON.digits_value (String c d'))
            (- Z.of_nat z - Z.of_nat (String.length (String c d'))),
          EmptyString).
Proof.
  intros Hd. set (d := String c d') in *.
  assert (Hfrac : all_digits (JSNumber.zeros z ++ d) = true)
    by now rewrite all_digits_app, zeros_digits, Hd.
  pose proof (String_length_append (JSNumber.zeros z) d) as Hlen.
  rewrite zeros_length in Hlen.
  cbn [append].
  destruct (JSNumber.zeros z ++ d) as [|f frac'] eqn:Efrac.
  { unfold d in Hlen. cbn [String.length] in Hlen. lia. }
  rewrite (parse_number_parts negative "0" _ "0"
             ("." ++ String f frac') (String f frac')
             EmptyString EmptyString 0 "0" EmptyString);
    try reflexivity.
  - change ("0" ++ String f frac') with (String "0" (String f frac')).
    rewrite digits_value_cons by (rewrite all_digits_cons; exact Hfrac).
    change (Z.of_nat (nat_of_ascii "0") - 48) with 0.
    rewrite Z.mul_0_l, Z.add_0_l.
    rewrite <- Efrac.
    rewrite digits_value_app, zeros_value, Z.mul_0_l, Z.add_0_l
      by (assumption || apply zeros_digits).
    do 3 f_equal. rewrite Efrac, Hlen. lia.
  - now apply (parse_fraction_whole _ f frac').
Qed.

Lemma parse_layout_exponent (negative : bool) (c : ascii) (d' : string)
    (e : Z) :
  all_digits (String c d') = true -> Ascii.eqb c "0" = false ->
  let d := String c d' in
  let exponent :=
    (if e <? 0 then "-" else "+") ++ number_to_string (Z.abs e) in
  JSON.parse_number
    ((if negative then "-" else EmptyString)
       ++ (if Z.of_nat (String.length d) =? 1 then d ++ "e" ++ exponent
           else JSNumber.take 1 d ++ "." ++ JSNumber.drop 1 d ++ "e"
                  ++ exponent))
  = Some (JSNumber.round_decimal negative (JSON.digits_value d)
            (e + 1 - Z.of_nat (String.length d)), EmptyString).
Proof.
  intros Hd Hc. cbv zeta.
  pose proof Hd as Hd0. rewrite all_digits_cons in Hd0.
  apply andb_prop in Hd0 as [Hcd Hd'].
  pose proof (digit_not_minus c Hcd) as Hminus.
  pose proof (parse_exponent_text e) as Hexp.
  set (X := (if e <? 0 then "-" else "+") ++ number_to_string (Z.abs e)) in *.
  destruct d' as [|c' d''].
  - change (Z.of_nat (String.length (String c EmptyString)) =? 1) with true.
    cbv iota.
    change (String c EmptyString ++ "e" ++ X) with (String c ("e" ++ X)).
    rewrite (parse_number_parts negative c ("e" ++ X) (String c EmptyString)
               ("e" ++ X) EmptyString ("e" ++ X) EmptyString e
               c EmptyString);
      try reflexivity; try assumption.
    + do 3 f_equal. cbn [String.length]. lia.
    + cbn [append JSON.span_digits]. rewrite Hcd.
      change (JSON.is_digit "e") with false. reflexivity.
  - destruct (Z.eqb_spec (Z.of_nat (String.length (String c (String c' d''))))
                1) as [Hk|_]; [cbn [String.length] in Hk; lia|].
    rewrite take_cons, take_zero, drop_cons, drop_zero.
    change (String c EmptyString ++ "." ++ String c' d'' ++ "e" ++ X)
      with (String c ("." ++ String c' d'' ++ "e" ++ X)).
    rewrite (parse_number_parts negative c ("." ++ String c' d'' ++ "e" ++ X)
               (String c EmptyString)
               ("." ++ String c' d'' ++ "e" ++ X) (String c' d'')
               ("e" ++ X) EmptyString e c EmptyString);
      try reflexivity; try assumption.
    + do 3 f_equal. cbn [String.length]. lia.
    + cbn [append JSON.span_digits]. rewrite Hcd.
      change (JSON.is_digit ".") with false. reflexivity.
    + now apply (parse_fraction_digits _ _ c' d'').
Qed.

(** [JSON.parse] reads the text that [Number::toString] lays out for the
    digits [d] and the exponent [n] as the decimal [0.d * 10^n]. *)
Lemma parse_format_decimal (negative : bool) (c : ascii) (d' : string)
    (n : Z) :
  let d := String c d' in
  all_digits d = true -> Ascii.eqb c "0" = false ->
  JSON.parse_number
    ((if negative then "-" else EmptyString) ++ JSNumber.format_decimal d n)
  = Some (JSNumber.round_decimal negative (JSON.digits_value d)
            (n - Z.of_nat (String.length d)), EmptyString).
Proof.
  cbv zeta. intros Hd Hc.
  unfold JSNumber.format_decimal.
  set (d := String c d') in *.
  set (k := Z.of_nat (String.length d)).
  assert (Hk : 1 <= k) by (unfold k, d; cbn [String.length]; lia).
  destruct ((k <=? n) && (n <=? 21))%bool eqn:E1.
  - apply andb_prop in E1 as [Hkn Hn]. apply Z.leb_le in Hkn, Hn.
    unfold d. rewrite parse_layout_integer by assumption.
    do 3 f_equal. unfold k, d in *. lia.
  - destruct ((0 <? n) && (n <=? 21))%bool eqn:E2.
    + apply andb_prop in E2 as [H0 Hn]. apply Z.ltb_lt in H0.
      rewrite Hn, andb_true_r in E1. apply Z.leb_le in Hn.
      apply Z.leb_gt in E1.
      unfold d. rewrite parse_layout_point; try assumption.
      * do 3 f_equal. unfold k, d in *. lia.
      * unfold k, d in *. lia.
    + destruct ((-6 <? n) && (n <=? 0))%bool eqn:E3.
      * apply andb_prop in E3 as [H6 H0]. apply Z.ltb_lt in H6.
        apply Z.leb_le in H0.
        unfold d. rewrite parse_layout_fraction by assumption.
        do 3 f_equal. unfold k, d in *. lia.
      * pose proof (parse_layout_exponent negative c d' (n - 1) Hd Hc) as H.
        cbv zeta in H. fold d k in H. rewrite H.
        do 3 f_equal. unfold k, d in *. lia.
Qed.
(* ===================================================================== *)
(** * Every finite double reads back from its text                        *)
(* ===================================================================== *)

Lemma toString_unfold (x : number) :
  JSNumber.json_number x = true -> x <> Integer 0 ->
  JSNumber.toString x
  = let p := fst (JSNumber.magnitude x) in
    let q := snd (JSNumber.magnitude x) in
    let n := JSNumber.decimal_exponent p q in
    let sk := JSNumber.shortest (JSNumber.abs x) p q n 17 1 in
    let digits := number_to_string (fst sk) in
    let n' := n + (Z.of_nat (String.length digits) - snd sk) in
    (if JSNumber.is_negative x then "-" else EmptyString)
      ++ JSNumber.format_decimal (JSNumber.strip_zeros digits) n'.
Proof.
  destruct x as [[|p|p]|m e| | | |]; try discriminate; intros _ H;
    try congruence; unfold JSNumber.toString;
    cbn [JSNumber.magnitude fst snd]; cbv zeta;
    destruct (JSNumber.shortest _ _ _ _ _ _); reflexivity.
Qed.

Lemma abs_nonnegative (x : number) :
  JSNumber.json_number x = true -> JSNumber.is_negative x = false ->
  JSNumber.abs x = x.
Proof.
  destruct x as [n|m e| | | |]; try discriminate; intros _ H;
    cbn [JSNumber.is_negative JSNumber.abs] in *; apply Z.ltb_ge in H;
    f_equal; lia.
Qed.

Lemma abs_nonzero (x : number) :
  JSNumber.json_number x = true -> x <> Integer 0 ->
  JSNumber.abs x <> Integer 0.
Proof.
  destruct x as [n|m e| | | |]; try discriminate; intros _ H;
    cbn [JSNumber.abs].
  intros [= E]. apply H. f_equal. lia.
Qed.

(** [JSON.parse] reads every finite double other than negative zero back
    from the text [JSON.stringify] prints for it. *)
Lemma json_number_reads_back (x : number) :
  JSNumber.json_number x = true -> number_reads_back x = true.
Proof.
  intros Hx. unfold number_reads_back, JSNumber.json_text.
  assert (Hfin : JSNumber.is_finite x = true)
    by (destruct x; try discriminate; reflexivity).
  rewrite Hfin.
  assert (Hdec : x = Integer 0 \/ x <> Integer 0).
  { destruct x as [n| | | | |]; try (right; discriminate).
    destruct (Z.eq_dec n 0) as [->|Hn]; [now left|right; congruence]. }
  destruct Hdec as [->|Hnz]; [reflexivity|].
  rewrite (toString_unfold x Hx Hnz). cbv zeta.
  destruct (double_normal_form x Hx Hnz)
    as (Hp & Hq & M & E & HM & HE & Hnormal & Hexact & Hmake & Habs).
  set (p := fst (JSNumber.magnitude x)) in *.
  set (q := snd (JSNumber.magnitude x)) in *.
  destruct (decimal_exponent_spec p q Hp Hq) as [Hlow Hhigh].
  set (n := JSNumber.decimal_exponent p q) in *.
  pose proof (candidate_seventeen (JSNumber.abs x) p q M E n
                Hp Hq HM HE Hnormal Hexact Habs Hlow Hhigh) as H17.
  destruct (shortest_found (JSNumber.abs x) p q n 17 1 16 ltac:(lia) H17)
    as (s & k & Hsk & Hcand).
  rewrite Hsk. cbn [fst snd].
  destruct (candidate_sound _ _ _ _ _ _ Hp Hq Hcand) as [Hround Hs0].
  assert (Hs : 0 < s).
  { destruct (Z.eq_dec s 0) as [->|]; [|lia].
    exfalso. apply (abs_nonzero x Hx Hnz). now rewrite <- Hround. }
  destruct (number_to_string_positive s Hs) as (Hd & Hval & c & rest & Edig & Hc).
  destruct (strip_zeros_spec (number_to_string s)) as (z & Hz).
  pose proof (strip_zeros_digits _ Hd) as Hsd.
  rewrite Edig in *. rewrite (strip_zeros_cons c rest Hc) in *.
  set (d' := JSNumber.strip_zeros rest) in *.
  rewrite (parse_format_decimal (JSNumber.is_negative x) c d' _ Hsd Hc).
  assert (Hvalue : s = JSON.digits_value (String c d') * 10 ^ Z.of_nat z).
  { rewrite <- Hval, Hz.
    rewrite digits_value_app, zeros_value, zeros_length
      by (assumption || apply zeros_digits).
    lia. }
  assert (Hlen : Z.of_nat (String.length (String c rest))
                 = Z.of_nat (String.length (String c d')) + Z.of_nat z).
  { rewrite Hz at 1. rewrite String_length_append, zeros_length. lia. }
  assert (Hdpos : 0 < JSON.digits_value (String c d')).
  { assert (0 < 10 ^ Z.of_nat z) by (apply Z.pow_pos_nonneg; lia). nia. }
  assert (Hresult : JSNumber.round_decimal (JSNumber.is_negative x)
                      (JSON.digits_value (String c d'))
                      (n + (Z.of_nat (String.length (String c rest)) - k)
                       - Z.of_nat (String.length (String c d')))
                    = x).
  { replace (n + (Z.of_nat (String.length (String c rest)) - k)
             - Z.of_nat (String.length (String c d')))
      with (n - k + Z.of_nat z) by lia.
    rewrite <- round_decimal_scale by lia.
    rewrite <- Hvalue.
    destruct (JSNumber.is_negative x) eqn:Hneg.
    - now apply round_decimal_sign.
    - rewrite Hround. now apply abs_nonnegative. }
  rewrite Hresult. apply JSNumber_eqb_refl.
Qed.

(* ===================================================================== *)
(** * JSON: parsing undoes printing                                       *)
(* ===================================================================== *)

Lemma json_induction (P : json -> Prop) :
  P JNull ->
  (forall b, P (JBool b)) ->
  (forall n, P (JNum n)) ->
  (forall s, P (JStr s)) ->
  (forall items, Forall P items -> P (JArr items)) ->
  (forall fields, Forall (fun kv => P (snd kv)) fields -> P (JObj fields)) ->
  forall j, P j.
Proof.
  intros Hnull Hbool Hnum Hstr Harr Hobj.
  fix IH 1. intros [|b|n|s|items|fields].
  - exact Hnull.
  - apply Hbool.
  - apply Hnum.
  - apply Hstr.
  - apply Harr. induction items as [|x items IHitems]; constructor.
    + apply IH.
    + exact IHitems.
  - apply Hobj. induction fields as [|kv fields IHfields]; constructor.
    + apply IH.
    + exact IHfields.
Qed.

(** One step of the parser on each kind of first character. *)
Lemma parse_value_number (fuel : nat) (c : ascii) (s : string) :
  JSON.is_ws c = false ->
  (JSON.is_digit c || Ascii.eqb c "-")%bool = true ->
  JSON.parse_value (S fuel) (String c s)
  = match JSON.parse_number (String c s) with
    | Some (n, rest) => Some (JNum n, rest)
    | None => None
    end.
Proof.
  intros Hws Hnum. cbn [JSON.parse_value JSON.skip_ws].
  now rewrite Hws, Hnum.
Qed.

Lemma parse_value_string (fuel : nat) (s : string) :
  JSON.parse_value (S fuel) (quote ++ s)
  = match JSON.parse_chars s with
    | Some (t, rest) => Some (JStr t, rest)
    | None => None
    end.
Proof. reflexivity. Qed.

Lemma parse_value_array (fuel : nat) (s : string) :
  JSON.parse_value (S fuel) ("[" ++ s)
  = match JSON.accept "]" (JSON.skip_ws s) with
    | Some rest => Some (JArr [], rest)
    | None =>
        match JSON.parse_elements fuel s with
        | Some (items, rest) => Some (JArr items, rest)
        | None => None
        end
    end.
Proof. reflexivity. Qed.

Lemma parse_value_object (fuel : nat) (s : string) :
  JSON.parse_value (S fuel) ("{" ++ s)
  = match JSON.accept "}" (JSON.skip_ws s) with
    | Some rest => Some (JObj [], rest)
    | None =>
        match JSON.parse_members fuel s with
        | Some (members, rest) =>
            Some (JObj (JSON.obj_of_members members), rest)
        | None => None
        end
    end.
Proof. reflexivity. Qed.

Lemma parse_elements_step (fuel : nat) (s : string) :
  JSON.parse_elements (S fuel) s
  = match JSON.parse_value fuel s with
    | Some (v, rest) =>
        match JSON.accept "," (JSON.skip_ws rest) with
        | Some rest' =>
            match JSON.parse_elements fuel rest' with
            | Some (vs, rest'') => Some (v :: vs, rest'')
            | None => None
            end
        | None =>
            match JSON.accept "]" (JSON.skip_ws rest) with
            | Some rest' => Some ([v], rest')
            | None => None
            end
        end
    | None => None
    end.
Proof. reflexivity. Qed.

Lemma parse_members_step (fuel : nat) (k s : string) :
  JSON.parse_members (S fuel) (JSON.member k s)
  = match JSON.parse_value fuel s with
    | Some (v, rest) =>
        match JSON.accept "," (JSON.skip_ws rest) with
        | Some rest' =>
            match JSON.parse_members fuel rest' with
            | Some (ms, rest'') => Some ((k, v) :: ms, rest'')
            | None => None
            end
        | None =>
            match JSON.accept "}" (JSON.skip_ws rest) with
            | Some rest' => Some ([(k, v)], rest')
            | None => None
            end
        end
    | None => None
    end.
Proof.
  unfold JSON.member, JSON.quote_string.
  cbn [JSON.parse_members]. rewrite !append_assoc.
  change (JSON.accept "034" (JSON.skip_ws (quote ++ JSON.escape k ++ quote ++ ":" ++ s)))
    with (Some (JSON.escape k ++ quote ++ ":" ++ s)).
  cbv beta iota. rewrite parse_chars_escape.
  reflexivity.
Qed.

Lemma is_digit_not_bracket (c : ascii) :
  (JSON.is_digit c || Ascii.eqb c "-")%bool = true ->
  Ascii.eqb c "]" = false.
Proof.
  destruct c as [[] [] [] [] [] [] [] []]; simpl; intros; try discriminate;
    reflexivity.
Qed.

(** The text of a value is not empty and starts with a character that is
    neither white space nor a closing bracket. *)
Lemma stringify_head (j : json) :
  numbers_read_back j = true ->
  exists c s, JSON.stringify j = String c s
              /\ JSON.is_ws c = false /\ Ascii.eqb c "]" = false.
Proof.
  intros Hnum.
  destruct j as [|[]|n|s|items|fields];
    try (eexists; eexists; repeat split; fail).
  destruct (number_text_head n Hnum) as (c & s & E & Hd).
  exists c, s. cbn [JSON.stringify]. repeat split; try assumption.
  - now apply number_head_not_ws.
  - now apply is_digit_not_bracket.
Qed.

Lemma commas_head (x : json) (l : list json) :
  numbers_read_back x = true ->
  exists c s, JSON.commas (map JSON.stringify (x :: l)) = String c s
              /\ JSON.is_ws c = false /\ Ascii.eqb c "]" = false.
Proof.
  intros Hnum.
  destruct (stringify_head x Hnum) as (c & s & E & Hw & Hb).
  cbn [map JSON.commas]. rewrite E.
  destruct (map JSON.stringify l); eexists; eexists; repeat split; eassumption.
Qed.

Lemma parse_elements_commas (x : json) (l : list json) :
  Forall reads_back (x :: l) ->
  forallb objects_enumerated (x :: l) = true ->
  forallb numbers_read_back (x :: l) = true ->
  forall fuel rest,
    (fold_right (fun y n => S (json_size y + n)) 0%nat (x :: l) <= fuel)%nat ->
    JSON.parse_elements fuel
      (JSON.commas (map JSON.stringify (x :: l)) ++ "]" ++ rest)
    = Some (x :: l, rest).
Proof.
  revert x. induction l as [|y l IH]; intros x HF Hobj Hnum fuel rest Hfuel.
  - inversion HF as [|? ? Hx _]; subst.
    cbn [forallb] in Hobj, Hnum.
    apply andb_prop in Hobj as [Hox _]. apply andb_prop in Hnum as [Hnx _].
    cbn [fold_right] in Hfuel.
    destruct fuel as [|fuel]; [lia|].
    rewrite parse_elements_step. cbn [map JSON.commas].
    rewrite (Hx fuel ("]" ++ rest));
      [reflexivity|lia|reflexivity|exact Hox|exact Hnx].
  - inversion HF as [|? ? Hx HF']; subst.
    cbn [forallb] in Hobj, Hnum.
    apply andb_prop in Hobj as [Hox Hol]. apply andb_prop in Hnum as [Hnx Hnl].
    cbn [fold_right] in Hfuel.
    destruct fuel as [|fuel]; [lia|].
    rewrite parse_elements_step.
    change (JSON.commas (map JSON.stringify (x :: y :: l)))
      with (JSON.stringify x ++ "," ++ JSON.commas (map JSON.stringify (y :: l))).
    rewrite !append_assoc.
    rewrite (Hx fuel); [|lia|reflexivity|exact Hox|exact Hnx].
    change (JSON.accept "," (JSON.skip_ws ("," ++ JSON.commas (map JSON.stringify (y :: l)) ++ "]" ++ rest)))
      with (Some (JSON.commas (map JSON.stringify (y :: l)) ++ "]" ++ rest)).
    cbv beta iota.
    rewrite (IH y HF' Hol Hnl fuel rest); [reflexivity|].
    cbn [fold_right]. lia.
Qed.

Lemma parse_members_commas (kv : string * json)
    (l : list (string * json)) :
  Forall (fun p => reads_back (snd p)) (kv :: l) ->
  forallb (fun p => objects_enumerated (snd p)) (kv :: l) = true ->
  forallb (fun p => numbers_read_back (snd p)) (kv :: l) = true ->
  forall fuel rest,
    (fold_right (fun p n => S (json_size (snd p) + n)) 0%nat (kv :: l)
     <= fuel)%nat ->
    JSON.parse_members fuel
      (JSON.commas (map (fun p => JSON.member (fst p) (JSON.stringify (snd p)))
                        (kv :: l)) ++ "}" ++ rest)
    = Some (kv :: l, rest).
Proof.
  revert kv. induction l as [|q l IH];
    intros [k v] HF Hobj Hnum fuel rest Hfuel.
  - inversion HF as [|? ? Hx _]; subst. cbn [snd] in Hx.
    cbn [forallb snd] in Hobj, Hnum.
    apply andb_prop in Hobj as [Hox _]. apply andb_prop in Hnum as [Hnx _].
    cbn [fold_right snd] in Hfuel.
    destruct fuel as [|fuel]; [lia|].
    cbn [map JSON.commas fst snd].
    replace (JSON.member k (JSON.stringify v) ++ "}" ++ rest)
      with (JSON.member k (JSON.stringify v ++ "}" ++ rest))
      by (unfold JSON.member; now rewrite !append_assoc).
    rewrite parse_members_step.
    rewrite (Hx fuel ("}" ++ rest));
      [reflexivity|lia|reflexivity|exact Hox|exact Hnx].
  - inversion HF as [|? ? Hx HF']; subst. cbn [snd] in Hx.
    cbn [forallb snd] in Hobj, Hnum.
    apply andb_prop in Hobj as [Hox Hol]. apply andb_prop in Hnum as [Hnx Hnl].
    cbn [fold_right snd] in Hfuel.
    destruct fuel as [|fuel]; [lia|].
    set (f := fun p : string * json =>
                JSON.member (fst p) (JSON.stringify (snd p))) in *.
    change (JSON.commas (map f ((k, v) :: q :: l)))
      with (JSON.member k (JSON.stringify v) ++ "," ++ JSON.commas (map f (q :: l))).
    replace ((JSON.member k (JSON.stringify v) ++ ","
                ++ JSON.commas (map f (q :: l))) ++ "}" ++ rest)
      with (JSON.member k (JSON.stringify v ++ ","
                ++ JSON.commas (map f (q :: l)) ++ "}" ++ rest))
      by (unfold JSON.member; now rewrite !append_assoc).
    rewrite parse_members_step.
    rewrite (Hx fuel); [|lia|reflexivity|exact Hox|exact Hnx].
    change (JSON.accept "," (JSON.skip_ws ("," ++ JSON.commas (map f (q :: l)) ++ "}" ++ rest)))
      with (Some (JSON.commas (map f (q :: l)) ++ "}" ++ rest)).
    cbv beta iota.
    rewrite (IH q HF' Hol Hnl fuel rest); [reflexivity|].
    cbn [fold_right]. lia.
Qed.

(** Properties read in enumeration order are kept as they are read. *)
Lemma enumeration_app_fresh (a b : list string) (k : string) :
  enumeration (a ++ k :: b) = true ->
  forall x, In x a ->
  String.eqb x k = false /\ JSON.enumerated_before k x = false.
Proof.
  induction a as [|y a IH]; intros H x Hx; [contradiction|].
  cbn [Datatypes.app enumeration] in H. apply andb_prop in H as [Hy Ha].
  destruct Hx as [->|Hx]; [|now apply IH].
  rewrite forallb_app in Hy. apply andb_prop in Hy as [_ Hy].
  cbn [forallb] in Hy. apply andb_prop in Hy as [Hy _].
  apply andb_prop in Hy as [Hne Hbefore].
  now apply negb_true_iff in Hne; apply negb_true_iff in Hbefore.
Qed.

Lemma obj_set_fresh (k : string) (v : json) (acc : list (string * json)) :
  (forall x, In x (map fst acc) ->
     String.eqb x k = false /\ JSON.enumerated_before k x = false) ->
  JSON.obj_set k v acc = (acc ++ [(k, v)])%list.
Proof.
  induction acc as [|[k' v'] acc IH]; intros H; [reflexivity|].
  cbn [JSON.obj_set Datatypes.app].
  destruct (H k' (or_introl eq_refl)) as [-> ->].
  rewrite IH; [reflexivity|]. intros x Hx. apply H. now right.
Qed.

Lemma fold_obj_set (fields acc : list (string * json)) :
  enumeration (map fst acc ++ map fst fields) = true ->
  fold_left (fun a kv => JSON.obj_set (fst kv) (snd kv) a) fields acc
  = (acc ++ fields)%list.
Proof.
  revert acc. induction fields as [|[k v] fields IH]; intros acc H.
  - now rewrite app_nil_r.
  - cbn [fold_left fst snd map] in *.
    rewrite obj_set_fresh by (now apply (enumeration_app_fresh _ _ _ H)).
    rewrite IH.
    + now rewrite <- app_assoc.
    + rewrite map_app, <- app_assoc. exact H.
Qed.

Lemma obj_of_members_enumeration (fields : list (string * json)) :
  enumeration (map fst fields) = true -> JSON.obj_of_members fields = fields.
Proof. intros H. unfold JSON.obj_of_members. now rewrite fold_obj_set. Qed.

(** Enough fuel reads back any value whose objects are in enumeration
    order and whose numbers read back, whatever text that cannot continue
    a number follows it. *)
Lemma parse_value_stringify (j : json) : reads_back j.
Proof.
  induction j as [|b|n|s|items IH|fields IH] using json_induction;
    intros fuel rest Hfuel Hrest Hobj Hnum;
    (destruct fuel as [|fuel]; [simpl in Hfuel; lia|]).
  - reflexivity.
  - destruct b; reflexivity.
  - cbn [numbers_read_back] in Hnum.
    destruct (number_text_head n Hnum) as (c & s & E & Hd).
    cbn [JSON.stringify]. pose proof (parse_number_text n rest Hnum Hrest) as P.
    rewrite E in P |- *. cbn [append].
    rewrite (parse_value_number fuel c (s ++ rest)
               (number_head_not_ws c Hd) Hd).
    cbn [append] in P. now rewrite P.
  - cbn [JSON.stringify]. unfold JSON.quote_string.
    rewrite !append_assoc, parse_value_string.
    now rewrite parse_chars_escape.
  - cbn [JSON.stringify]. rewrite !append_assoc, parse_value_array.
    destruct items as [|x items]; [reflexivity|].
    cbn [objects_enumerated numbers_read_back] in Hobj, Hnum.
    assert (Hnx : numbers_read_back x = true).
    { cbn [forallb] in Hnum. now apply andb_prop in Hnum as [? _]. }
    destruct (commas_head x items Hnx) as (c & s & E & Hw & Hb).
    assert (Hno : JSON.accept "]"
                    (JSON.skip_ws
                       (JSON.commas (map JSON.stringify (x :: items))
                          ++ "]" ++ rest)) = None).
    { rewrite E. cbn [append JSON.skip_ws]. rewrite Hw.
      cbn [JSON.accept]. now rewrite Hb. }
    rewrite Hno.
    cbn [json_size] in Hfuel.
    rewrite (parse_elements_commas x items IH Hobj Hnum fuel rest);
      [reflexivity|lia].
  - cbn [JSON.stringify]. rewrite !append_assoc, parse_value_object.
    destruct fields as [|kv fields]; [reflexivity|].
    cbn [objects_enumerated numbers_read_back] in Hobj, Hnum.
    apply andb_prop in Hobj as [Hkeys Hobj].
    cbn [json_size] in Hfuel.
    assert (Hno : JSON.accept "}"
                    (JSON.skip_ws
                       (JSON.commas
                          (map (fun p => JSON.member (fst p)
                                           (JSON.stringify (snd p)))
                               (kv :: fields))
                          ++ "}" ++ rest)) = None).
    { cbn [map JSON.commas]. unfold JSON.member at 1, JSON.quote_string.
      destruct (map _ fields); reflexivity. }
    rewrite Hno.
    rewrite (parse_members_commas kv fields IH Hobj Hnum fuel rest); [|lia].
    now rewrite obj_of_members_enumeration.
Qed.

(** The text of a value is at least as long as the fuel it needs. *)
Lemma commas_length (l : list string) (sizes : list nat) :
  Forall2 (fun text n => (n <= String.length text)%nat) l sizes ->
  (fold_right (fun n acc => S (n + acc)) 0 sizes
   <= S (String.length (JSON.commas l)))%nat.
Proof.
  induction 1 as [|text n l sizes Hn Hl IH]; [simpl; lia|].
  cbn [fold_right]. destruct l as [|text' l].
  - inversion Hl; subst. cbn [fold_right JSON.commas]. lia.
  - change (JSON.commas (text :: text' :: l))
      with (text ++ "," ++ JSON.commas (text' :: l)).
    rewrite !String_length_append. cbn [String.length]. lia.
Qed.

Lemma json_size_length (j : json) :
  numbers_read_back j = true ->
  (json_size j <= String.length (JSON.stringify j))%nat.
Proof.
  induction j as [|b|n|s|items IH|fields IH] using json_induction;
    intros Hnum.
  - simpl. lia.
  - destruct b; simpl; lia.
  - destruct (number_text_head n Hnum) as (c & s & E & _).
    cbn [json_size JSON.stringify]. rewrite E. simpl. lia.
  - cbn [json_size JSON.stringify]. unfold JSON.quote_string, quote.
    simpl. lia.
  - cbn [json_size JSON.stringify].
    rewrite !String_length_append. cbn [String.length].
    assert (H : Forall2 (fun text n => (n <= String.length text)%nat)
                  (map JSON.stringify items) (map json_size items)).
    { cbn [numbers_read_back] in Hnum. revert Hnum.
      induction IH as [|x items Hx _ IHf]; intros Hnum; constructor;
        cbn [forallb] in Hnum; apply andb_prop in Hnum as [Hnx Hnl];
        [now apply Hx|now apply IHf]. }
    apply commas_length in H.
    replace (fold_right (fun x n => S (json_size x + n)) 0%nat items)
      with (fold_right (fun n acc => S (n + acc)) 0%nat (map json_size items))
      by (clear; induction items; simpl; congruence).
    lia.
  - cbn [json_size JSON.stringify].
    rewrite !String_length_append. cbn [String.length].
    set (f := fun kv : string * json =>
                JSON.member (fst kv) (JSON.stringify (snd kv))).
    assert (H : Forall2 (fun text n => (n <= String.length text)%nat)
                  (map f fields) (map (fun kv => json_size (snd kv)) fields)).
    { cbn [numbers_read_back] in Hnum. revert Hnum.
      induction IH as [|kv fields Hkv _ IHf]; intros Hnum; constructor;
        cbn [forallb] in Hnum; apply andb_prop in Hnum as [Hnx Hnl];
        [|now apply IHf].
      unfold f, JSON.member. rewrite !String_length_append.
      specialize (Hkv Hnx). lia. }
    apply commas_length in H.
    replace (fold_right (fun kv n => S (json_size (snd kv) + n)) 0%nat fields)
      with (fold_right (fun n acc => S (n + acc)) 0%nat
              (map (fun kv => json_size (snd kv)) fields))
      by (clear; induction fields; simpl; congruence).
    lia.
Qed.

Lemma json_numbers_read_back (j : json) :
  json_numbers j = true -> numbers_read_back j = true.
Proof.
  induction j as [|b|n|s|items IH|fields IH] using json_induction;
    intros H; try reflexivity.
  - now apply json_number_reads_back.
  - revert H. cbn [json_numbers numbers_read_back].
    induction IH as [|x items Hx _ IHf]; intros H; [reflexivity|].
    cbn [forallb] in *. apply andb_prop in H as [H1 H2].
    now rewrite Hx, IHf.
  - revert H. cbn [json_numbers numbers_read_back].
    induction IH as [|kv fields Hkv _ IHf]; intros H; [reflexivity|].
    cbn [forallb] in *. apply andb_prop in H as [H1 H2].
    now rewrite Hkv, IHf.
Qed.

(** [JSON.parse] reads back what [JSON.stringify] printed. *)
Lemma JSON_parse_stringify (j : json) :
  well_formed j = true -> JSON.parse (JSON.stringify j) = Ok j.
Proof.
  intros Hwf. apply andb_prop in Hwf as [Hobj Hnum].
  apply json_numbers_read_back in Hnum. unfold JSON.parse.
  pose proof (parse_value_stringify j (S (String.length (JSON.stringify j)))
                EmptyString) as H.
  rewrite append_empty_r in H.
  rewrite H; [reflexivity| |reflexivity|exact Hobj|exact Hnum].
  pose proof (json_size_length j Hnum). lia.
Qed.

Lemma stringify_nonempty (j : json) :
  numbers_read_back j = true -> JSON.stringify j <> EmptyString.
Proof.
  intros Hnum.
  destruct (stringify_head j Hnum) as (c & s & E & _). rewrite E. discriminate.
Qed.

(** The entry point reads back the parameter made from a well-formed
    value. *)
Lemma load_param_of_config (j : json) :
  well_formed j = true -> load_config (Some (param_of_config j)) = Ok j.
Proof.
  intros Hwf. unfold load_config, config_of_param, param_of_config.
  assert (Hnum : numbers_read_back j = true)
    by (apply json_numbers_read_back; now apply andb_prop in Hwf as [_ ?]).
  pose proof (base64url_encode_nonempty _ (stringify_nonempty j Hnum)) as Hne.
  destruct (Base64url.encode (JSON.stringify j)) as [|c p] eqn:E;
    [congruence|].
  cbn [truthy interpolate]. rewrite <- E, base64url_decode_encode.
  cbn [bind]. now apply JSON_parse_stringify.
Qed.

(* ===================================================================== *)
(** * The objects of a configuration are in enumeration order             *)
(* ===================================================================== *)

Lemma objects_enumerated_value (v : TargetingValue) :
  objects_enumerated (json_of_value v) = true.
Proof.
  destruct v as [s|l]; [reflexivity|].
  cbn [json_of_value objects_enumerated].
  induction l as [|x l IH]; [reflexivity|exact IH].
Qed.

Lemma objects_enumerated_targeting (l : list SampleTargetingKV) :
  objects_enumerated (json_of_targeting l) = true.
Proof.
  unfold json_of_targeting. cbn [objects_enumerated].
  induction l as [|kv l IH]; [reflexivity|].
  cbn [map forallb]. rewrite IH.
  unfold json_of_kv. cbn [objects_enumerated map fst snd forallb].
  rewrite objects_enumerated_value. reflexivity.
Qed.

Lemma objects_enumerated_size (s : GeneralSize) :
  objects_enumerated (json_of_size s) = true.
Proof.
  destruct s as [[w h| |]|l]; try reflexivity.
  cbn [json_of_size objects_enumerated].
  induction l as [|[w h| |] l IH]; [reflexivity|exact IH..].
Qed.

Lemma objects_enumerated_privacy (p : SamplePrivacyConfig) :
  objects_enumerated (json_of_privacy p) = true.
Proof.
  destruct p as [[a|] [b|] [c|] [d|] [e|]]; reflexivity.
Qed.

Lemma objects_enumerated_page (p : SamplePageConfig) :
  objects_enumerated (json_of_page p) = true.
Proof.
  destruct p as [[v|] [b|] [t|]];
    cbn [json_of_page privacy sra page_targeting optional Datatypes.app
         objects_enumerated map fst snd forallb];
    rewrite ?objects_enumerated_privacy, ?objects_enumerated_targeting;
    reflexivity.
Qed.

Lemma objects_enumerated_slot (s : SampleSlotConfig) :
  objects_enumerated (json_of_slot s) = true.
Proof.
  destruct s as [a [f|] z [t|]];
    cbn [json_of_slot adUnit format size targeting optional Datatypes.app
         objects_enumerated map fst snd forallb];
    rewrite ?objects_enumerated_size, ?objects_enumerated_targeting;
    reflexivity.
Qed.

Lemma objects_enumerated_template (t : SampleTemplateConfig) :
  objects_enumerated (json_of_template t) = true.
Proof.
  destruct t as [[[n|s]|] [g|]]; reflexivity.
Qed.

Lemma objects_enumerated_config (st : store) (config : SampleConfig) :
  objects_enumerated (json_of_config st config) = true.
Proof.
  assert (Hslots : forallb objects_enumerated
                     (map (fun r => json_of_slot (st r)) (slots config))
                   = true).
  { induction (slots config) as [|r l IH]; [reflexivity|].
    cbn [map forallb]. now rewrite objects_enumerated_slot. }
  destruct config as [[p|] l [t|]];
    cbn [json_of_config page slots template optional Datatypes.app
         objects_enumerated map fst snd forallb] in *;
    rewrite ?objects_enumerated_page, ?objects_enumerated_template, ?Hslots;
    reflexivity.
Qed.

(* ===================================================================== *)
(** * The numbers of a configuration                                      *)
(* ===================================================================== *)

Lemma json_numbers_value (v : TargetingValue) :
  json_numbers (json_of_value v) = true.
Proof.
  destruct v as [s|l]; [reflexivity|]. cbn [json_of_value json_numbers].
  induction l as [|x l IH]; [reflexivity|exact IH].
Qed.

Lemma json_numbers_targeting (l : list SampleTargetingKV) :
  json_numbers (json_of_targeting l) = true.
Proof.
  unfold json_of_targeting. cbn [json_numbers].
  induction l as [|kv l IH]; [reflexivity|].
  cbn [map forallb]. rewrite IH.
  unfold json_of_kv. cbn [json_numbers map fst snd forallb].
  now rewrite json_numbers_value.
Qed.

Lemma json_numbers_single_size (s : SingleSize) :
  json_numbers (json_of_single_size s)
  = forallb JSNumber.json_number (size_numbers s).
Proof. destruct s; reflexivity. Qed.

Lemma json_numbers_size (s : GeneralSize) :
  json_numbers (json_of_size s)
  = forallb JSNumber.json_number (general_size_numbers s).
Proof.
  destruct s as [x|l]; [apply json_numbers_single_size|].
  cbn [json_of_size json_numbers general_size_numbers].
  induction l as [|x l IH]; [reflexivity|].
  cbn [map forallb flat_map].
  now rewrite forallb_app, json_numbers_single_size, IH.
Qed.

Lemma json_numbers_privacy (p : SamplePrivacyConfig) :
  json_numbers (json_of_privacy p) = true.
Proof.
  destruct p as [[a|] [b|] [c|] [d|] [e|]]; reflexivity.
Qed.

Lemma json_numbers_page (p : SamplePageConfig) :
  json_numbers (json_of_page p) = true.
Proof.
  destruct p as [[v|] [b|] [t|]];
    cbn [json_of_page privacy sra page_targeting optional Datatypes.app
         json_numbers map fst snd forallb];
    rewrite ?json_numbers_privacy, ?json_numbers_targeting; reflexivity.
Qed.

Lemma json_numbers_slot (s : SampleSlotConfig) :
  json_numbers (json_of_slot s)
  = forallb JSNumber.json_number (general_size_numbers (size s)).
Proof.
  destruct s as [a [f|] z [t|]];
    cbn [json_of_slot adUnit format size targeting optional Datatypes.app
         json_numbers map fst snd forallb];
    rewrite json_numbers_size, ?json_numbers_targeting;
    now rewrite andb_true_r.
Qed.

Lemma json_numbers_template (t : SampleTemplateConfig) :
  json_numbers (json_of_template t)
  = forallb JSNumber.json_number (template_numbers t).
Proof.
  destruct t as [[[n|s]|] [g|]]; reflexivity.
Qed.

Lemma json_numbers_config (st : store) (config : SampleConfig) :
  json_numbers (json_of_config st config)
  = forallb JSNumber.json_number (config_numbers st config).
Proof.
  assert (Hslots : forall l,
             forallb json_numbers (map (fun r => json_of_slot (st r)) l)
             = forallb JSNumber.json_number
                 (flat_map (fun r => general_size_numbers (size (st r))) l)).
  { induction l as [|r l IH]; [reflexivity|].
    cbn [map forallb flat_map].
    now rewrite forallb_app, json_numbers_slot, IH. }
  unfold config_numbers. rewrite forallb_app, <- Hslots.
  destruct config as [[p|] l [t|]];
    cbn [json_of_config page slots template optional Datatypes.app
         json_numbers map fst snd forallb];
    rewrite ?json_numbers_page, ?json_numbers_template;
    cbn [andb forallb]; now rewrite ?andb_true_r.
Qed.

(* ===================================================================== *)
(** * The configuration in the URL hash                                   *)
(* ===================================================================== *)


Section EntryPointProperties.

Variable base64url_decode : string -> result string.
Variable JSON_parse : string -> result json.

(** C7, amended.  When the URL hash carries a non-empty [config]
    parameter, a failure of base64url decoding or of [JSON.parse] on the
    decoded text is the outcome of initialization: nothing catches it and
    no default is substituted.  When there is no [config] parameter, or
    an empty one, the configuration is [{slots: []}], the empty
    [SampleConfig]. *)
Theorem config_of_param_outcomes :
  (forall (p text : string) (e : JsError),
     p <> EmptyString ->
     base64url_decode p = Ok text ->
     JSON_parse text = Err e ->
     config_of_param base64url_decode JSON_parse (Some p) = Err e)
  /\
  (forall (p : string) (e : JsError),
     p <> EmptyString ->
     base64url_decode p = Err e ->
     config_of_param base64url_decode JSON_parse (Some p) = Err e)
  /\
  (forall (p text : string),
     p <> EmptyString ->
     base64url_decode p = Ok text ->
     config_of_param base64url_decode JSON_parse (Some p) = JSON_parse text)
  /\
  config_of_param base64url_decode JSON_parse None
  = Ok (JObj [("slots", JArr [])])
  /\
  config_of_param base64url_decode JSON_parse (Some EmptyString)
  = Ok (JObj [("slots", JArr [])])
  /\
  (forall st : store,
     json_of_config st {| page := None; slots := []; template := None |}
     = JObj [("slots", JArr [])]).
Proof.
  unfold config_of_param.
  repeat split.
  - intros p text e Hp Hd He.
    destruct p as [|c p]; [congruence|]. cbn [truthy interpolate].
    rewrite Hd. cbn [bind]. exact He.
  - intros p e Hp Hd.
    destruct p as [|c p]; [congruence|]. cbn [truthy interpolate].
    now rewrite Hd.
  - intros p text Hp Hd.
    destruct p as [|c p]; [congruence|]. cbn [truthy interpolate].
    now rewrite Hd.
Qed.

End EntryPointProperties.

(* ===================================================================== *)
(** * The statements at sample configurations                             *)
(* ===================================================================== *)

(** C1 as stated fails for single request architecture with an empty slot
    list: [displayAll] raises a [TypeError] and displays no slot. *)
Lemma displayAll_claim_fails_without_slots :
  displayAll sample_store empty_sra_config = Err TypeError
  /\ ~ displayAll_claim sample_store empty_sra_config.
Proof.
  split; [reflexivity|].
  intros [H _]. destruct (H eq_refl) as (r & f & Hin & _). exact Hin.
Qed.


Lemma displayAll_one_or_all_witness :
  (sra_enabled sample_config = true
   /\ slots sample_config <> []
   /\ exists r f, In r (slots sample_config)
                  /\ display sample_store sample_config (object r) = Ok f
                  /\ displayAll sample_store sample_config = Ok f)
  /\
  (sra_enabled plain_config = false
   /\ exists frags,
        Forall2 (fun r f => display sample_store plain_config (object r) = Ok f)
                (slots plain_config) frags
        /\ displayAll sample_store plain_config = Ok (join frags)).
Proof.
  split.
  - split; [reflexivity|]. split; [discriminate|].
    apply (proj1 (displayAll_one_or_all sample_store sample_config));
      [reflexivity|discriminate].
  - split; [reflexivity|].
    apply (proj2 (displayAll_one_or_all sample_store plain_config)).
    reflexivity.
Defined.

(** C7 as stated fails for a [config] parameter that is present and
    empty: the decoded text, the empty text, is not JSON, and
    initialization returns the default configuration. *)
Lemma empty_param_does_not_fail :
  ~ propagates_parse_failure EmptyString.
Proof.
  intros H. specialize (H EmptyString SyntaxError eq_refl eq_refl).
  discriminate H.
Qed.

Lemma config_of_param_outcomes_witness :
  "e3" <> EmptyString
  /\ Base64url.decode "e3" = Ok "{"
  /\ JSON.parse "{" = Err SyntaxError
  /\ load_config (Some "e3") = Err SyntaxError
  /\ Base64url.decode "e" = Err InvalidCharacterError
  /\ load_config (Some "e") = Err InvalidCharacterError
  /\ Base64url.decode "e30" = Ok "{}"
  /\ load_config (Some "e30") = JSON.parse "{}".
Proof.
  pose proof (config_of_param_outcomes Base64url.decode JSON.parse)
    as (H1 & H2 & H3 & _).
  assert (N3 : "e3" <> EmptyString) by discriminate.
  assert (N1 : "e" <> EmptyString) by discriminate.
  assert (N0 : "e30" <> EmptyString) by discriminate.
  split; [exact N3|]. split; [reflexivity|]. split; [reflexivity|].
  split; [exact (H1 "e3" "{" SyntaxError N3 eq_refl eq_refl)|].
  split; [reflexivity|].
  split; [exact (H2 "e" InvalidCharacterError N1 eq_refl)|].
  split; [reflexivity|].
  exact (H3 "e30" "{}" N0 eq_refl).
Defined.


Lemma getSlotIdentifer_by_position_witness :
  NoDup (slots sample_config)
  /\ nth_error (slots sample_config) 1 = Some 0%nat
  /\ getSlotIdentifer sample_config (object 0%nat) = "slot2"
  /\ nth_error (slots sample_config) 0 = Some 1%nat
  /\ nth_error (slots sample_config) 2 = Some 2%nat
  /\ getSlotIdentifer sample_config (object 1%nat)
     <> getSlotIdentifer sample_config (object 2%nat)
  /\ ~ In 7%nat (slots sample_config)
  /\ getSlotIdentifer sample_config (object 7%nat) = "slot0".
Proof.
  assert (Hnd : NoDup (slots sample_config)).
  { repeat constructor; simpl; intuition discriminate. }
  assert (Hout : ~ In 7%nat (slots sample_config)).
  { simpl. intuition discriminate. }
  destruct (getSlotIdentifer_by_position sample_config) as [Hin Habsent].
  destruct (Hin Hnd) as [Hpos Hdiff].
  split; [exact Hnd|]. split; [reflexivity|].
  split; [exact (Hpos 1%nat 0%nat eq_refl)|].
  split; [reflexivity|]. split; [reflexivity|].
  split; [apply (Hdiff 0%nat 2%nat 1%nat 2%nat eq_refl eq_refl); discriminate|].
  split; [exact Hout|].
  exact (Habsent 7%nat Hout).
Defined.

Lemma sra_index_in_bounds_witness :
  slots sample_config <> []
  /\ 0 <= sra_index sample_store sample_config
       < array_length (slots sample_config)
  /\ (exists code, displayAll sample_store sample_config = Ok code)
  /\ slots empty_sra_config = []
  /\ sra_index sample_store empty_sra_config = -1
  /\ displayAll sample_store empty_sra_config = Err TypeError.
Proof.
  assert (Hne : slots sample_config <> []) by discriminate.
  destruct (sra_index_in_bounds sample_store sample_config)
    as (Hin & _ & _).
  destruct (Hin Hne) as (Hb & _ & Hok).
  destruct (sra_index_in_bounds sample_store empty_sra_config)
    as (_ & _ & Hempty).
  destruct (Hempty eq_refl) as (Hi & _ & Herr).
  split; [exact Hne|]. split; [exact Hb|]. split; [exact (Hok eq_refl)|].
  split; [reflexivity|]. split; [exact Hi|].
  exact (Herr eq_refl).
Defined.

Lemma displayAll_sra_prefers_static_witness :
  sra_enabled sample_config = true
  /\ slots sample_config = ([1%nat] ++ 0%nat :: [2%nat])%list
  /\ out_of_page sample_store 1%nat = true
  /\ out_of_page sample_store 0%nat = false
  /\ displayAll sample_store sample_config
     = display sample_store sample_config (object 0%nat)
  /\ sra_enabled out_of_page_config = true
  /\ slots out_of_page_config = ([1%nat] ++ [2%nat])%list
  /\ (forall x, In x (slots out_of_page_config) ->
                out_of_page sample_store x = true)
  /\ displayAll sample_store out_of_page_config
     = display sample_store out_of_page_config (object 2%nat).
Proof.
  assert (Hall : forall x, In x (slots out_of_page_config) ->
                           out_of_page sample_store x = true).
  { intros x [<-|[<-|[]]]; reflexivity. }
  assert (Hfirst : forall x, In x [1%nat] -> out_of_page sample_store x = true).
  { intros x [<-|[]]. reflexivity. }
  split; [reflexivity|]. split; [reflexivity|]. split; [reflexivity|].
  split; [reflexivity|].
  split.
  { exact (proj1 (displayAll_sra_prefers_static sample_store sample_config
                    eq_refl)
             [1%nat] [2%nat] 0%nat eq_refl Hfirst eq_refl). }
  split; [reflexivity|]. split; [reflexivity|]. split; [exact Hall|].
  exact (proj2 (displayAll_sra_prefers_static sample_store out_of_page_config
                  eq_refl)
           [1%nat] 2%nat eq_refl Hall).
Defined.

Lemma addInlineSlotSettings_chain_witness :
  targeting interstitial_slot = None
  /\ Slot.addInlineSlotSettings sample_sanitizeJs interstitial_slot "slot1"
     = "slot1" ++ ".addService(googletag.pubads());".
Proof.
  split; [reflexivity|].
  exact (proj1 (proj2 (addInlineSlotSettings_chain sample_sanitizeJs
                         interstitial_slot "slot1")) eq_refl).
Defined.

Lemma getSlotOnloadCallback_status_witness :
  (format (sample_store 1%nat) = Some "INTERSTITIAL"
   /\ exists statusUpdate,
        getSlotOnloadCallback sample_formatNames sample_store sample_config
          1%nat
        = nl ++ "    if(slot1 === event.slot) {" ++ nl
             ++ "      " ++ statusUpdate ++ ";" ++ nl ++ "    }" ++ nl ++ "  "
        /\ statusUpdate
           = "document.getElementById('slot1')!.innerHTML = '<a href="
               ++ quote ++ "https://www.example.com" ++ quote
               ++ ">Interstitial is loaded.</a>'")
  /\
  (format (sample_store 2%nat) = Some "TOP_ANCHOR"
   /\ exists statusUpdate,
        getSlotOnloadCallback sample_formatNames sample_store sample_config
          2%nat
        = nl ++ "    if(slot3 === event.slot) {" ++ nl
             ++ "      " ++ statusUpdate ++ ";" ++ nl ++ "    }" ++ nl ++ "  "
        /\ statusUpdate
           = "document.getElementById('slot3')!.innerText = "
               ++ "'Top anchor is loaded. Scroll page to activate.'")
  /\
  (format (sample_store 0%nat) <> Some "INTERSTITIAL"
   /\ format (sample_store 0%nat) <> Some "TOP_ANCHOR"
   /\ exists statusUpdate,
        getSlotOnloadCallback sample_formatNames sample_store sample_config
          0%nat
        = nl ++ "    if(slot2 === event.slot) {" ++ nl
             ++ "      " ++ statusUpdate ++ ";" ++ nl ++ "    }" ++ nl ++ "  "
        /\ statusUpdate
           = "document.getElementById('slot2')!.innerText = "
               ++ "'undefined is loaded.'").
Proof.
  split; [|split].
  - split; [reflexivity|].
    destruct (getSlotOnloadCallback_status sample_formatNames sample_store
                sample_config 1%nat) as (u & Hcb & Hi & _ & _).
    exists u. split; [exact Hcb|exact (Hi eq_refl)].
  - split; [reflexivity|].
    destruct (getSlotOnloadCallback_status sample_formatNames sample_store
                sample_config 2%nat) as (u & Hcb & _ & Ht & _).
    exists u. split; [exact Hcb|exact (Ht eq_refl)].
  - assert (N1 : format (sample_store 0%nat) <> Some "INTERSTITIAL")
      by discriminate.
    assert (N2 : format (sample_store 0%nat) <> Some "TOP_ANCHOR")
      by discriminate.
    split; [exact N1|]. split; [exact N2|].
    destruct (getSlotOnloadCallback_status sample_formatNames sample_store
                sample_config 0%nat) as (u & Hcb & _ & _ & Ho).
    exists u. split; [exact Hcb|exact (Ho N1 N2)].
Defined.

Lemma inputs_pass_through_sanitizeJs_witness :
  same_sanitized sample_sanitizeJs (sample_store 5%nat) (moved_store 5%nat)
  /\ defineSlot sample_sanitizeJs sample_store sample_config 5%nat
     = defineSlot sample_sanitizeJs moved_store sample_config 5%nat
  /\ defineOutOfPageSlot sample_sanitizeJs sample_formatNames
       sample_addEventListener sample_store sample_config 5%nat
     = defineOutOfPageSlot sample_sanitizeJs sample_formatNames
         sample_addEventListener moved_store sample_config 5%nat.
Proof.
  assert (H5 : same_sanitized sample_sanitizeJs (sample_store 5%nat)
                 (moved_store 5%nat)) by (repeat split).
  destruct (inputs_pass_through_sanitizeJs sample_sanitizeJs
              sample_formatNames sample_addEventListener)
    as (_ & _ & _ & H).
  destruct (H sample_store moved_store sample_config 5%nat H5)
    as (Hd & Ho & _).
  split; [exact H5|]. split; [exact Hd|exact Ho].
Defined.

Lemma codegen_deterministic_witness :
  same_config sample_store moved_store sample_config moved_config
  /\ same_slot sample_store moved_store sample_config moved_config
       (object 0%nat) (object 10%nat)
  /\ declareSlot sample_config 0%nat = declareSlot moved_config 10%nat
  /\ defineSlot sample_sanitizeJs sample_store sample_config 0%nat
     = defineSlot sample_sanitizeJs moved_store moved_config 10%nat
  /\ display sample_store sample_config (object 0%nat)
     = display moved_store moved_config (object 10%nat)
  /\ displayAll sample_store sample_config
     = displayAll moved_store moved_config.
Proof.
  assert (Hc : same_config sample_store moved_store sample_config
                 moved_config).
  { split; [reflexivity|]. split; [reflexivity|].
    repeat (constructor; [split; reflexivity|]). constructor. }
  assert (Hs : same_slot sample_store moved_store sample_config moved_config
                 (object 0%nat) (object 10%nat)) by (split; reflexivity).
  destruct (codegen_deterministic sample_sanitizeJs sample_formatNames
              sample_addEventListener sample_store moved_store
              sample_config moved_config 0%nat 10%nat "slot" Hc Hs)
    as (H1 & H2 & _ & H4 & H5 & _).
  split; [exact Hc|]. split; [exact Hs|]. split; [exact H1|].
  split; [exact H2|]. split; [exact H4|exact H5].
Defined.

(* ===================================================================== *)
(** * Slot identifiers in lists that share slot objects                   *)
(* ===================================================================== *)

Lemma append_inv_tail (a b s : string) : a ++ s = b ++ s -> a = b.
Proof.
  revert b. induction a as [|x a IH]; intros [|y b] H.
  - reflexivity.
  - exfalso. apply (f_equal String.length) in H.
    simpl in H. rewrite String_length_append in H. lia.
  - exfalso. apply (f_equal String.length) in H.
    simpl in H. rewrite String_length_append in H. lia.
  - simpl in H. injection H as -> H. f_equal. now apply IH.
Qed.

(** [indexOf] returns the first position that holds the object. *)
Lemma indexOf_from_first (l1 l2 : list ref) (r : ref) (i : Z) :
  ~ In r l1 ->
  indexOf_from (l1 ++ r :: l2) (object r) i = i + Z.of_nat (List.length l1).
Proof.
  revert i. induction l1 as [|x l1 IH]; intros i Hin; simpl.
  - rewrite Nat.eqb_refl. lia.
  - destruct (Nat.eqb_spec x r) as [->|Hne].
    + exfalso. apply Hin. now left.
    + rewrite IH; [lia|]. intros H. apply Hin. now right.
Qed.

Lemma indexOf_from_member (l : list ref) (r : ref) (i : Z) :
  In r l ->
  exists n, indexOf_from l (object r) i = i + Z.of_nat n
            /\ nth_error l n = Some r.
Proof.
  revert i. induction l as [|x l IH]; intros i Hin; [contradiction|].
  simpl. destruct (Nat.eqb_spec x r) as [->|Hne].
  - exists 0%nat. split; [lia|reflexivity].
  - destruct Hin as [->|Hin]; [congruence|].
    destruct (IH (i + 1) Hin) as (n & Hn & Hnth).
    exists (S n). split; [lia|exact Hnth].
Qed.

(** X1.  [getSlotIdentifer] names a slot object by the first position
    that holds it: in a list [l1 ++ r :: l2] where [r] is not in [l1],
    the object [r] is named ["slot"] followed by the length of [l1] plus
    one, whether or not [l2] holds [r] again. *)
Theorem getSlotIdentifer_first_occurrence (config : SampleConfig)
    (l1 l2 : list ref) (r : ref) :
  slots config = (l1 ++ r :: l2)%list ->
  ~ In r l1 ->
  getSlotIdentifer config (object r)
  = "slot" ++ number_to_string (Z.of_nat (List.length l1) + 1).
Proof.
  intros Hs Hin. unfold getSlotIdentifer, indexOf.
  rewrite Hs, (indexOf_from_first l1 l2 r 0 Hin). f_equal.
Qed.

(** X2.  The identifier is ["slot0"] exactly for the values that
    [config.slots] does not hold: a slot object outside the list, and
    [undefined]; no object of the list is named ["slot0"]. *)
Theorem getSlotIdentifer_slot0 (config : SampleConfig) :
  (forall r : ref,
     getSlotIdentifer config (object r) = "slot0"
     <-> ~ In r (slots config))
  /\ getSlotIdentifer config undefined = "slot0".
Proof.
  split.
  - intros r. split.
    + intros H Hin.
      change "slot0" with ("slot" ++ number_to_string 0) in H.
      unfold getSlotIdentifer in H.
      apply append_inv_head, number_to_string_inj in H.
      destruct (indexOf_from_member (slots config) r 0 Hin) as (n & Hn & _).
      unfold indexOf in H. lia.
    + intros Hin. unfold getSlotIdentifer, indexOf.
      now rewrite indexOf_from_absent.
  - unfold getSlotIdentifer, indexOf. now rewrite indexOf_from_undefined.
Qed.

(** X3.  Two different objects of [config.slots] never receive the same
    identifier, whether or not the list repeats objects; so
    [declareSlot] declares different variables for different objects of
    the list. *)
Theorem getSlotIdentifer_injective (config : SampleConfig) (r r' : ref) :
  In r (slots config) -> In r' (slots config) ->
  (getSlotIdentifer config (object r) = getSlotIdentifer config (object r')
   -> r = r')
  /\ (declareSlot config r = declareSlot config r' -> r = r').
Proof.
  intros Hr Hr'.
  assert (Hid : getSlotIdentifer config (object r)
                = getSlotIdentifer config (object r') -> r = r').
  { intros H. apply getSlotIdentifer_inj in H. unfold indexOf in H.
    destruct (indexOf_from_member _ _ 0 Hr) as (n & Hn & Hnth).
    destruct (indexOf_from_member _ _ 0 Hr') as (n' & Hn' & Hnth').
    assert (n = n') by lia. subst n'. congruence. }
  split; [exact Hid|].
  intros H. apply Hid. unfold declareSlot, api_declareSlot in H.
  rewrite !append_assoc in H.
  now apply append_inv_head, append_inv_tail in H.
Qed.

(** X4.  An identifier is always ["slot"] followed by the decimal digits
    of a number between 0 and the length of the slot list: it holds no
    sign and no other character. *)
Theorem getSlotIdentifer_digits (config : SampleConfig) (v : slotval) :
  exists n : Z,
    0 <= n <= array_length (slots config)
    /\ getSlotIdentifer config v = "slot" ++ number_to_string n
    /\ all_digits (number_to_string n) = true
    /\ number_to_string n <> EmptyString.
Proof.
  exists (indexOf (slots config) v + 1).
  assert (Hr : 0 <= indexOf (slots config) v + 1
               <= array_length (slots config)).
  { unfold indexOf.
    destruct (indexOf_from_range (slots config) v 0) as [H|H].
    - rewrite H. unfold array_length. lia.
    - lia. }
  split; [exact Hr|]. split; [reflexivity|].
  split; [apply number_to_string_digits; lia|].
  destruct (number_to_string_head (indexOf (slots config) v + 1))
    as (c & s & E & _).
  rewrite E. discriminate.
Qed.

(* ===================================================================== *)
(** * The text of the display code                                        *)
(* ===================================================================== *)

Lemma display_object_code (st : store) (config : SampleConfig) (r : ref) :
  display st config (object r)
  = Ok (display_code (out_of_page st r)
                     (indexOf (slots config) (object r) + 1)).
Proof.
  unfold display, display_code, out_of_page, getSlotIdentifer, api_display.
  cbn [get_format bind].
  destruct (truthy (format (st r))); now rewrite !append_assoc.
Qed.

Lemma display_codes_positions (st : store) (config : SampleConfig)
    (pre suf : list ref) :
  slots config = (pre ++ suf)%list ->
  NoDup (slots config) ->
  Forall2 (fun r f => display st config (object r) = Ok f)
          suf (display_codes st suf (List.length pre)).
Proof.
  revert pre. induction suf as [|r suf IH]; intros pre Hs Hnd.
  - constructor.
  - cbn [display_codes]. constructor.
    + rewrite display_object_code. unfold indexOf.
      rewrite Hs, indexOf_from_first; [reflexivity|].
      rewrite Hs in Hnd. apply NoDup_remove_2 in Hnd.
      intros H. apply Hnd. apply in_or_app. now left.
    + replace (S (List.length pre)) with (List.length (pre ++ [r])%list)
        by (rewrite length_app; simpl; lia).
      apply IH; [|exact Hnd].
      now rewrite <- app_assoc.
Qed.

(** X5.  [displayAll] fails in one case only: single request
    architecture with an empty slot list, where it raises a [TypeError].
    Without single request architecture an empty slot list gives the
    empty text. *)
Theorem displayAll_failure (st : store) (config : SampleConfig) :
  (forall e : JsError,
     displayAll st config = Err e
     <-> sra_enabled config = true /\ slots config = [] /\ e = TypeError)
  /\
  (sra_enabled config = false -> slots config = [] ->
   displayAll st config = Ok EmptyString).
Proof.
  split.
  - intros e. unfold displayAll.
    destruct (sra_enabled config) eqn:Hsra.
    + destruct (slots config) as [|x l] eqn:Hl.
      * unfold sra_index. rewrite Hl. cbn. split.
        -- intros [= <-]. auto.
        -- now intros (_ & _ & ->).
      * assert (Hne : slots config <> []) by (rewrite Hl; discriminate).
        destruct (array_get_in_range _ _ (sra_index_bounds st config Hne))
          as (r & Hr & _).
        rewrite Hl in Hr. rewrite Hr.
        destruct (display_object st config r) as [f Hf]. rewrite Hf.
        split; [discriminate|]. intros (_ & H & _). discriminate.
    + destruct (display_fragments st config (slots config)) as [frags Hfr].
      rewrite (display_each_app _ _ _ _ _ Hfr).
      split; [discriminate|]. intros (H & _). discriminate.
  - intros Hsra Hl. unfold displayAll. rewrite Hsra, Hl. reflexivity.
Qed.

(** X8.  Under single request architecture the display code is that of
    one slot, named by its position: the element-id form for the first
    static slot, and, when every slot is out-of-page, the guarded form
    for the last slot (named by the last position when the list does not
    hold that object earlier). *)
Theorem displayAll_sra_code (st : store) (config : SampleConfig) :
  sra_enabled config = true ->
  (forall (l1 l2 : list ref) (r : ref),
     slots config = (l1 ++ r :: l2)%list ->
     (forall x, In x l1 -> out_of_page st x = true) ->
     out_of_page st r = false ->
     displayAll st config
     = Ok ("googletag.display('slot"
             ++ number_to_string (Z.of_nat (List.length l1) + 1) ++ "');"))
  /\
  (forall (l : list ref) (r : ref),
     slots config = (l ++ [r])%list ->
     ~ In r l ->
     (forall x, In x (slots config) -> out_of_page st x = true) ->
     displayAll st config
     = Ok ("if (slot" ++ number_to_string (Z.of_nat (List.length l) + 1)
             ++ ") { googletag.display(slot"
             ++ number_to_string (Z.of_nat (List.length l) + 1) ++ "); }")).
Proof.
  intros Hsra. split.
  - intros l1 l2 r Hs Hl1 Hr. unfold displayAll. rewrite Hsra.
    rewrite (sra_index_first st config l1 l2 r Hs Hl1 Hr).
    rewrite Hs, array_get_middle, display_object_code, Hr.
    assert (Hin : ~ In r l1).
    { intros H. apply Hl1 in H. congruence. }
    unfold indexOf. rewrite Hs, (indexOf_from_first l1 l2 r 0 Hin).
    reflexivity.
  - intros l r Hs Hin Hall. unfold displayAll. rewrite Hsra.
    rewrite (sra_index_last st config Hall).
    assert (Hr : out_of_page st r = true).
    { apply Hall. rewrite Hs. apply in_or_app. right. now left. }
    rewrite Hs at 1 2. unfold array_length. rewrite length_app.
    simpl List.length.
    replace (Z.of_nat (List.length l + 1) - 1)
      with (Z.of_nat (List.length l)) by lia.
    rewrite array_get_middle, display_object_code, Hr.
    unfold indexOf. rewrite Hs, (indexOf_from_first l [] r 0 Hin).
    reflexivity.
Qed.

(** X9.  Without single request architecture and with pairwise distinct
    slot objects, the display code is, slot after slot in list order, the
    element-id form for a static slot and the guarded form for an
    out-of-page slot, each named by the slot's position counted from
    one. *)
Theorem displayAll_codes (st : store) (config : SampleConfig) :
  sra_enabled config = false ->
  NoDup (slots config) ->
  displayAll st config = Ok (join (display_codes st (slots config) 0)).
Proof.
  intros Hsra Hnd. unfold displayAll. rewrite Hsra.
  now rewrite (display_each_app st config (slots config)
                 (display_codes st (slots config) 0) EmptyString
                 (display_codes_positions st config [] (slots config)
                    eq_refl Hnd)).
Qed.

(* ===================================================================== *)
(** * What the display code reads of a slot                               *)
(* ===================================================================== *)

Lemma findIndex_from_ext (p q : ref -> bool) (l : list ref) (i : Z) :
  (forall x, In x l -> p x = q x) ->
  findIndex_from p l i = findIndex_from q l i.
Proof.
  revert i. induction l as [|x l IH]; intros i H; simpl; [reflexivity|].
  rewrite (H x (or_introl eq_refl)), IH; [reflexivity|].
  intros y Hy. apply H. now right.
Qed.

Lemma array_get_member (l : list ref) (i : Z) :
  array_get l i = undefined
  \/ exists r, array_get l i = object r /\ In r l.
Proof.
  unfold array_get. destruct (i <? 0); [now left|].
  destruct (nth_error l (Z.to_nat i)) as [r|] eqn:E; [right|now left].
  exists r. split; [reflexivity|]. eapply nth_error_In; eauto.
Qed.

Lemma display_each_ext (st st' : store) (config : SampleConfig)
    (l : list ref) (acc : string) :
  (forall r, In r l ->
     display st config (object r) = display st' config (object r)) ->
  display_each st config l acc = display_each st' config l acc.
Proof.
  revert acc. induction l as [|r l IH]; intros acc H; [reflexivity|].
  rewrite !display_each_cons, (H r (or_introl eq_refl)).
  destruct (display st' config (object r)); simpl; [|reflexivity].
  apply IH. intros y Hy. apply H. now right.
Qed.

(** X6.  The display code reads nothing of a slot but whether it has a
    format: two stores that agree on that for the slots of the list give
    the same [display] code for each of them and the same [displayAll],
    whatever the ad unit paths, sizes, targeting and format names are. *)
Theorem displayAll_reads_formats_only (st st' : store)
    (config : SampleConfig) :
  (forall r, In r (slots config) -> out_of_page st r = out_of_page st' r) ->
  (forall r, In r (slots config) ->
     display st config (object r) = display st' config (object r))
  /\ displayAll st config = displayAll st' config.
Proof.
  intros H.
  assert (Hd : forall r, In r (slots config) ->
               display st config (object r) = display st' config (object r)).
  { intros r Hr. now rewrite !display_object_code, (H r Hr). }
  split; [exact Hd|].
  unfold displayAll. destruct (sra_enabled config).
  - assert (Hi : sra_index st config = sra_index st' config).
    { unfold sra_index, findIndex.
      rewrite (findIndex_from_ext
                 (fun s => negb (truthy (format (st s))))
                 (fun s => negb (truthy (format (st' s)))));
        [reflexivity|].
      intros x Hx. f_equal. exact (H x Hx). }
    rewrite Hi.
    destruct (array_get_member (slots config) (sra_index st' config))
      as [E|(r & E & Hr)]; rewrite E; [reflexivity|now apply Hd].
  - now apply display_each_ext.
Qed.

(* ===================================================================== *)
(** * The text of an out-of-page slot definition                          *)
(* ===================================================================== *)

Lemma trimStart_template (s : string) :
  trimStart (nl ++ "    " ++ "slot" ++ s) = "slot" ++ s.
Proof. reflexivity. Qed.

Lemma trimEnd_keep (a : string) (c : ascii) (ws : string) :
  is_whitespace c = false ->
  trimEnd ws = EmptyString ->
  trimEnd (a ++ String c ws) = a ++ String c EmptyString.
Proof.
  intros Hc Hws. induction a as [|x a IH].
  - cbn [append trimEnd]. now rewrite Hws, Hc.
  - cbn [append trimEnd]. rewrite IH.
    destruct a; reflexivity.
Qed.

Lemma trim_template (m : string) :
  trim (nl ++ "    " ++ "slot" ++ m ++ "}" ++ nl ++ "  ")
  = "slot" ++ m ++ "}".
Proof.
  unfold trim. rewrite trimStart_template.
  rewrite <- (append_assoc "slot" m ("}" ++ nl ++ "  ")).
  rewrite <- (append_assoc "slot" m "}").
  change (("slot" ++ m) ++ "}" ++ nl ++ "  ")
    with (("slot" ++ m) ++ String "}" (nl ++ "  ")).
  now rewrite trimEnd_keep.
Qed.

Lemma trim_trimmed (m : string) :
  trim ("slot" ++ m ++ "}") = "slot" ++ m ++ "}".
Proof.
  unfold trim.
  change (trimStart ("slot" ++ m ++ "}")) with ("slot" ++ m ++ "}").
  rewrite <- (append_assoc "slot" m "}").
  change (("slot" ++ m) ++ "}")
    with (("slot" ++ m) ++ String "}" EmptyString).
  now rewrite trimEnd_keep.
Qed.

(** The targeting calls are appended to whatever precedes them. *)
Lemma fold_setTargeting_option (sanitizeJs : json -> string)
    (t : option (list SampleTargetingKV)) (acc : string) :
  Slot.append_targeting sanitizeJs acc t
  = acc ++ Slot.append_targeting sanitizeJs EmptyString t.
Proof.
  unfold Slot.append_targeting. destruct t as [kvs|].
  - now rewrite (fold_setTargeting sanitizeJs kvs acc),
      (fold_setTargeting sanitizeJs kvs EmptyString).
  - now rewrite append_empty_r.
Qed.

(** X10.  The inline settings are appended to the definition and do not
    depend on it: the result is the definition followed by what the
    settings are for the empty definition.  An empty targeting list adds
    what an absent one adds, the [addService] call alone. *)
Theorem addInlineSlotSettings_appends (sanitizeJs : json -> string)
    (config : SampleSlotConfig) (slotDefinition : string) :
  Slot.addInlineSlotSettings sanitizeJs config slotDefinition
  = slotDefinition
      ++ Slot.addInlineSlotSettings sanitizeJs config EmptyString
  /\ (targeting config = Some [] ->
      Slot.addInlineSlotSettings sanitizeJs config slotDefinition
      = slotDefinition ++ ".addService(googletag.pubads());").
Proof.
  unfold Slot.addInlineSlotSettings. split.
  - rewrite (fold_setTargeting_option sanitizeJs _ slotDefinition).
    now rewrite !append_assoc.
  - intros ->. reflexivity.
Qed.

Section OutOfPageText.

Variable sanitizeJs : json -> string.
Variable outOfPageFormatNames : string -> option string.
Variable pubads_addEventListener : string -> string -> string.

(** The trimmed text: what precedes and follows the [addService] call of
    the inline settings. *)
Lemma defineOutOfPageSlot_trimmed (st : store) (config : SampleConfig)
    (slotConfig : ref) :
  let slotVar := getSlotIdentifer config (object slotConfig) in
  let name := formatName outOfPageFormatNames (st slotConfig) in
  defineOutOfPageSlot sanitizeJs outOfPageFormatNames
    pubads_addEventListener st config slotConfig
  = "slot"
      ++ ((number_to_string
             (indexOf (slots config) (object slotConfig) + 1)
           ++ " = " ++ api_defineOutOfPageSlot sanitizeJs (st slotConfig)
           ++ ";" ++ nl ++ nl
           ++ "    // " ++ name
           ++ " slots return null if the page or device does not support them."
           ++ nl
           ++ "    if(!" ++ slotVar ++ ") {" ++ nl
           ++ "      document.getElementById('" ++ slotVar
           ++ "')!.innerText = '"
           ++ name ++ " is not supported on this page.';" ++ nl
           ++ "    } else {" ++ nl
           ++ "      "
           ++ Slot.append_targeting sanitizeJs slotVar
                (targeting (st slotConfig)))
          ++ ".addService(googletag.pubads());;"
          ++ (nl ++ nl
              ++ "      document.getElementById('" ++ slotVar
              ++ "')!.innerText = '"
              ++ name ++ " is loading...';" ++ nl
              ++ nl
              ++ "      "
              ++ pubads_addEventListener "slotOnload"
                   (getSlotOnloadCallback outOfPageFormatNames st config
                      slotConfig)
              ++ nl ++ "    "))
      ++ "}".
Proof.
  intros slotVar name. unfold defineOutOfPageSlot.
  match goal with
  | |- _ = "slot" ++ ?m ++ "}" => rewrite <- (trim_template m)
  end.
  f_equal.
  set (num := number_to_string
                (indexOf (slots config) (object slotConfig) + 1)).
  change (getSlotIdentifer config (object slotConfig)) with ("slot" ++ num).
  fold name.
  unfold Slot.addInlineSlotSettings, status_update,
    status_container, outOfPage_comment, outOfPage_notSupported,
    outOfPage_loading, Slot.api_addService.
  fold slotVar.
  rewrite !append_assoc. reflexivity.
Qed.

(** X7.  The code that defines an out-of-page slot carries no white space
    around it: it starts with the assignment to the slot variable and
    ends with the brace that closes the [else] branch, whatever
    [sanitizeJs], the format names and the event listener code are.  The
    inline settings already end with a semicolon, so their line ends
    with two. *)
Theorem defineOutOfPageSlot_text (st : store) (config : SampleConfig)
    (slotConfig : ref) :
  let slotVar := getSlotIdentifer config (object slotConfig) in
  let name := formatName outOfPageFormatNames (st slotConfig) in
  let code := defineOutOfPageSlot sanitizeJs outOfPageFormatNames
                pubads_addEventListener st config slotConfig in
  code
  = slotVar ++ " = " ++ api_defineOutOfPageSlot sanitizeJs (st slotConfig)
      ++ ";" ++ nl
      ++ nl
      ++ "    // " ++ name
      ++ " slots return null if the page or device does not support them."
      ++ nl
      ++ "    if(!" ++ slotVar ++ ") {" ++ nl
      ++ "      document.getElementById('" ++ slotVar ++ "')!.innerText = '"
      ++ name ++ " is not supported on this page.';" ++ nl
      ++ "    } else {" ++ nl
      ++ "      "
      ++ Slot.addInlineSlotSettings sanitizeJs (st slotConfig) slotVar
      ++ ";" ++ nl
      ++ nl
      ++ "      document.getElementById('" ++ slotVar ++ "')!.innerText = '"
      ++ name ++ " is loading...';" ++ nl
      ++ nl
      ++ "      "
      ++ pubads_addEventListener "slotOnload"
           (getSlotOnloadCallback outOfPageFormatNames st config slotConfig)
      ++ nl
      ++ "    }"
  /\ trim code = code
  /\ exists before after,
       code = before ++ ".addService(googletag.pubads());;" ++ after.
Proof.
  intros slotVar name code.
  pose proof (defineOutOfPageSlot_trimmed st config slotConfig) as Hcode.
  cbv zeta in Hcode. fold code in Hcode.
  split; [|split].
  - rewrite Hcode. subst slotVar name.
    unfold getSlotIdentifer, Slot.addInlineSlotSettings, Slot.api_addService.
    rewrite !append_assoc. reflexivity.
  - rewrite Hcode. apply trim_trimmed.
  - match type of Hcode with
    | _ = "slot" ++ (?m1 ++ _ ++ ?m2) ++ "}" =>
        exists ("slot" ++ m1), (m2 ++ "}")
    end.
    rewrite Hcode. now rewrite !append_assoc.
Qed.

(** X11.  The declaration, the definition and the display code of a slot
    use one identifier, that of [getSlotIdentifer]: [declareSlot]
    declares it as a variable, [defineSlot] passes it as the element id
    that the display code of a static slot names, and
    [defineOutOfPageSlot] assigns the variable that the display code of
    an out-of-page slot tests and displays. *)
Theorem identifier_shared (st : store) (config : SampleConfig)
    (slotConfig : ref) :
  let id := getSlotIdentifer config (object slotConfig) in
  declareSlot config slotConfig = "let " ++ id ++ ": googletag.Slot|null;"
  /\ (exists settings,
        defineSlot sanitizeJs st config slotConfig
        = "googletag.defineSlot("
            ++ sanitizeJs (JStr (adUnit (st slotConfig))) ++ ", "
            ++ sanitizeJs (json_of_size (size (st slotConfig)))
            ++ ", '" ++ id ++ "')!" ++ settings)
  /\ (out_of_page st slotConfig = false ->
      display st config (object slotConfig)
      = Ok ("googletag.display('" ++ id ++ "');"))
  /\ (exists rest,
        defineOutOfPageSlot sanitizeJs outOfPageFormatNames
          pubads_addEventListener st config slotConfig
        = id ++ " = googletag.defineOutOfPageSlot(" ++ rest)
  /\ (out_of_page st slotConfig = true ->
      display st config (object slotConfig)
      = Ok ("if (" ++ id ++ ") { googletag.display(" ++ id ++ "); }")).
Proof.
  intros id. split; [|split; [|split; [|split]]].
  - unfold declareSlot, api_declareSlot. fold id.
    now rewrite !append_assoc.
  - exists (Slot.addInlineSlotSettings sanitizeJs (st slotConfig)
              EmptyString).
    unfold defineSlot, api_defineSlot, Slot.addInlineSlotSettings. fold id.
    rewrite (fold_setTargeting_option sanitizeJs _
               (("googletag.defineSlot("
                   ++ sanitizeJs (JStr (adUnit (st slotConfig))) ++ ", "
                   ++ sanitizeJs (json_of_size (size (st slotConfig)))
                   ++ ", '" ++ id ++ "')") ++ "!")).
    rewrite !append_assoc. reflexivity.
  - intros H. unfold display. cbn [get_format bind].
    unfold out_of_page in H. rewrite H. fold id.
    unfold api_display. now rewrite !append_assoc.
  - pose proof (defineOutOfPageSlot_trimmed st config slotConfig) as Hcode.
    cbv zeta in Hcode.
    match type of Hcode with
    | _ = "slot" ++ ((_ ++ " = " ++ _ ++ ?x) ++ ?lit ++ ?m2) ++ "}" =>
        exists ((sanitizeJs (JStr (adUnit (st slotConfig)))
                 ++ ", googletag.enums.OutOfPageFormat."
                 ++ String_of_format (format (st slotConfig)) ++ ")")
                ++ x ++ lit ++ m2 ++ "}")
    end.
    rewrite Hcode. unfold id, getSlotIdentifer, api_defineOutOfPageSlot.
    rewrite !append_assoc. reflexivity.
  - intros H. unfold display. cbn [get_format bind].
    unfold out_of_page in H. rewrite H. fold id.
    unfold api_display. now rewrite !append_assoc.
Qed.

End OutOfPageText.

(* ===================================================================== *)
(** * Further statements at sample configurations                         *)
(* ===================================================================== *)

Lemma getSlotIdentifer_first_occurrence_witness :
  slots shared_config = ([2%nat] ++ 0%nat :: [2%nat])%list
  /\ ~ In 0%nat [2%nat]
  /\ getSlotIdentifer shared_config (object 0%nat) = "slot2"
  /\ slots shared_config = ([] ++ 2%nat :: [0%nat; 2%nat])%list
  /\ ~ In 2%nat []
  /\ getSlotIdentifer shared_config (object 2%nat) = "slot1".
Proof.
  assert (H0 : ~ In 0%nat [2%nat]) by (simpl; intuition discriminate).
  assert (H2 : ~ In 2%nat []) by (simpl; tauto).
  split; [reflexivity|]. split; [exact H0|].
  split; [exact (getSlotIdentifer_first_occurrence shared_config
                   [2%nat] [2%nat] 0%nat eq_refl H0)|].
  split; [reflexivity|]. split; [exact H2|].
  exact (getSlotIdentifer_first_occurrence shared_config
           [] [0%nat; 2%nat] 2%nat eq_refl H2).
Defined.

Lemma getSlotIdentifer_slot0_witness :
  ~ In 7%nat (slots sample_config)
  /\ getSlotIdentifer sample_config (object 7%nat) = "slot0"
  /\ In 0%nat (slots sample_config)
  /\ getSlotIdentifer sample_config (object 0%nat) <> "slot0".
Proof.
  assert (H7 : ~ In 7%nat (slots sample_config))
    by (simpl; intuition discriminate).
  assert (H0 : In 0%nat (slots sample_config)) by (simpl; auto).
  destruct (getSlotIdentifer_slot0 sample_config) as [H _].
  split; [exact H7|]. split; [exact (proj2 (H 7%nat) H7)|].
  split; [exact H0|].
  intros E. exact (proj1 (H 0%nat) E H0).
Defined.

Lemma getSlotIdentifer_injective_witness :
  In 2%nat (slots shared_config)
  /\ In 0%nat (slots shared_config)
  /\ getSlotIdentifer shared_config (object 2%nat)
     <> getSlotIdentifer shared_config (object 0%nat)
  /\ declareSlot shared_config 2%nat <> declareSlot shared_config 0%nat.
Proof.
  assert (H2 : In 2%nat (slots shared_config)) by (simpl; auto).
  assert (H0 : In 0%nat (slots shared_config)) by (simpl; auto).
  destruct (getSlotIdentifer_injective shared_config 2%nat 0%nat H2 H0)
    as [Hid Hdecl].
  split; [exact H2|]. split; [exact H0|]. split.
  - intros E. apply Hid in E. discriminate E.
  - intros E. apply Hdecl in E. discriminate E.
Defined.

Lemma displayAll_failure_witness :
  sra_enabled empty_sra_config = true
  /\ slots empty_sra_config = []
  /\ displayAll sample_store empty_sra_config = Err TypeError
  /\ sra_enabled empty_config = false
  /\ slots empty_config = []
  /\ displayAll sample_store empty_config = Ok EmptyString.
Proof.
  split; [reflexivity|]. split; [reflexivity|].
  split.
  { apply (proj1 (displayAll_failure sample_store empty_sra_config)
             TypeError).
    repeat split. }
  split; [reflexivity|]. split; [reflexivity|].
  exact (proj2 (displayAll_failure sample_store empty_config)
           eq_refl eq_refl).
Defined.

Lemma displayAll_reads_formats_only_witness :
  (forall r, In r (slots sample_config) ->
     out_of_page sample_store r = out_of_page restyled_store r)
  /\ displayAll sample_store sample_config
     = displayAll restyled_store sample_config.
Proof.
  assert (H : forall r, In r (slots sample_config) ->
              out_of_page sample_store r = out_of_page restyled_store r).
  { intros r [<-|[<-|[<-|[]]]]; reflexivity. }
  split; [exact H|].
  exact (proj2 (displayAll_reads_formats_only sample_store restyled_store
                  sample_config H)).
Defined.

Lemma displayAll_sra_code_witness :
  sra_enabled sample_config = true
  /\ slots sample_config = ([1%nat] ++ 0%nat :: [2%nat])%list
  /\ out_of_page sample_store 1%nat = true
  /\ out_of_page sample_store 0%nat = false
  /\ displayAll sample_store sample_config
     = Ok "googletag.display('slot2');"
  /\ sra_enabled out_of_page_config = true
  /\ slots out_of_page_config = ([1%nat] ++ [2%nat])%list
  /\ ~ In 2%nat [1%nat]
  /\ (forall x, In x (slots out_of_page_config) ->
                out_of_page sample_store x = true)
  /\ displayAll sample_store out_of_page_config
     = Ok "if (slot2) { googletag.display(slot2); }".
Proof.
  assert (Hall : forall x, In x (slots out_of_page_config) ->
                           out_of_page sample_store x = true).
  { intros x [<-|[<-|[]]]; reflexivity. }
  assert (Hfirst : forall x, In x [1%nat] -> out_of_page sample_store x = true).
  { intros x [<-|[]]. reflexivity. }
  assert (Hnot : ~ In 2%nat [1%nat]) by (simpl; intuition discriminate).
  split; [reflexivity|]. split; [reflexivity|]. split; [reflexivity|].
  split; [reflexivity|].
  split.
  { exact (proj1 (displayAll_sra_code sample_store sample_config eq_refl)
             [1%nat] [2%nat] 0%nat eq_refl Hfirst eq_refl). }
  split; [reflexivity|]. split; [reflexivity|]. split; [exact Hnot|].
  split; [exact Hall|].
  exact (proj2 (displayAll_sra_code sample_store out_of_page_config eq_refl)
           [1%nat] 2%nat eq_refl Hnot Hall).
Defined.

Lemma displayAll_codes_witness :
  sra_enabled plain_config = false
  /\ NoDup (slots plain_config)
  /\ displayAll sample_store plain_config
     = Ok ("if (slot1) { googletag.display(slot1); }"
             ++ "googletag.display('slot2');"
             ++ "if (slot3) { googletag.display(slot3); }").
Proof.
  assert (Hnd : NoDup (slots plain_config)).
  { repeat constructor; simpl; intuition discriminate. }
  split; [reflexivity|]. split; [exact Hnd|].
  exact (displayAll_codes sample_store plain_config eq_refl Hnd).
Defined.

Lemma addInlineSlotSettings_appends_witness :
  targeting untargeted_slot = Some []
  /\ Slot.addInlineSlotSettings sample_sanitizeJs untargeted_slot "slot1"
     = "slot1" ++ ".addService(googletag.pubads());".
Proof.
  split; [reflexivity|].
  exact (proj2 (addInlineSlotSettings_appends sample_sanitizeJs
                  untargeted_slot "slot1") eq_refl).
Defined.

Lemma identifier_shared_witness :
  out_of_page sample_store 0%nat = false
  /\ display sample_store sample_config (object 0%nat)
     = Ok ("googletag.display('"
             ++ getSlotIdentifer sample_config (object 0%nat) ++ "');")
  /\ out_of_page sample_store 1%nat = true
  /\ display sample_store sample_config (object 1%nat)
     = Ok ("if (" ++ getSlotIdentifer sample_config (object 1%nat)
             ++ ") { googletag.display("
             ++ getSlotIdentifer sample_config (object 1%nat) ++ "); }").
Proof.
  destruct (identifier_shared sample_sanitizeJs sample_formatNames
              sample_addEventListener sample_store sample_config 0%nat)
    as (_ & _ & Hstatic & _ & _).
  destruct (identifier_shared sample_sanitizeJs sample_formatNames
              sample_addEventListener sample_store sample_config 1%nat)
    as (_ & _ & _ & _ & Hoop).
  split; [reflexivity|]. split; [exact (Hstatic eq_refl)|].
  split; [reflexivity|]. exact (Hoop eq_refl).
Defined.
